(** * scope / tools / get_features.py

    A shallow embedding of the feature downloader: the paginated fetch
    [get_features] and the checkpointed loop [get_features_loop], with the
    Python, pandas, numpy and pyarrow behaviour they rely on written out.

    Integers are [Z].  Python exceptions are values of [exn]; a computation
    runs in a state-and-exception monad over a [world] made of the parquet
    and csv files on disk and the trace of observable events (remote
    queries, printed messages, file writes).  The state survives an
    exception, as the disk does. *)

From Stdlib Require Import ZArith Lia Ascii String DecimalString DecimalZ.
From stdpp Require Import base gmap strings list fin_maps.

Local Open Scope string_scope.
Local Open Scope list_scope.
Local Open Scope Z_scope.

(* ===================================================================== *)
(** ** Python primitives *)
(* ===================================================================== *)

Module Py.

(** The exceptions the two functions can raise.  [LibraryError] stands for
    whatever pandas raises from [DataFrame.astype]; [ArrowInvalid] is what
    pyarrow raises from a file that is not a parquet file. *)
Inductive exn :=
| ValueError
| KeyError
| UnboundLocalError
| ZeroDivisionError
| LibraryError
| ArrowInvalid.

(** Outcome of a call that has no effect besides its result: a value or a
    raised exception. *)
Inductive checked (A : Type) :=
| Returns (a : A)
| Raises (e : exn).
Arguments Returns {A} a.
Arguments Raises {A} e.

(** Outcome of a computation: a value, a raised exception, or a [while]
    loop that used up the fuel of the model. *)
Inductive result (A : Type) :=
| Ok (a : A)
| Raise (e : exn)
| OutOfFuel.
Arguments Ok {A} a.
Arguments Raise {A} e.
Arguments OutOfFuel {A}.

Definition len {A} (l : list A) : Z := Z.of_nat (length l).

(** [a % b] and [a // b]: floor semantics, as [Z.modulo] and [Z.div] have
    for a non-zero divisor; a zero divisor raises. *)
Definition py_mod (a b : Z) : checked Z :=
  if b =? 0 then Raises ZeroDivisionError else Returns (a mod b).

Definition py_floordiv (a b : Z) : checked Z :=
  if b =? 0 then Raises ZeroDivisionError else Returns (a / b).

(** Bound of a slice [l[a:b]]: a negative index counts from the end, and
    the result is clamped to [0, len l]. *)
Definition slice_index (n i : Z) : Z :=
  if i <? 0 then Z.max 0 (i + n) else Z.min i n.

Definition py_slice {A} (l : list A) (a b : Z) : list A :=
  let n := len l in
  let lo := slice_index n a in
  let hi := slice_index n b in
  take (Z.to_nat (hi - lo)) (drop (Z.to_nat lo) l).

(** [range(a, b)] *)
Definition py_range (a b : Z) : list Z :=
  (fun k => a + Z.of_nat k) <$> seq 0 (Z.to_nat (b - a)).

(** [str(n)] for an int. *)
Definition str (n : Z) : string := NilEmpty.string_of_int (Z.to_int n).

(** [s.zfill(2)]: a string shorter than two characters is a single digit. *)
Definition zfill2 (s : string) : string :=
  if (String.length s <? 2)%nat then "0" +:+ s else s.

(** [os.path.dirname], POSIX flavour: the head up to the last slash, with
    trailing slashes stripped unless the head consists of slashes only. *)
Definition is_slash (c : ascii) : bool := Ascii.eqb c "/"%char.

Fixpoint has_slash (s : string) : bool :=
  match s with
  | EmptyString => false
  | String c r => is_slash c || has_slash r
  end.

Fixpoint all_slash (s : string) : bool :=
  match s with
  | EmptyString => true
  | String c r => is_slash c && all_slash r
  end.

(** [p[:p.rfind('/') + 1]] *)
Fixpoint head_of (s : string) : string :=
  match s with
  | EmptyString => EmptyString
  | String c r =>
      if has_slash r then String c (head_of r)
      else if is_slash c then String c EmptyString else EmptyString
  end.

(** [s.rstrip('/')] *)
Fixpoint rstrip_slash (s : string) : string :=
  match s with
  | EmptyString => EmptyString
  | String c r =>
      if is_slash c && all_slash r then EmptyString
      else String c (rstrip_slash r)
  end.

Definition dirname (p : string) : string :=
  let head := head_of p in
  if all_slash head then head else rstrip_slash head.

End Py.
Export Py.

(* ===================================================================== *)
(** ** Tables and arrays *)
(* ===================================================================== *)

(** A dmdt histogram as the service sends it: a list of lists of numbers. *)
Abbreviation hist := (list (list Z)).

(** One record of the feature catalog.  Only the two columns the code
    inspects are kept: the identifier and the optional dmdt histogram
    ([None] when the record has no such field). *)
Record row := Row { _id : Z; dmdt : option hist }.

(** A pandas DataFrame built from a list of records: its rows, in order. *)
Abbreviation DataFrame := (list row).

Module Np.

(** A numpy array: its shape and its entries in row-major order. *)
Record ndarray := Nd { shape : list nat; flat : list Z }.

(** Shape numpy finds for one nested list; [None] when it is ragged. *)
Definition hist_shape (h : hist) : option (list nat) :=
  match h with
  | [] => Some [0%nat]
  | r :: rs =>
      if forallb (fun r' => (length r' =? length r)%nat) rs
      then Some [length h; length r]
      else None
  end.

Definition same_shape (s : list nat) (h : hist) : bool :=
  bool_decide (hist_shape h = Some s).

(** [np.array(cells)] on the cells of a dmdt column (numpy 1.24 and
    later): a missing cell is a NaN scalar, and a scalar next to nested
    lists, or nested lists of different shapes, raise ValueError. *)
Definition array (cells : list (option hist)) : checked ndarray :=
  match mapM id cells with
  | None => Raises ValueError
  | Some [] => Returns (Nd [0%nat] [])
  | Some (h :: hs) =>
      match hist_shape h with
      | None => Raises ValueError
      | Some s =>
          if forallb (same_shape s) hs
          then Returns (Nd (length (h :: hs) :: s)
                           (concat (@concat Z <$> (h :: hs))))
          else Raises ValueError
      end
  end.

(** [np.expand_dims(a, axis=-1)] *)
Definition expand_dims (a : ndarray) : ndarray :=
  Nd (shape a ++ [1%nat]) (flat a).

(** What ends up in [dmdt_collection]: the Python list [[]] the variable
    [dmdt_temp] starts as, or an array. *)
Inductive dmdt_obj :=
| EmptyList
| Arr (a : ndarray).

(** [np.atleast_2d]: the empty list becomes an array of shape (1, 0). *)
Definition atleast_2d (o : dmdt_obj) : ndarray :=
  match o with
  | EmptyList => Nd [1%nat; 0%nat] []
  | Arr a =>
      match shape a with
      | [] => Nd [1%nat; 1%nat] (flat a)
      | [n] => Nd [1%nat; n] (flat a)
      | _ => a
      end
  end.

(** Leading dimension, [a.shape[0]]. *)
Definition leading (a : ndarray) : nat := hd 0%nat (shape a).

(** [np.vstack]: concatenation along the first axis of the arrays made
    two-dimensional at least; all but the first dimension must agree. *)
Definition vstack (objs : list dmdt_obj) : checked ndarray :=
  match atleast_2d <$> objs with
  | [] => Raises ValueError
  | a :: rest =>
      if forallb (fun b => bool_decide (tail (shape b) = tail (shape a))) rest
      then Returns (Nd (sum_list (leading <$> (a :: rest)) :: tail (shape a))
                       (concat (flat <$> (a :: rest))))
      else Raises ValueError
  end.

End Np.
Export Np.

(** [df_temp['dmdt'].values], stacked: KeyError when the frame has no dmdt
    column, which is when no record has the field. *)
Definition extract_dmdt (df : DataFrame) : checked ndarray :=
  if forallb (fun r => bool_decide (dmdt r = None)) df then Raises KeyError
  else match Np.array (dmdt <$> df) with
       | Returns a => Returns (expand_dims a)
       | Raises e => Raises e
       end.

(* ===================================================================== *)
(** ** The remote service, the disk and the trace of events *)
(* ===================================================================== *)

(** The "find" query sent to the catalog service. *)
Record query := Query {
  catalog : string;
  filter_in : list Z;
  query_projection : gmap string Z
}.

(** The answer of one service instance: an empty dict, or a dict whose
    "status" and "data" entries may each be absent. *)
Inductive response :=
| RespEmpty
| Resp (status : option string) (data : option (list row)).

(** What the code prints, by print statement. *)
Inductive message :=
| MsgResponse (r : response)
| MsgError (e : exn)
| MsgFrame (df : DataFrame)
| MsgDone (n : Z)
| MsgFeatures (df : DataFrame)
| MsgDmdtShape (s : list nat)
| MsgIteration (i n : Z)
| MsgComplete.

Inductive event :=
| EvQuery (q : query)
| EvPrint (m : message)
| EvWriteParquet (path : string) (df : DataFrame)
| EvWriteCsv (path : string) (df : DataFrame).

(** The parquet files and the csv files on disk, by path, and the events so
    far.  The program writes parquet files under names that end in
    [.parquet] and csv files under names that end in [.csv], so no path it
    writes is held by both maps; where a path is, a read finds the parquet
    file. *)
Record world := World {
  parquet : gmap string DataFrame;
  csv : gmap string DataFrame;
  trace : list event
}.

(** What the module takes from outside: the service behind
    [kowalski_instances.query], pandas' [astype] with the dtypes of the
    configuration file, [scope.utils.impute_features], and the directory of
    the script. *)
Record Env := {
  kowalski_query : query -> list (string * response);
  astype : DataFrame -> checked DataFrame;
  impute_features : DataFrame -> bool -> DataFrame;
  script_dir : string
}.

(** *** The monad *)

Definition M (A : Type) : Type := world -> result A * world.

Definition ret {A} (a : A) : M A := fun w => (Ok a, w).

Definition bind {A B} (m : M A) (k : A -> M B) : M B :=
  fun w =>
    match m w with
    | (Ok a, w') => k a w'
    | (Raise e, w') => (Raise e, w')
    | (OutOfFuel, w') => (OutOfFuel, w')
    end.

Definition raise {A} (e : exn) : M A := fun w => (Raise e, w).

Definition out_of_fuel {A} : M A := fun w => (OutOfFuel, w).

Definition lift {A} (r : checked A) : M A :=
  fun w => match r with
           | Returns a => (Ok a, w)
           | Raises e => (Raise e, w)
           end.

Definition get_world : M world := fun w => (Ok w, w).

Definition emit (e : event) : M unit :=
  fun w => (Ok tt, World (parquet w) (csv w) (trace w ++ [e])).

Definition print (m : message) : M unit := emit (EvPrint m).

Definition when (b : bool) (m : M unit) : M unit := if b then m else ret tt.

Notation "'let!' x ':=' m 'in' k" := (bind m (fun x => k))
  (at level 10, x pattern, m at level 100, k at level 200,
   format "'[v' 'let!'  x  ':='  m  'in' '/' k ']'").
Notation "m1 ';;;' m2" := (bind m1 (fun _ => m2))
  (at level 100, m2 at level 200, right associativity,
   format "'[v' m1  ';;;' '/' m2 ']'").

(** Modelled from the spec: [scope.utils.write_parquet] is not in src/; it
    writes the table as one output segment file at the given path. *)
Definition write_parquet (df : DataFrame) (path : string) : M unit :=
  fun w => (Ok tt, World (<[path := df]> (parquet w)) (csv w)
                         (trace w ++ [EvWriteParquet path df])).

(** [df.to_csv(path, index=False)] *)
Definition to_csv (df : DataFrame) (path : string) : M unit :=
  fun w => (Ok tt, World (parquet w) (<[path := df]> (csv w))
                         (trace w ++ [EvWriteCsv path df])).

(** *** The dataset of a directory

    [ds.dataset(dir, format='parquet')] discovers the files below [dir], at
    any depth, and leaves out those with a path segment below [dir] that
    starts with [.] or [_]; it does not look at what kind of file each one
    is.  The files come sorted by path.  [dir] is given without a trailing
    slash, as [os.path.dirname] returns it. *)

(** [s] without the prefix [pre]. *)
Fixpoint strip_prefix (pre s : string) : option string :=
  match pre, s with
  | EmptyString, _ => Some s
  | String a pre', String b s' =>
      if Ascii.eqb a b then strip_prefix pre' s' else None
  | String _ _, EmptyString => None
  end.

(** The path of [p] relative to [dir], when [p] lies below [dir]. *)
Definition below (dir p : string) : option string :=
  strip_prefix (dir +:+ "/") p.

Definition is_ignore_prefix (c : ascii) : bool :=
  Ascii.eqb c "."%char || Ascii.eqb c "_"%char.

(** Some segment of the relative path starts with [.] or [_];
    [at_start] tells whether the next character starts a segment. *)
Fixpoint ignored_from (at_start : bool) (rel : string) : bool :=
  match rel with
  | EmptyString => false
  | String c r =>
      if is_slash c then ignored_from true r
      else (at_start && is_ignore_prefix c) || ignored_from false r
  end.

Definition discoverable (dir p : string) : bool :=
  match below dir p with
  | Some rel => negb (String.eqb rel "") && negb (ignored_from true rel)
  | None => false
  end.

(** The paths of the files on disk. *)
Definition paths_on_disk (w : world) : list string :=
  (map_to_list (parquet w)).*1
    ++ filter (fun p => parquet w !! p = None) (map_to_list (csv w)).*1.

Fixpoint insert_path (p : string) (l : list string) : list string :=
  match l with
  | [] => [p]
  | q :: r => if String.leb p q then p :: q :: r else q :: insert_path p r
  end.

Definition sorted_paths (l : list string) : list string :=
  foldr insert_path [] l.

(** The files the discovery finds below [dir]. *)
Definition discovered (dir : string) (w : world) : list string :=
  sorted_paths (filter (fun p => discoverable dir p = true) (paths_on_disk w)).

(** A file read as parquet. *)
Definition read_table (w : world) (p : string) : checked DataFrame :=
  match parquet w !! p with
  | Some df => Returns df
  | None => Raises ArrowInvalid
  end.

(** [ds.dataset(dir, format='parquet')], as its [.files]: the schema is
    read from the first file, which raises when that is no parquet file.
    An empty directory gives an empty dataset. *)
Definition dataset (dir : string) (w : world) : checked (list string) :=
  match discovered dir w with
  | [] => Returns []
  | p :: rest =>
      match read_table w p with
      | Returns _ => Returns (p :: rest)
      | Raises e => Raises e
      end
  end.

(** [for batch in DS.to_batches(columns=['_id']): existing_ids +=
    batch['_id'].to_pylist()]: the files are read in order, and a file
    that is no parquet file raises. *)
Fixpoint to_batches (w : world) (files : list string) : checked (list Z) :=
  match files with
  | [] => Returns []
  | p :: rest =>
      match read_table w p with
      | Returns df =>
          match to_batches w rest with
          | Returns ids => Returns ((_id <$> df) ++ ids)
          | Raises e => Raises e
          end
      | Raises e => Raises e
      end
  end.

(* ===================================================================== *)
(** ** get_features *)
(* ===================================================================== *)

Record fetch_args := FetchArgs {
  source_ids : list Z;
  features_catalog : string;
  verbose : bool;
  limit_per_query : Z;
  impute_missing_features : bool;
  self_impute : bool;
  projection : gmap string Z
}.

(** The local variables of [get_features] that live across iterations of
    its loop.  [source_data] is [None] while the name is unbound. *)
Record fetch_state := FetchState {
  source_data : option (list row);
  df_collection : list DataFrame;
  dmdt_temp : dmdt_obj;
  dmdt_collection : list dmdt_obj
}.

Definition fetch_init : fetch_state := FetchState None [] EmptyList [].

(** [(projection == {}) | ("dmdt" in projection)] *)
Definition wants_dmdt (p : gmap string Z) : bool :=
  bool_decide (p = ∅) || bool_decide (is_Some (p !! "dmdt")).

(** [response.get("status", "error") == "success"] *)
Definition is_success (status : option string) : bool :=
  bool_decide (default "error" status = "success").

(** The [for name in responses.keys()] loop: an instance that reports
    success rebinds [source_data]; success without data raises.  Any other
    answer leaves [source_data] as it was. *)
Fixpoint scan_responses (responses : list (string * response))
    (sd : option (list row)) : M (option (list row)) :=
  match responses with
  | [] => ret sd
  | (_, RespEmpty) :: rest => scan_responses rest sd
  | (_, Resp status data as response) :: rest =>
      if is_success status then
        match data with
        | None => print (MsgResponse response) ;;; raise ValueError
        | Some d => scan_responses rest (Some d)
        end
      else scan_responses rest sd
  end.

Section Fetch.

Context (env : Env).

(** [source_ids[id * limit_per_query : (id + 1) * limit_per_query]] *)
Definition page (a : fetch_args) (id : Z) : list Z :=
  py_slice (source_ids a) (id * limit_per_query a)
           ((id + 1) * limit_per_query a).

(** One pass through the body of the [while True] loop, up to and
    including [dmdt_collection += [dmdt_temp]]. *)
Definition fetch_page (a : fetch_args) (id : Z) (s : fetch_state)
    : M fetch_state :=
  let q := Query (features_catalog a) (page a id) (projection a) in
  emit (EvQuery q) ;;;
  let! sd := scan_responses (kowalski_query env q) (source_data s) in
  let! data := match sd with
               | None => raise UnboundLocalError
               | Some d => ret d
               end in
  let! df_temp := if wants_dmdt (projection a)
                  then lift (astype env data) else ret data in
  let! dt := match extract_dmdt df_temp with
             | Returns arr => ret (Arr arr)
             | Raises e =>
                 when (wants_dmdt (projection a))
                   (print (MsgError e) ;;; print (MsgFrame df_temp)) ;;;
                 ret (dmdt_temp s)
             end in
  ret (FetchState sd (df_collection s ++ [df_temp]) dt
                  (dmdt_collection s ++ [dt])).

(** The [while True] loop, from page [id] on. *)
Fixpoint fetch_loop (fuel : nat) (a : fetch_args) (id : Z) (s : fetch_state)
    : M fetch_state :=
  match fuel with
  | O => out_of_fuel
  | S fuel' =>
      let! s' := fetch_page a id s in
      if (id + 1) * limit_per_query a >=? len (source_ids a) then
        print (MsgDone (len (source_ids a))) ;;; ret s'
      else
        let id' := id + 1 in
        let! r := lift (py_mod (id' * limit_per_query a) (limit_per_query a)) in
        when (r =? 0) (print (MsgDone (id' * limit_per_query a))) ;;;
        fetch_loop fuel' a id' s'
  end.

(** [get_features].  The provenance attributes attached to the table
    (download time, data release, imputed flag) are not part of the
    model. *)
Definition get_features (fuel : nat) (a : fetch_args)
    : M (DataFrame * ndarray) :=
  let! s := fetch_loop fuel a 0 fetch_init in
  let df := concat (df_collection s) in
  let! dmdt := lift (vstack (dmdt_collection s)) in
  let df := if impute_missing_features a
            then impute_features env df (self_impute a) else df in
  when (verbose a)
    (print (MsgFeatures df) ;;; print (MsgDmdtShape (shape dmdt))) ;;;
  ret (df, dmdt).

End Fetch.

(* ===================================================================== *)
(** ** get_features_loop *)
(* ===================================================================== *)

(** The arguments of [get_features_loop].  Those it hands on to [func]
    unchanged are kept together in [fetch]; [source_ids (fetch a)] is the
    whole identifier list. *)
Record loop_args := LoopArgs {
  fetch : fetch_args;
  whole_field : bool;
  field : Z;
  ccd : Z;
  quad : Z;
  max_sources : Z;
  restart : bool;
  write_csv : bool;
  suffix : option string;
  save : bool
}.

Definition with_source_ids (a : fetch_args) (ids : list Z) : fetch_args :=
  FetchArgs ids (features_catalog a) (verbose a) (limit_per_query a)
            (impute_missing_features a) (self_impute a) (projection a).

Definition with_restart (a : loop_args) (b : bool) : loop_args :=
  LoopArgs (fetch a) (whole_field a) (field a) (ccd a) (quad a)
           (max_sources a) b (write_csv a) (suffix a) (save a).

(** [for i in l: s = body(i, s)] *)
Fixpoint for_each {S} (l : list Z) (body : Z -> S -> M S) (s : S) : M S :=
  match l with
  | [] => ret s
  | i :: rest => let! s' := body i s in for_each rest body s'
  end.

Section Loop.

Context (env : Env).

(** The output path prefix. *)
Definition outfile (a : loop_args) : string :=
  let prefix :=
    if negb (whole_field a) then
      script_dir env +:+ "/../features/field_" +:+ str (field a)
        +:+ "/ccd_" +:+ zfill2 (str (ccd a)) +:+ "_quad_" +:+ str (quad a)
    else
      script_dir env +:+ "/../features/field_" +:+ str (field a)
        +:+ "/" +:+ "field_" +:+ str (field a) in
  match suffix a with
  | Some sfx => prefix +:+ "_" +:+ sfx
  | None => prefix
  end.

Definition segment_path (a : loop_args) (i : Z) : string :=
  outfile a +:+ "_iter_" +:+ str i +:+ ".parquet".

Definition csv_path (a : loop_args) (i : Z) : string :=
  outfile a +:+ "_iter_" +:+ str i +:+ ".csv".

(** The identifiers the parquet files among [files] hold in their [_id]
    column, in order. *)
Definition existing_ids_of (w : world) (files : list string) : list Z :=
  concat ((fun p => _id <$> default [] (parquet w !! p)) <$> files).

(** [list(set(source_ids) - set(existing_ids))] *)
Definition todo_source_ids (ids existing : list Z) : list Z :=
  elements ((list_to_set ids : gset Z) ∖ list_to_set existing).

(** [source_ids[i * max_sources : min(n_sources, (i + 1) * max_sources)]] *)
Definition select_source_ids (a : loop_args) (i : Z) : list Z :=
  let ids := source_ids (fetch a) in
  py_slice ids (i * max_sources a) (Z.min (len ids) ((i + 1) * max_sources a)).

(** The number of iterations: the quotient, plus one on a remainder. *)
Definition n_iterations (n_sources max_sources : Z) : checked Z :=
  match py_mod n_sources max_sources with
  | Returns r =>
      if negb (r =? 0) then
        match py_floordiv n_sources max_sources with
        | Returns q => Returns (q + 1)
        | Raises e => Raises e
        end
      else py_floordiv n_sources max_sources
  | Raises e => Raises e
  end.

(** The body of the [for] loop; the state is the variable [df], [None]
    while it is unbound. *)
Definition iteration (func : fetch_args -> M (DataFrame * ndarray))
    (a : loop_args) (n_iter : Z) (i : Z) (_ : option DataFrame)
    : M (option DataFrame) :=
  print (MsgIteration (i + 1) n_iter) ;;;
  let! (df, _) := func (with_source_ids (fetch a) (select_source_ids a i)) in
  when (save a)
    (write_parquet df (segment_path a i) ;;;
     when (write_csv a) (to_csv df (csv_path a i))) ;;;
  ret (Some df).

(** [(not restart) & (files_exist)], on the files discovered below the
    output directory. *)
Definition resume (a : loop_args) (w : world) : bool :=
  negb (restart a) && (0 <? len (discovered (dirname (outfile a)) w)).

(** [existing_ids] once the "Set source_ids" block is through, which it is
    when no file read there raises. *)
Definition existing_ids (a : loop_args) (w : world) : list Z :=
  if resume a w then existing_ids_of w (discovered (dirname (outfile a)) w)
  else [].

(** [get_features_loop]; the result [None] is Python's [None] of the bare
    [return].  [os.makedirs] has made the directory by the time it is
    listed. *)
Definition get_features_loop (func : fetch_args -> M (DataFrame * ndarray))
    (a : loop_args) : M (option (DataFrame * string)) :=
  let! w := get_world in
  let! indiv_files := lift (dataset (dirname (outfile a)) w) in
  let files_exist := 0 <? len indiv_files in
  let! existing_ids :=
    if negb (restart a) && files_exist then lift (to_batches w indiv_files)
    else ret [] in
  if negb (restart a) && files_exist &&
     (len (todo_source_ids (source_ids (fetch a)) existing_ids) =? 0)
  then print MsgComplete ;;; ret None
  else
    let n_sources := len (source_ids (fetch a)) in
    let! n_iter := lift (n_iterations n_sources (max_sources a)) in
    let! start_iteration :=
      lift (py_floordiv (len existing_ids) (max_sources a)) in
    let! df := for_each (py_range start_iteration n_iter)
                        (iteration func a n_iter) None in
    match df with
    | None => raise UnboundLocalError
    | Some df => ret (Some (df, outfile a))
    end.

End Loop.



(* ===================================================================== *)
(** ** The module level: feature dictionaries and service instances *)
(* ===================================================================== *)

(** Sequencing of calls that return or raise. *)
Definition and_then {A B} (c : checked A) (k : A -> checked B) : checked B :=
  match c with
  | Returns a => k a
  | Raises e => Raises e
  end.

Notation "'try!' x ':=' c 'in' k" := (and_then c (fun x => k))
  (at level 10, x pattern, c at level 100, k at level 200,
   format "'[v' 'try!'  x  ':='  c  'in' '/' k ']'").

(** A dict built by assigning the items in order: for a key that comes
    twice the later value stays. *)
Definition dict_of {V} (items : list (string * V)) : gmap string V :=
  foldl (fun m kv => <[kv.1 := kv.2]> m) ∅ items.

(** An entry of [features: ontological:] in config.yaml, with the two keys
    the module reads; either may be absent. *)
Record feature := Feature {
  dtype : option string;
  periodic : option bool
}.

(** What the module reads of config.yaml.  [ontological] and [hosts] are
    the items of a dict in file order, so their keys are distinct; a host
    carries its ['token'] entry, [None] when the key is absent and
    [Some None] when it is null.  [period_suffix] is [None] when null. *)
Record config := Config {
  ontological : list (string * feature);
  period_suffix : option string;
  hosts : list (string * option (option string));
  protocol : string;
  port : Z;
  timeout : Z;
  collections_features : string
}.

(** [{key: all_feature_names_config[key]['dtype'] for key in ...}], as
    items. *)
Fixpoint dtype_items (fs : list (string * feature))
    : checked (list (string * string)) :=
  match fs with
  | [] => Returns []
  | (key, f) :: rest =>
      match dtype f with
      | None => Raises KeyError
      | Some d => try! items := dtype_items rest in Returns ((key, d) :: items)
      end
  end.

(** [[all_feature_names_config[x]['periodic'] for x in all_feature_names]] *)
Fixpoint periodic_bool (fs : list (string * feature)) : checked (list bool) :=
  match fs with
  | [] => Returns []
  | (_, f) :: rest =>
      match periodic f with
      | None => Raises KeyError
      | Some p => try! flags := periodic_bool rest in Returns (p :: flags)
      end
  end.

(** [f'{name}_{period_suffix}'] *)
Definition suffixed (name sfx : string) : string := name +:+ "_" +:+ sfx.

(** The [for j, name in enumerate(all_feature_names)] loop. *)
Definition rename_periodic (sfx : string) (names : list string)
    (flags : list bool) : list string :=
  zip_with (fun name (p : bool) => if p then suffixed name sfx else name)
           names flags.

(** [(period_suffix is None) | (period_suffix == 'None')] *)
Definition no_period_suffix (s : option string) : bool :=
  match s with
  | None => true
  | Some sfx => bool_decide (sfx = "None")
  end.

(** [dtype_dict] and [projection_dict] as the import of the module leaves
    them. *)
Definition feature_dicts (cfg : config)
    : checked (gmap string string * gmap string Z) :=
  try! items := dtype_items (ontological cfg) in
  let projection_items :=
    (fun kf : string * feature => (kf.1, 1)) <$> ontological cfg in
  match period_suffix cfg with
  | Some sfx =>
      if no_period_suffix (Some sfx)
      then Returns (dict_of items, dict_of projection_items)
      else
        try! flags := periodic_bool (ontological cfg) in
        let all_feature_names :=
          rename_periodic sfx ((ontological cfg).*1) flags in
        let dtype_values := items.*2 in
        let projection_values := projection_items.*2 in
        Returns (dict_of (zip all_feature_names dtype_values),
                 dict_of (zip all_feature_names projection_values))
  | None => Returns (dict_of items, dict_of projection_items)
  end.

(** The three environment variables the module looks up. *)
Record environ := Environ {
  KOWALSKI_INSTANCE_TOKEN : option string;
  GLORIA_INSTANCE_TOKEN : option string;
  MELMAN_INSTANCE_TOKEN : option string
}.

(** [if token_env is not None: config[...]["hosts"][name]["token"] =
    token_env]: KeyError when the configuration has no such host. *)
Definition set_token (hs : list (string * option (option string)))
    (name : string) (token_env : option string)
    : checked (list (string * option (option string))) :=
  match token_env with
  | None => Returns hs
  | Some t =>
      if bool_decide (name ∈ hs.*1)
      then Returns ((fun h : string * option (option string) =>
                       if bool_decide (h.1 = name) then (h.1, Some (Some t))
                       else h) <$> hs)
      else Raises KeyError
  end.

(** [[x for x in hosts if hosts[x]['token'] is not None]], each with its
    token; KeyError at a host without the ['token'] key. *)
Fixpoint hosts_with_token (hs : list (string * option (option string)))
    : checked (list (string * string)) :=
  match hs with
  | [] => Returns []
  | (name, entry) :: rest =>
      match entry with
      | None => Raises KeyError
      | Some None => hosts_with_token rest
      | Some (Some t) =>
          try! others := hosts_with_token rest in Returns ((name, t) :: others)
      end
  end.

(** One value of the [instances] dict. *)
Record instance := Instance {
  instance_protocol : string;
  instance_port : Z;
  instance_host : string;
  instance_token : string
}.

(** The [instances] handed to [Kowalski(...)], as items. *)
Definition instances (cfg : config) (env_vars : environ)
    : checked (list (string * instance)) :=
  try! hs := set_token (hosts cfg) "kowalski" (KOWALSKI_INSTANCE_TOKEN env_vars) in
  try! hs := set_token hs "gloria" (GLORIA_INSTANCE_TOKEN env_vars) in
  try! hs := set_token hs "melman" (MELMAN_INSTANCE_TOKEN env_vars) in
  try! named := hosts_with_token hs in
  Returns ((fun ht : string * string =>
              (ht.1, Instance (protocol cfg) (port cfg)
                              (ht.1 +:+ ".caltech.edu") ht.2)) <$> named).

(* ===================================================================== *)
(** ** run *)
(* ===================================================================== *)

(** A ccd or quadrant selector: one int, or a list of ints. *)
Inductive range_arg :=
| IntArg (n : Z)
| ListArg (l : list Z).

(** The keyword arguments of [run]; [None] where the key is not given. *)
Record kwargs := Kwargs {
  kw_field : option Z;
  kw_ccd_range : option range_arg;
  kw_quad_range : option range_arg;
  kw_limit_per_query : option Z;
  kw_max_sources : option Z;
  kw_features_catalog : option string;
  kw_whole_field : option bool;
  kw_start : option Z;
  kw_end : option Z;
  kw_restart : option bool;
  kw_write_results : option bool;
  kw_write_csv : option bool;
  kw_column_list : option (list string);
  kw_suffix : option string;
  kw_impute_missing_features : option bool;
  kw_self_impute : option bool;
  kw_source_ids_filename : option string;
  kw_time : option bool;
  kw_verbose : option bool
}.

(** What [run] can raise: an IndexError of its own, whatever opening and
    reading the h5 file raises, or an exception out of the loop. *)
Inductive run_exn :=
| IndexError
| FileError
| FromFetch (e : exn).

Inductive run_result (A : Type) :=
| Finished (a : A)
| Failed (e : run_exn)
| Starved.
Arguments Finished {A} a.
Arguments Failed {A} e.
Arguments Starved {A}.

(** The key of [iter_dct]: a (ccd, quad) tuple, or the field number. *)
Inductive region :=
| CcdQuad (ccd quad : Z)
| WholeField (field : Z).

(** What [run] itself prints. *)
Inductive run_message :=
| MsgCcdQuad (ccd quad : Z)
| MsgField (field : Z)
| MsgReadTime
| MsgTotal (n : Z).

(** The world of the loop, and the messages of [run], each with the number
    of events the trace held when it was printed. *)
Record run_world := RunWorld {
  loop_world : world;
  console : list (nat * run_message)
}.

(** What [run] takes from outside, beyond [Env]: the identifier array of
    an h5 file, by path ([None] when the file cannot be read), converted to
    ints, and the catalog name of the configuration.  The identifiers are
    taken to be below 2^53, which the float array of the concatenation
    holds exactly. *)
Record RunEnv := {
  env_of : Env;
  read_h5 : string -> option (list Z);
  default_catalog : string
}.

Definition R (A : Type) : Type := run_world -> run_result A * run_world.

Definition rret {A} (a : A) : R A := fun rw => (Finished a, rw).

Definition rbind {A B} (m : R A) (k : A -> R B) : R B :=
  fun rw =>
    match m rw with
    | (Finished a, rw') => k a rw'
    | (Failed e, rw') => (Failed e, rw')
    | (Starved, rw') => (Starved, rw')
    end.

Definition rfail {A} (e : run_exn) : R A := fun rw => (Failed e, rw).

Definition rprint (m : run_message) : R unit :=
  fun rw => (Finished tt,
             RunWorld (loop_world rw)
                      (console rw ++ [(length (trace (loop_world rw)), m)])).

Definition rwhen (b : bool) (m : R unit) : R unit := if b then m else rret tt.

(** A computation of the loop, run on the world of the loop. *)
Definition inner {A} (m : M A) : R A :=
  fun rw =>
    match m (loop_world rw) with
    | (Ok a, w') => (Finished a, RunWorld w' (console rw))
    | (Raise e, w') => (Failed (FromFetch e), RunWorld w' (console rw))
    | (OutOfFuel, w') => (Starved, RunWorld w' (console rw))
    end.

Notation "'run!' x ':=' m 'in' k" := (rbind m (fun x => k))
  (at level 10, x pattern, m at level 100, k at level 200,
   format "'[v' 'run!'  x  ':='  m  'in' '/' k ']'").

(** [for item in items: body(item)] *)
Fixpoint rfor {A} (items : list A) (body : A -> R unit) : R unit :=
  match items with
  | [] => rret tt
  | x :: rest => run! _ := body x in rfor rest body
  end.

(** [s.endswith('/')] and [s.startswith('/')] *)
Fixpoint ends_with_slash (s : string) : bool :=
  match s with
  | EmptyString => false
  | String c EmptyString => is_slash c
  | String _ r => ends_with_slash r
  end.

Definition starts_with_slash (s : string) : bool :=
  match s with
  | String c _ => is_slash c
  | EmptyString => false
  end.

(** [os.path.join(a, b)], POSIX flavour. *)
Definition py_join (a b : string) : string :=
  if starts_with_slash b then b
  else if bool_decide (a = "") || ends_with_slash a then a +:+ b
  else a +:+ "/" +:+ b.

(** [l[start:end]] where either bound may be [None]. *)
Definition py_slice_opt {A} (l : list A) (start stop : option Z) : list A :=
  py_slice l (default 0 start) (default (len l) stop).

(** [if type(r) == int: r = [r, r]] *)
Definition as_bounds (r : range_arg) : list Z :=
  match r with
  | IntArg n => [n; n]
  | ListArg l => l
  end.

(** [range(r[0], r[1] + 1)]: IndexError on a list of fewer than two. *)
Definition inclusive_range (bounds : list Z) : option (list Z) :=
  match bounds with
  | lo :: hi :: _ => Some (py_range lo (hi + 1))
  | _ => None
  end.

(** The default identifier file of a region. *)
Definition region_file (field : Z) (r : region) : string :=
  match r with
  | CcdQuad ccd quad =>
      "../ids/field_" +:+ str field +:+ "/data_ccd_" +:+ zfill2 (str ccd)
        +:+ "_quad_" +:+ str quad +:+ ".h5"
  | WholeField _ =>
      "../ids/field_" +:+ str field +:+ "/field_" +:+ str field +:+ ".h5"
  end.

(** The quadrants of one ccd, for the inner [for]. *)
Definition quads_of (field ccd : Z) (quad_bounds : list Z)
    : option (list (region * string)) :=
  match inclusive_range quad_bounds with
  | None => None
  | Some quads =>
      Some ((fun quad => (CcdQuad ccd quad, region_file field (CcdQuad ccd quad)))
              <$> quads)
  end.

(** The outer [for]: the quadrant range is looked at once per ccd, so it
    is not looked at when there is no ccd. *)
Fixpoint ccds_of (field : Z) (ccds : list Z) (quad_bounds : list Z)
    : option (list (region * string)) :=
  match ccds with
  | [] => Some []
  | ccd :: rest =>
      match quads_of field ccd quad_bounds with
      | None => None
      | Some here =>
          match ccds_of field rest quad_bounds with
          | None => None
          | Some others => Some (here ++ others)
          end
      end
  end.

(** The items of [iter_dct], in order; [None] for IndexError. *)
Definition iter_dct (field : Z) (ccd_range quad_range : range_arg)
    (whole_field : bool) : option (list (region * string)) :=
  if negb whole_field then
    match inclusive_range (as_bounds ccd_range) with
    | None => None
    | Some ccds => ccds_of field ccds (as_bounds quad_range)
    end
  else Some [(WholeField field, region_file field (WholeField field))].

(** [{k: 1 for k in column_list}], or the empty projection. *)
Definition projection_of (column_list : option (list string)) : gmap string Z :=
  match column_list with
  | None => ∅
  | Some keys => dict_of ((fun k => (k, 1)) <$> keys)
  end.

Section Run.

Context (renv : RunEnv) (fuel : nat) (kw : kwargs).

Definition run_field : Z := default 291 (kw_field kw).
Definition run_ccd_range : range_arg := default (ListArg [1; 16]) (kw_ccd_range kw).
Definition run_quad_range : range_arg := default (ListArg [1; 4]) (kw_quad_range kw).
Definition run_whole_field : bool := default false (kw_whole_field kw).

(** The arguments [run] hands to [get_features], for the identifiers of a
    region. *)
Definition run_fetch_args (ids : list Z) : fetch_args :=
  FetchArgs (py_slice_opt ids (kw_start kw) (kw_end kw))
            (default (default_catalog renv) (kw_features_catalog kw))
            (default false (kw_verbose kw))
            (default 1000 (kw_limit_per_query kw))
            (default false (kw_impute_missing_features kw))
            (default true (kw_self_impute kw))
            (projection_of (kw_column_list kw)).

(** The arguments [run] hands to [get_features_loop]. *)
Definition run_loop_args (ccd quad : Z) (ids : list Z) : loop_args :=
  LoopArgs (run_fetch_args ids) run_whole_field run_field ccd quad
           (default 100000 (kw_max_sources kw))
           (default false (kw_restart kw))
           (default false (kw_write_csv kw))
           (kw_suffix kw) true.

(** The body of [for k, v in iter_dct.items()]. *)
Definition run_region (item : region * string) : R unit :=
  let ccd_quad := match item.1 with
                  | CcdQuad ccd quad => (ccd, quad)
                  | WholeField _ => (0, 0)
                  end in
  run! _ := rprint (match item.1 with
                    | CcdQuad ccd quad => MsgCcdQuad ccd quad
                    | WholeField _ => MsgField run_field
                    end) in
  let source_ids_filename := default item.2 (kw_source_ids_filename kw) in
  let filename := py_join (script_dir (env_of renv)) source_ids_filename in
  run! source_ids := match read_h5 renv filename with
                     | Some ids => rret ids
                     | None => rfail FileError
                     end in
  run! _ := rwhen (default false (kw_time kw)) (rprint MsgReadTime) in
  run! _ := rwhen (default false (kw_verbose kw))
                  (rprint (MsgTotal (len source_ids))) in
  if default true (kw_write_results kw) then
    run! _ := inner (get_features_loop (env_of renv)
                       (get_features (env_of renv) fuel)
                       (run_loop_args ccd_quad.1 ccd_quad.2 source_ids)) in
    rret tt
  else
    run! _ := inner (get_features (env_of renv) fuel
                       (run_fetch_args source_ids)) in
    rret tt.

(** [run] *)
Definition run : R unit :=
  match iter_dct run_field run_ccd_range run_quad_range run_whole_field with
  | None => rfail IndexError
  | Some items => rfor items run_region
  end.

End Run.

(* ===================================================================== *)
(** ** Vocabulary of the statements *)
(* ===================================================================== *)

(** The pages of identifiers sent to the service, in order. *)
Definition queried (t : list event) : list (list Z) :=
  omap (fun e => match e with EvQuery q => Some (filter_in q) | _ => None end) t.

(** The paths of the parquet segments written, in order. *)
Definition written (t : list event) : list string :=
  omap (fun e => match e with EvWriteParquet p _ => Some p | _ => None end) t.

(** The quotient rounded up. *)
Definition ceil_div (n c : Z) : Z := (n + c - 1) / c.

(** The number of pages of a call: the first [id] at which the loop of
    [get_features] breaks, plus one. *)
Definition n_pages (a : fetch_args) : Z :=
  Z.max 1 (ceil_div (len (source_ids a)) (limit_per_query a)).

(** The files on disk are the same in both worlds. *)
Definition same_files (w w' : world) : Prop :=
  parquet w' = parquet w /\ csv w' = csv w.

(** No query was sent between the two worlds. *)
Definition same_queries (w w' : world) : Prop :=
  queried (trace w') = queried (trace w).

(** No parquet segment was written between the two worlds. *)
Definition same_written (w w' : world) : Prop :=
  written (trace w') = written (trace w).

(** A computation keeps a relation between the world before and after,
    whatever its outcome. *)
Definition pres {A} (P : world -> world -> Prop) (m : M A) : Prop :=
  forall w r w', m w = (r, w') -> P w w'.

(** Every parquet file outside [paths] is the same in both worlds. *)
Definition frame (paths : string -> Prop) (w w' : world) : Prop :=
  forall p, ~ paths p -> parquet w' !! p = parquet w !! p.

(** A computation does not run out of fuel. *)
Definition finishes {A} (m : M A) : Prop :=
  forall w, (m w).1 <> OutOfFuel.

(** The world with one more printed message. *)
Definition printed (w : world) (m : message) : world :=
  World (parquet w) (csv w) (trace w ++ [EvPrint m]).

(** The service returns a record for every identifier asked for: to
    every query some instance reports success, and every answer that
    reports success and carries data has a record for each identifier of
    the query. *)
Definition answers_every_id (env : Env) : Prop :=
  forall q,
    (exists name status data,
       (name, Resp status data) ∈ kowalski_query env q /\
       is_success status = true) /\
    (forall name status rows,
       (name, Resp status (Some rows)) ∈ kowalski_query env q ->
       is_success status = true ->
       forall x, x ∈ filter_in q -> x ∈ _id <$> rows).

(** The dtype cast leaves the identifier column as it is. *)
Definition astype_keeps_ids (env : Env) : Prop :=
  forall df df', astype env df = Returns df' -> _id <$> df' = _id <$> df.

(** Modelled from the spec: [scope.utils.impute_features] is not in src/;
    it fills missing values, so the rows and their identifiers stay. *)
Definition impute_keeps_ids (env : Env) : Prop :=
  forall df b, _id <$> impute_features env df b = _id <$> df.

(** Imputation keeps the number of rows. *)
Definition impute_keeps_rows (env : Env) : Prop :=
  forall df b, length (impute_features env df b) = length df.

(** One pass of the loop body of [get_features] at page [k] takes the
    locals from [s] to [s']. *)
Definition page_pass (env : Env) (a : fetch_args) (k : Z)
    (s s' : fetch_state) : Prop :=
  exists w w', fetch_page env a k s w = (Ok s', w').

(** The passes of a loop of [get_features] that ends with a [break]: from
    page [k] and locals [s] to the locals [s'] at the break. *)
Inductive passes (env : Env) (a : fetch_args)
    : Z -> fetch_state -> fetch_state -> Prop :=
| passes_break k s s' :
    page_pass env a k s s' ->
    len (source_ids a) <= (k + 1) * limit_per_query a ->
    passes env a k s s'
| passes_next k s s1 s' :
    page_pass env a k s s1 ->
    (k + 1) * limit_per_query a < len (source_ids a) ->
    passes env a (k + 1) s1 s' ->
    passes env a k s s'.

(** The dmdt extraction succeeded on every page table of a finished loop. *)
Definition dmdt_extracted_on_every_page (env : Env) (fuel : nat)
    (a : fetch_args) (w : world) : Prop :=
  exists s w1,
    fetch_loop env fuel a 0 fetch_init w = (Ok s, w1) /\
    forall df, df ∈ df_collection s -> exists arr, extract_dmdt df = Returns arr.

(** Every file discovered below [dir] is a parquet file. *)
Definition only_parquet (dir : string) (w : world) : Prop :=
  forall p, p ∈ discovered dir w -> is_Some (parquet w !! p).

(** The "Set source_ids" block of a run: the dataset of the output
    directory and, when resuming, the identifiers read back from it. *)
Definition read_back (env : Env) (a : loop_args) (w : world) : checked (list Z) :=
  match dataset (dirname (outfile env a)) w with
  | Returns files =>
      if negb (restart a) && (0 <? len files) then to_batches w files
      else Returns []
  | Raises e => Raises e
  end.

(** The block goes through: no file read there raises. *)
Definition reads_back (env : Env) (a : loop_args) (w : world) : Prop :=
  exists ids, read_back env a w = Returns ids.

(** The early "Dataset is already complete." return is taken: resume is
    on, the output directory holds files, all of them parquet files, and
    every input identifier is in them. *)
Definition already_complete (env : Env) (a : loop_args) (w : world) : Prop :=
  restart a = false /\
  discovered (dirname (outfile env a)) w <> [] /\
  only_parquet (dirname (outfile env a)) w /\
  forall x, x ∈ source_ids (fetch a) ->
            x ∈ existing_ids_of w (discovered (dirname (outfile env a)) w).

(** The run starts from the first chunk: restart is on, or the output
    directory holds no file yet. *)
Definition fresh_start (env : Env) (a : loop_args) (w : world) : Prop :=
  restart a = true \/ discovered (dirname (outfile env a)) w = [].

(* ===================================================================== *)
(** ** Scenarios *)
(* ===================================================================== *)

Module Scenario.

(** Records with a 2 x 2 dmdt histogram, and records without the field. *)
Definition rows_of (ids : list Z) : list row :=
  (fun i => Row i (Some [[i; i]; [i; i]])) <$> ids.

Definition bare_rows (ids : list Z) : list row :=
  (fun i => Row i None) <$> ids.

Definition success (rows : list row) : list (string * response) :=
  [("kowalski", Resp (Some "success") (Some rows))].

Definition mk_env (f : query -> list (string * response)) : Env :=
  {| kowalski_query := f;
     astype := fun df => Returns df;
     impute_features := fun df _ => df;
     script_dir := "/scope/tools" |}.

(** Every identifier is in the catalog, with its dmdt. *)
Definition env_full : Env := mk_env (fun q => success (rows_of (filter_in q))).

(** The service reports an error for the page [2]. *)
Definition env_error_on_2 : Env :=
  mk_env (fun q =>
    if bool_decide (filter_in q = [2])
    then [("kowalski", Resp (Some "error") None)]
    else success (rows_of (filter_in q))).

(** The record of identifier 2 has no dmdt field. *)
Definition env_no_dmdt_for_2 : Env :=
  mk_env (fun q =>
    if bool_decide (filter_in q = [2]) then success (bare_rows [2])
    else success (rows_of (filter_in q))).

(** The record of identifier 1 has no dmdt field. *)
Definition env_no_dmdt_for_1 : Env :=
  mk_env (fun q =>
    if bool_decide (filter_in q = [1]) then success (bare_rows [1])
    else success (rows_of (filter_in q))).

(** The record of identifier 4 has no dmdt field. *)
Definition env_no_dmdt_for_4 : Env :=
  mk_env (fun q =>
    success ((fun i => if bool_decide (i = 4) then Row i None
                       else Row i (Some [[i; i]; [i; i]])) <$> filter_in q)).

(** No record has a dmdt field. *)
Definition env_bare : Env := mk_env (fun q => success (bare_rows (filter_in q))).

(** Identifier 2 is not in the catalog. *)
Definition env_without_2 : Env :=
  mk_env (fun q => success (rows_of (filter (fun x => x <> 2) (filter_in q)))).

Definition empty_world : world := World ∅ ∅ [].

Definition fetch_of (ids : list Z) (limit : Z) : fetch_args :=
  FetchArgs ids "ZTF_source_features_DR5" false limit false true ∅.

Definition loop_of (ids : list Z) (limit max : Z) (restart : bool) : loop_args :=
  LoopArgs (fetch_of ids limit) true 291 1 1 max restart false None true.

Definition seg (i : Z) : string :=
  "/scope/tools/../features/field_291/field_291_iter_" +:+ str i +:+ ".parquet".

(** The inputs of the examples. *)
Definition five_ids_pages_of_two : fetch_args := fetch_of [1; 2; 3; 4; 5] 2.

Definition two_ids_pages_of_one : fetch_args := fetch_of [1; 2] 1.

Definition four_ids_pages_of_two : fetch_args := fetch_of [1; 2; 3; 4] 2.

(** A column list without dmdt: [projection = {"period": 1}]. *)
Definition two_ids_without_dmdt : fetch_args :=
  FetchArgs [1; 2] "ZTF_source_features_DR5" false 10 false true
            {["period" := 1]}.

Definition five_ids_chunks_of_two : loop_args :=
  loop_of [1; 2; 3; 4; 5] 10 2 true.

Definition four_ids_chunks_of_two : loop_args := loop_of [1; 2; 3; 4] 10 2 true.

Definition two_ids_one_chunk : loop_args := loop_of [1; 2] 1 2 true.

Definition three_ids_chunks_of_zero : loop_args := loop_of [1; 2; 3] 10 0 true.

Definition three_ids_chunks_of_ten : loop_args := loop_of [1; 2; 3] 10 10 true.

Definition no_ids : loop_args := loop_of [] 10 2 true.

(** Four and two identifiers in chunks of two, with [write_csv] on. *)
Definition four_ids_with_csv : loop_args :=
  LoopArgs (fetch_of [1; 2; 3; 4] 10) true 291 1 1 2 true true None true.

Definition two_ids_with_csv : loop_args :=
  LoopArgs (fetch_of [1; 2] 10) true 291 1 1 2 true true None true.

(** Three further identifiers with resume on, in chunks of four and of
    ten. *)
Definition other_ids_chunks_of_four : loop_args := loop_of [7; 8; 9] 10 4 false.

Definition other_ids_chunks_of_ten : loop_args := loop_of [7; 8; 9] 10 10 false.

(** The identifiers 1 and 2 once more, with resume on and a chunk size of
    ten. *)
Definition two_ids_chunks_of_ten : loop_args := loop_of [1; 2] 10 10 false.

(** A suffix that ends in a slash: the segments are named [_iter_<i>]. *)
Definition two_ids_slash_suffix : loop_args :=
  LoopArgs (fetch_of [1; 2] 10) true 291 1 1 2 true false (Some "x/") true.

(** The outcome of a run of the loop with [get_features] from the empty
    disk. *)
Definition first_run (env : Env) (a : loop_args)
    : result (option (DataFrame * string)) * world :=
  get_features_loop env (get_features env 10) a empty_world.

(** The world a first run leaves behind, with the trace forgotten. *)
Definition after (env : Env) (a : loop_args) : world :=
  World (parquet (first_run env a).2) (csv (first_run env a).2) [].

(** A second run over what the first left on disk, with resume on. *)
Definition resumed_run (env : Env) (a : loop_args)
    : result (option (DataFrame * string)) * world :=
  get_features_loop env (get_features env 10) (with_restart a false)
                    (after env a).

(** A second run over what the first left on disk, with restart on. *)
Definition restarted_run (env : Env) (a : loop_args)
    : result (option (DataFrame * string)) * world :=
  get_features_loop env (get_features env 10) (with_restart a true)
                    (after env a).

End Scenario.


(* ===================================================================== *)
(** ** Further vocabulary *)
(* ===================================================================== *)

(** The answer of the service to page [k] of a call. *)
Definition answer (env : Env) (a : fetch_args) (k : Z) : list (string * response) :=
  kowalski_query env (Query (features_catalog a) (page a k) (projection a)).

(** An instance reports success and carries no data. *)
Definition success_without_data (rs : list (string * response)) : Prop :=
  exists name status, (name, Resp status None) ∈ rs /\ is_success status = true.

(** No instance reports success. *)
Definition no_success (rs : list (string * response)) : Prop :=
  forall name status data,
    (name, Resp status data) ∈ rs -> is_success status = false.

(** The service answers every query through one instance, with success and
    the records [rows q]. *)
Definition answers_with (env : Env) (rows : query -> list row) : Prop :=
  forall q, exists name,
    kowalski_query env q = [(name, Resp (Some "success") (Some (rows q)))].

(** The dtype cast, when it goes through, leaves the identifier and the
    dmdt cell of every record as they are. *)
Definition astype_keeps_table (env : Env) : Prop :=
  forall df df', astype env df = Returns df' -> df' = df.

(** The entries of [dmdt_collection] for the page tables [dfs], when
    [dmdt_temp] holds [prev] before the first of them: the stacked dmdt
    column of a table, or, when the extraction raises, the entry before. *)
Fixpoint carried (prev : dmdt_obj) (dfs : list DataFrame) : list dmdt_obj :=
  match dfs with
  | [] => []
  | df :: rest =>
      let dt := match extract_dmdt df with
                | Returns arr => Arr arr
                | Raises _ => prev
                end in
      dt :: carried dt rest
  end.

(** The first iteration of a run, [len(existing_ids) // max_sources]. *)
Definition start_iteration (env : Env) (a : loop_args) (w : world) : Z :=
  len (existing_ids env a w) / max_sources a.

(** The field directory, where the segments of every region of a field
    go. *)
Definition field_dir (env : Env) (a : loop_args) : string :=
  script_dir env +:+ "/../features/field_" +:+ str (field a).

(** The suffix, if there is one, has no slash in it. *)
Definition plain_suffix (a : loop_args) : Prop :=
  match suffix a with
  | Some sfx => has_slash sfx = false
  | None => True
  end.

(** Every csv file outside [paths] is the same in both worlds. *)
Definition csv_frame (paths : string -> Prop) (w w' : world) : Prop :=
  forall p, ~ paths p -> csv w' !! p = csv w !! p.

(** The key a configured feature has in the two dictionaries when the
    period suffix [sfx] is in force. *)
Definition final_name (sfx : string) (kf : string * feature) : string :=
  if bool_decide (periodic kf.2 = Some true) then suffixed kf.1 sfx else kf.1.

(** The token the environment gives for a host, if any. *)
Definition token_env_of (env_vars : environ) (name : string) : option string :=
  if bool_decide (name = "kowalski") then KOWALSKI_INSTANCE_TOKEN env_vars
  else if bool_decide (name = "gloria") then GLORIA_INSTANCE_TOKEN env_vars
  else if bool_decide (name = "melman") then MELMAN_INSTANCE_TOKEN env_vars
  else None.

(** A host entry after the environment has had its say. *)
Definition overridden (env_vars : environ)
    (h : string * option (option string)) : string * option (option string) :=
  match token_env_of env_vars h.1 with
  | Some t => (h.1, Some (Some t))
  | None => h
  end.

(** A computation of [run] keeps a relation between the world of the loop
    before and after, whatever its outcome. *)
Definition rpres {A} (P : world -> world -> Prop) (m : R A) : Prop :=
  forall rw r rw', m rw = (r, rw') -> P (loop_world rw) (loop_world rw').

(** The token a host ends up with: the one of the environment if there is
    one, else the configured one ([None] when that is null or missing). *)
Definition effective_token (env_vars : environ)
    (h : string * option (option string)) : option string :=
  match token_env_of env_vars h.1 with
  | Some t => Some t
  | None => mjoin h.2
  end.

(** The instance of a host with the token [t]. *)
Definition instance_of (cfg : config) (name t : string) : string * instance :=
  (name, Instance (protocol cfg) (port cfg) (name +:+ ".caltech.edu") t).

(** The identifiers [run] reads for a region: the array of the file given
    with [source_ids_filename], or of the default file of the region. *)
Definition region_ids (renv : RunEnv) (kw : kwargs) (item : region * string)
    : list Z :=
  default [] (read_h5 renv (py_join (script_dir (env_of renv))
                                    (default item.2 (kw_source_ids_filename kw)))).

(** [source_ids[start:end]] for a region. *)
Definition region_source_ids (renv : RunEnv) (kw : kwargs)
    (item : region * string) : list Z :=
  py_slice_opt (region_ids renv kw item) (kw_start kw) (kw_end kw).

(** The regions of a ccd range and a quadrant range, ccd by ccd. *)
Definition regions_of (field : Z) (ccds quads : list Z)
    : list (region * string) :=
  ccd ← ccds;
  (fun quad => (CcdQuad ccd quad, region_file field (CcdQuad ccd quad))) <$> quads.

(* ===================================================================== *)
(** ** Further scenarios *)
(* ===================================================================== *)

Module Cases.

Import Scenario.

(** The value of an outcome that is a return. *)
Definition value_of {A} (d : A) (r : result A) : A :=
  match r with
  | Ok a => a
  | _ => d
  end.

(** The one instance reports success and sends no data. *)
Definition env_no_data : Env :=
  mk_env (fun _ => [("kowalski", Resp (Some "success") None)]).

(** The one instance reports success without data for a page that holds
    the identifier 3. *)
Definition env_no_data_for_3 : Env :=
  mk_env (fun q =>
    if bool_decide (3 ∈ filter_in q)
    then [("kowalski", Resp (Some "success") None)]
    else success (rows_of (filter_in q))).

(** The one instance reports an error for every page. *)
Definition env_all_error : Env :=
  mk_env (fun _ => [("kowalski", Resp (Some "error") None)]).

(** The locals and the world after the first page of identifiers 1 and 2
    in pages of one; for the second page the service reports an error. *)
Definition first_page : result fetch_state * world :=
  fetch_page env_error_on_2 two_ids_pages_of_one 0 fetch_init empty_world.

(** Answers of three instances: an error, a success, an empty dict. *)
Definition gloria_error : list (string * response) :=
  [("gloria", Resp (Some "error") None)].

Definition melman_empty : list (string * response) := [("melman", RespEmpty)].

Definition two_ids_pages_of_zero : fetch_args := fetch_of [1; 2] 0.

Definition two_ids_negative_pages : fetch_args := fetch_of [1; 2] (-1).

(** The loop of [get_features] on identifiers 1 and 2 in pages of one,
    when the record of 2 has no dmdt. *)
Definition loop_end : result fetch_state * world :=
  fetch_loop env_no_dmdt_for_2 5 two_ids_pages_of_one 0 fetch_init empty_world.

(** The records the full catalog holds for a query. *)
Definition full_rows (q : query) : list row := rows_of (filter_in q).

Definition five_ids_fetch : result (DataFrame * ndarray) * world :=
  get_features env_full 6 five_ids_pages_of_two empty_world.

(** Three identifiers in chunks of two, with and without [save], with
    [write_csv]. *)
Definition three_ids_unsaved : loop_args :=
  LoopArgs (fetch_of [1; 2; 3] 10) true 291 1 1 2 true true None false.

Definition three_ids_with_csv : loop_args :=
  LoopArgs (fetch_of [1; 2; 3] 10) true 291 1 1 2 true true None true.

(** Another region of field 291, resumed. *)
Definition ccd_2_quad_3 : loop_args :=
  LoopArgs (fetch_of [7; 8; 9] 10) false 291 2 3 2 false false None true.

(** Configurations of two features. *)
Definition two_features : list (string * feature) :=
  [("period", Feature (Some "float32") (Some true));
   ("n", Feature (Some "uint16") (Some false))].

Definition config_of (fs : list (string * feature)) (sfx : option string)
    (hs : list (string * option (option string))) : config :=
  Config fs sfx hs "https" 443 300 "ZTF_source_features_DR5".

Definition config_plain : config := config_of two_features (Some "None") [].

Definition config_suffixed : config :=
  config_of two_features (Some "ELS_ECE_EAOV") [].

Definition config_without_dtype : config :=
  config_of [("period", Feature None (Some true))] None [].

(** Hosts: a configured token, a null token; the environment gives a token
    for melman. *)
Definition three_hosts : list (string * option (option string)) :=
  [("kowalski", Some (Some "abc")); ("gloria", Some None);
   ("melman", Some None)].

Definition config_three_hosts : config := config_of [] None three_hosts.

Definition melman_from_env : environ := Environ None None (Some "xyz").

Definition config_one_host : config :=
  config_of [] None [("kowalski", Some (Some "abc"))].

Definition gloria_from_env : environ := Environ None (Some "xyz") None.

(** Keyword arguments of [run]. *)
Definition kwargs_of (ccd_range quad_range : option range_arg)
    (restart write_results : option bool) : kwargs :=
  Kwargs (Some 291) ccd_range quad_range (Some 2) (Some 2) None None None None
         restart write_results None None None None None None None None.

Definition one_bound : kwargs :=
  kwargs_of (Some (ListArg [5])) None None None.

Definition unwritten : kwargs :=
  kwargs_of (Some (IntArg 1)) (Some (ListArg [1; 2])) None (Some false).

Definition restarted : kwargs :=
  kwargs_of (Some (IntArg 1)) (Some (ListArg [1; 2])) (Some true) None.

(** Every h5 file holds the identifiers 1, 2 and 3. *)
Definition renv_full : RunEnv :=
  {| env_of := env_full;
     read_h5 := fun _ => Some [1; 2; 3];
     default_catalog := "ZTF_source_features_DR5" |}.

Definition empty_run_world : run_world := RunWorld empty_world [].

Definition ccd_1_quads_1_2 : list (region * string) :=
  [(CcdQuad 1 1, "../ids/field_291/data_ccd_01_quad_1.h5");
   (CcdQuad 1 2, "../ids/field_291/data_ccd_01_quad_2.h5")].

End Cases.

(* ===================================================================== *)
(** ** Lists, slices and arithmetic *)
(* ===================================================================== *)

Lemma py_slice_nonneg {A} (l : list A) (a b : Z) :
  0 <= a -> 0 <= b ->
  py_slice l a b = take (Z.to_nat (b - a)) (drop (Z.to_nat a) l).
Proof.
  intros Ha Hb. unfold py_slice, slice_index, len.
  destruct (Z.ltb_spec a 0), (Z.ltb_spec b 0); try lia.
  destruct (Z.le_gt_cases a (Z.of_nat (length l))) as [Hal | Hal].
  - rewrite (Z.min_l a) by lia.
    destruct (Z.le_gt_cases b (Z.of_nat (length l))) as [Hbl | Hbl].
    + by rewrite (Z.min_l b) by lia.
    + rewrite (Z.min_r b) by lia.
      rewrite !take_ge; [done | |]; rewrite length_drop; lia.
  - rewrite (Z.min_r a) by lia.
    replace (Z.to_nat (Z.min b (Z.of_nat (length l)) - Z.of_nat (length l)))
      with 0%nat by lia.
    rewrite (drop_ge l (Z.to_nat a)) by lia. by rewrite take_nil.
Qed.

(** The run of [c] entries from position [i * c], written with a clamped
    upper bound or without. *)
Lemma py_slice_chunk {A} (l : list A) (i c u : Z) :
  1 <= c -> 0 <= i ->
  u = (i + 1) * c \/ u = Z.min (len l) ((i + 1) * c) ->
  py_slice l (i * c) u = take (Z.to_nat c) (drop (Z.to_nat (i * c)) l).
Proof.
  intros Hc Hi Hu. unfold len in Hu. rewrite py_slice_nonneg by lia.
  destruct Hu as [-> | ->]; [f_equal; lia|].
  destruct (Z.le_gt_cases ((i + 1) * c) (Z.of_nat (length l))).
  - rewrite Z.min_r by lia. f_equal. lia.
  - rewrite Z.min_l by lia. rewrite !take_ge; [done | |]; rewrite length_drop; lia.
Qed.

Lemma chunk_length {A} (l : list A) (i c : Z) :
  1 <= c -> 0 <= i ->
  len (take (Z.to_nat c) (drop (Z.to_nat (i * c)) l))
    = Z.max 0 (Z.min c (len l - i * c)).
Proof.
  intros Hc Hi. unfold len. rewrite length_take, length_drop. lia.
Qed.

Lemma chunks_concat {A} (c n : nat) (l : list A) :
  (0 < c)%nat -> (length l <= n * c)%nat ->
  concat ((fun k => take c (drop (k * c) l)) <$> seq 0 n) = l.
Proof.
  intros Hc. revert l. induction n as [|n IH]; intros l Hl.
  - destruct l; [done | simpl in Hl; lia].
  - simpl seq. rewrite fmap_cons. simpl concat. rewrite drop_0.
    rewrite <- fmap_S_seq, <- list_fmap_compose.
    transitivity (take c l ++ drop c l); [| apply take_drop].
    f_equal. rewrite <- (IH (drop c l)) by (rewrite length_drop; lia).
    f_equal. apply list_fmap_ext. intros _ k _. simpl.
    rewrite drop_drop. do 2 f_equal; lia.
Qed.

Lemma py_range_0 (n : Z) : py_range 0 n = Z.of_nat <$> seq 0 (Z.to_nat n).
Proof.
  unfold py_range. rewrite Z.sub_0_r. apply list_fmap_ext. intros; lia.
Qed.

Lemma py_range_cons (a b : Z) : a < b -> py_range a b = a :: py_range (a + 1) b.
Proof.
  intros Hab. unfold py_range.
  replace (Z.to_nat (b - a)) with (S (Z.to_nat (b - (a + 1)))) by lia.
  simpl seq. rewrite fmap_cons. f_equal; [lia|].
  rewrite <- fmap_S_seq, <- list_fmap_compose.
  apply list_fmap_ext. intros; simpl; lia.
Qed.

Lemma py_range_nil (a b : Z) : b <= a -> py_range a b = [].
Proof.
  intros Hab. unfold py_range. by replace (Z.to_nat (b - a)) with 0%nat by lia.
Qed.

Lemma py_range_snoc (a b : Z) : a <= b -> py_range a (b + 1) = py_range a b ++ [b].
Proof.
  intros Hab. unfold py_range.
  replace (Z.to_nat (b + 1 - a)) with (Z.to_nat (b - a) + 1)%nat by lia.
  rewrite seq_app, fmap_app. simpl. do 2 f_equal. lia.
Qed.

Lemma elem_of_py_range (a b i : Z) : i ∈ py_range a b <-> a <= i < b.
Proof.
  unfold py_range. rewrite list_elem_of_fmap. split.
  - intros (k & -> & Hk). apply elem_of_seq in Hk. lia.
  - intros Hi. exists (Z.to_nat (i - a)). split; [lia|].
    apply elem_of_seq. lia.
Qed.

Lemma ceil_div_bounds (n c : Z) :
  1 <= c -> 0 <= n ->
  n <= ceil_div n c * c /\ (ceil_div n c - 1) * c < n + (if n =? 0 then 1 else 0)
  /\ 0 <= ceil_div n c.
Proof.
  intros Hc Hn. unfold ceil_div.
  pose proof (Z.div_mod (n + c - 1) c ltac:(lia)) as Hdm.
  pose proof (Z.mod_pos_bound (n + c - 1) c ltac:(lia)) as Hm.
  destruct (Z.eqb_spec n 0); nia.
Qed.

(* ===================================================================== *)
(** ** The monad: what a computation keeps *)
(* ===================================================================== *)

Lemma bind_unfold {A B} (m : M A) (k : A -> M B) (w : world) :
  bind m k w = match m w with
               | (Ok a, w') => k a w'
               | (Raise e, w') => (Raise e, w')
               | (OutOfFuel, w') => (OutOfFuel, w')
               end.
Proof. reflexivity. Qed.

Lemma bind_Ok {A B} (m : M A) (k : A -> M B) (w w' : world) (b : B) :
  bind m k w = (Ok b, w') ->
  exists a w1, m w = (Ok a, w1) /\ k a w1 = (Ok b, w').
Proof.
  rewrite bind_unfold. destruct (m w) as [[a | e |] w1]; [eauto | done | done].
Qed.

#[global] Instance same_files_preorder : PreOrder same_files.
Proof.
  split.
  - by intros w.
  - intros w1 w2 w3 [H1 H2] [H3 H4]. split; congruence.
Qed.

#[global] Instance same_queries_preorder : PreOrder same_queries.
Proof.
  split; [by intros w | intros w1 w2 w3; unfold same_queries; congruence].
Qed.

#[global] Instance same_written_preorder : PreOrder same_written.
Proof.
  split; [by intros w | intros w1 w2 w3; unfold same_written; congruence].
Qed.

Section Pres.

Context (P : world -> world -> Prop) `{!PreOrder P}.

Lemma pres_ret {A} (a : A) : pres P (ret a).
Proof. intros w r w' [= <- <-]. reflexivity. Qed.

Lemma pres_raise {A} (e : exn) : pres P (@raise A e).
Proof. intros w r w' [= <- <-]. reflexivity. Qed.

Lemma pres_out_of_fuel {A} : pres P (@out_of_fuel A).
Proof. intros w r w' [= <- <-]. reflexivity. Qed.

Lemma pres_lift {A} (c : checked A) : pres P (lift c).
Proof. intros w r w'. destruct c; intros [= <- <-]; reflexivity. Qed.

Lemma pres_get_world : pres P get_world.
Proof. intros w r w' [= <- <-]. reflexivity. Qed.

Lemma pres_bind {A B} (m : M A) (k : A -> M B) :
  pres P m -> (forall a, pres P (k a)) -> pres P (bind m k).
Proof.
  intros Hm Hk w r w'. rewrite bind_unfold.
  destruct (m w) as [[a | e |] w1] eqn:E; specialize (Hm _ _ _ E).
  - intros Hka. etransitivity; [exact Hm | exact (Hk _ _ _ _ Hka)].
  - by intros [= <- <-].
  - by intros [= <- <-].
Qed.

Lemma pres_when (b : bool) (m : M unit) : pres P m -> pres P (when b m).
Proof. destruct b; [done | intros _; apply pres_ret]. Qed.

Lemma pres_for_each {S} (l : list Z) (body : Z -> S -> M S) (s : S) :
  (forall i s, pres P (body i s)) -> pres P (for_each l body s).
Proof.
  intros Hb. revert s. induction l as [|i l IH]; intros s; simpl.
  - apply pres_ret.
  - apply pres_bind; [apply Hb | apply IH].
Qed.

Lemma pres_scan_responses responses sd :
  (forall m, pres P (print m)) -> pres P (scan_responses responses sd).
Proof.
  intros Hp. revert sd.
  induction responses as [|[name [|status data]] rest IH]; intros sd; simpl.
  - apply pres_ret.
  - apply IH.
  - destruct (is_success status); [| apply IH].
    destruct data; [apply IH |].
    apply pres_bind; [apply Hp | intros; apply pres_raise].
Qed.

End Pres.

Lemma same_files_emit (e : event) : pres same_files (emit e).
Proof. by intros w r w' [= <- <-]. Qed.

Lemma same_files_print (m : message) : pres same_files (print m).
Proof. apply same_files_emit. Qed.

Lemma queried_app (t1 t2 : list event) : queried (t1 ++ t2) = queried t1 ++ queried t2.
Proof. apply omap_app. Qed.

Lemma written_app (t1 t2 : list event) : written (t1 ++ t2) = written t1 ++ written t2.
Proof. apply omap_app. Qed.

Lemma same_queries_print (m : message) : pres same_queries (print m).
Proof.
  intros w r w' [= <- <-]. unfold same_queries. simpl.
  rewrite queried_app. simpl. apply app_nil_r.
Qed.

Lemma same_written_print (m : message) : pres same_written (print m).
Proof.
  intros w r w' [= <- <-]. unfold same_written. simpl.
  rewrite written_app. simpl. apply app_nil_r.
Qed.

Lemma same_written_query (q : query) : pres same_written (emit (EvQuery q)).
Proof.
  intros w r w' [= <- <-]. unfold same_written. simpl.
  rewrite written_app. simpl. apply app_nil_r.
Qed.

(** *** Fuel *)

Lemma finishes_ret {A} (a : A) : finishes (ret a).
Proof. by intros w. Qed.

Lemma finishes_raise {A} (e : exn) : finishes (@raise A e).
Proof. by intros w. Qed.

Lemma finishes_lift {A} (c : checked A) : finishes (lift c).
Proof. intros w. by destruct c. Qed.

Lemma finishes_emit (e : event) : finishes (emit e).
Proof. by intros w. Qed.

Lemma finishes_bind {A B} (m : M A) (k : A -> M B) :
  finishes m -> (forall a, finishes (k a)) -> finishes (bind m k).
Proof.
  intros Hm Hk w. rewrite bind_unfold. specialize (Hm w).
  destruct (m w) as [[a | e |] w1]; [apply Hk | done | done].
Qed.

Lemma finishes_when (b : bool) (m : M unit) : finishes m -> finishes (when b m).
Proof. destruct b; [done | intros _; apply finishes_ret]. Qed.

Lemma finishes_scan_responses responses sd : finishes (scan_responses responses sd).
Proof.
  revert sd.
  induction responses as [|[name [|status data]] rest IH]; intros sd; simpl.
  - apply finishes_ret.
  - apply IH.
  - destruct (is_success status); [| apply IH].
    destruct data; [apply IH |].
    apply finishes_bind; [apply finishes_emit | intros; apply finishes_raise].
Qed.

Create HintDb pres.
Create HintDb finishes.

#[global] Hint Resolve pres_ret pres_raise pres_out_of_fuel pres_lift
  pres_get_world pres_bind pres_when pres_for_each pres_scan_responses
  same_files_emit same_files_print same_queries_print same_written_print
  same_written_query : pres.

#[global] Hint Resolve finishes_ret finishes_raise finishes_lift finishes_emit
  finishes_bind finishes_when finishes_scan_responses : finishes.

(** Breaks a goal [pres P m] or [finishes m] down along the structure of [m]. *)
Ltac pres_tac :=
  repeat first
    [ match goal with |- PreOrder _ => apply _ end
    | solve [eauto with pres typeclass_instances]
    | apply pres_bind
    | lazymatch goal with |- pres _ _ => fail | |- _ => intro end
    | match goal with
      | |- pres _ (match ?x with _ => _ end) => destruct x
      | |- pres _ (if ?b then _ else _) => destruct b
      end ].

Ltac finishes_tac :=
  repeat first
    [ solve [eauto with finishes]
    | apply finishes_bind
    | lazymatch goal with |- finishes _ => fail | |- _ => intro end
    | match goal with
      | |- finishes (match ?x with _ => _ end) => destruct x
      | |- finishes (if ?b then _ else _) => destruct b
      end ].

(* ===================================================================== *)
(** ** get_features: files, fuel and pages *)
(* ===================================================================== *)

Section FetchFacts.

Context (env : Env).

Lemma fetch_page_pres P `{!PreOrder P} a id s :
  (forall m, pres P (print m)) ->
  pres P (emit (EvQuery (Query (features_catalog a) (page a id) (projection a)))) ->
  pres P (fetch_page env a id s).
Proof. intros Hp Hq. unfold fetch_page. pres_tac. Qed.

Lemma fetch_page_finishes a id s : finishes (fetch_page env a id s).
Proof. unfold fetch_page. finishes_tac. Qed.

Lemma fetch_loop_pres P `{!PreOrder P} fuel a id s :
  (forall m, pres P (print m)) ->
  (forall q, pres P (emit (EvQuery q))) ->
  pres P (fetch_loop env fuel a id s).
Proof.
  intros Hp Hq. revert id s. induction fuel as [|fuel IH]; intros id s; simpl.
  - pres_tac.
  - apply pres_bind; [apply _ | by apply fetch_page_pres |]. intros s'.
    destruct (_ >=? _); pres_tac.
Qed.

Lemma get_features_pres P `{!PreOrder P} fuel a :
  (forall m, pres P (print m)) ->
  (forall q, pres P (emit (EvQuery q))) ->
  pres P (get_features env fuel a).
Proof.
  intros Hp Hq. unfold get_features.
  apply pres_bind; [apply _ | by apply fetch_loop_pres |]. pres_tac.
Qed.

(** A call of [get_features] leaves the files alone. *)
Lemma get_features_files fuel a : pres same_files (get_features env fuel a).
Proof.
  apply get_features_pres; [apply _ | apply same_files_print |].
  intros q. apply same_files_emit.
Qed.

(** A call of [get_features] writes no segment. *)
Lemma get_features_written fuel a : pres same_written (get_features env fuel a).
Proof.
  apply get_features_pres;
    [apply _ | apply same_written_print | apply same_written_query].
Qed.

(** One pass through the loop body sends exactly one query, for the page
    of its index, whatever comes of it. *)
Lemma fetch_page_queries a id s w r w' :
  fetch_page env a id s w = (r, w') ->
  queried (trace w') = queried (trace w) ++ [page a id].
Proof.
  unfold fetch_page. rewrite bind_unfold. simpl.
  match goal with
  | |- ?m ?w1 = _ -> _ => assert (Hrest : pres same_queries m) by pres_tac
  end.
  intros H. apply Hrest in H. unfold same_queries in H. rewrite H. simpl.
  by rewrite queried_app.
Qed.

End FetchFacts.

(* ===================================================================== *)
(** ** The pages of get_features *)
(* ===================================================================== *)

Section Paging.

Context (env : Env) (a : fetch_args).
Hypothesis Hlimit : 1 <= limit_per_query a.

Lemma page_take_drop (k : Z) :
  0 <= k ->
  page a k = take (Z.to_nat (limit_per_query a))
                  (drop (Z.to_nat (k * limit_per_query a)) (source_ids a)).
Proof.
  intros Hk. unfold page. apply py_slice_chunk; [done | done | by left].
Qed.

Lemma n_pages_bounds :
  1 <= n_pages a /\
  len (source_ids a) <= n_pages a * limit_per_query a /\
  (n_pages a - 1) * limit_per_query a < len (source_ids a) \/
  (len (source_ids a) = 0 /\ n_pages a = 1).
Proof.
  unfold n_pages.
  pose proof (ceil_div_bounds (len (source_ids a)) (limit_per_query a) Hlimit
                ltac:(unfold len; lia)) as (H1 & H2 & H3).
  destruct (Z.eqb_spec (len (source_ids a)) 0) as [E | E].
  - right. split; [done|]. rewrite E. unfold ceil_div.
    rewrite Z.div_small by lia. lia.
  - left. assert (1 <= ceil_div (len (source_ids a)) (limit_per_query a)).
    { unfold len in *. nia. }
    rewrite Z.max_r by lia. lia.
Qed.

Lemma pages_concat : concat (page a <$> py_range 0 (n_pages a)) = source_ids a.
Proof.
  rewrite py_range_0, <- list_fmap_compose.
  etransitivity;
    [| apply (chunks_concat (Z.to_nat (limit_per_query a))
                            (Z.to_nat (n_pages a)) (source_ids a))].
  - f_equal. apply list_fmap_ext. intros _ k _. simpl.
    rewrite page_take_drop by lia. do 2 f_equal. lia.
  - lia.
  - pose proof n_pages_bounds as Hb. unfold len in Hb. nia.
Qed.

(** The loop breaks at the last page and at no page before it. *)
Lemma break_at_last_page (k : Z) :
  0 <= k < n_pages a ->
  ((k + 1) * limit_per_query a >=? len (source_ids a)) = true <->
  k + 1 = n_pages a.
Proof.
  intros Hk. pose proof n_pages_bounds as Hb.
  rewrite Z.geb_le. unfold len in *. split; intros H; nia.
Qed.

(** From page [k] on, the loop sends the pages [k], [k+1], ... in order
    and stops at the last one at the latest; it stops before only when the
    pass for the page it sent last raises, or the fuel is used up. *)
Lemma fetch_loop_queries fuel (k : Z) s w r w' :
  0 <= k < n_pages a ->
  fetch_loop env fuel a k s w = (r, w') ->
  exists m, k <= m <= n_pages a /\
    queried (trace w') = queried (trace w) ++ (page a <$> py_range k m) /\
    (fuel <> 0%nat -> k < m) /\
    (forall s', r = Ok s' -> m = n_pages a) /\
    (n_pages a - k <= Z.of_nat fuel -> r <> OutOfFuel) /\
    (m < n_pages a ->
     r = OutOfFuel \/
     exists e s1 w1, r = Raise e /\ fetch_page env a (m - 1) s1 w1 = (Raise e, w')).
Proof.
  revert k s w. induction fuel as [|fuel IH]; intros k s w Hk; simpl.
  - intros [= <- <-]. exists k. rewrite py_range_nil by lia. simpl.
    rewrite app_nil_r. repeat split; [lia | lia | done | done | lia | by left].
  - rewrite bind_unfold.
    destruct (fetch_page env a k s w) as [r1 w1] eqn:Hpage.
    pose proof (fetch_page_queries _ _ _ _ _ _ _ Hpage) as Hq.
    pose proof (fetch_page_finishes env a k s w) as Hfin.
    rewrite Hpage in Hfin. simpl in Hfin.
    assert (Hone : page a <$> py_range k (k + 1) = [page a k]).
    { rewrite py_range_cons, py_range_nil by lia. done. }
    destruct r1 as [s1 | e |]; [| | done].
    + destruct (_ >=? _) eqn:Hbreak.
      * apply break_at_last_page in Hbreak; [| done].
        rewrite bind_unfold. simpl. intros [= <- <-].
        exists (k + 1). simpl. rewrite queried_app, app_nil_r, Hq, Hone.
        repeat split; [lia | lia | lia | intros; lia | done | lia].
      * assert (Hnext : 0 <= k + 1 < n_pages a).
        { split; [lia|]. destruct (Z.eq_dec (k + 1) (n_pages a)) as [E|E]; [|lia].
          apply break_at_last_page in E; [congruence | done]. }
        rewrite bind_unfold. unfold py_mod.
        destruct (Z.eqb_spec (limit_per_query a) 0) as [E0 | _]; [lia|]. simpl.
        rewrite bind_unfold.
        destruct (when _ _ w1) as [r2 w2] eqn:Hwhen.
        assert (Hw2 : same_queries w1 w2).
        { eapply (pres_when same_queries); [| exact Hwhen].
          apply same_queries_print. }
        assert (r2 = Ok tt) as ->.
        { revert Hwhen. destruct (_ =? 0); by intros [= <- _]. }
        intros Hloop. apply IH in Hloop; [| done].
        destruct Hloop as (m & Hm & Hqm & Hlt & Hok & Hfuel & Hstop).
        exists m. rewrite Hqm, Hw2, Hq, (py_range_cons k m) by lia.
        rewrite fmap_cons, <- app_assoc. simpl.
        repeat split; [lia | lia | lia | done | intros; apply Hfuel; lia | done].
    + intros [= <- <-]. exists (k + 1). rewrite Hq, Hone.
      repeat split; [lia | lia | lia | done | done |].
      intros _. right. exists e, s, w.
      replace (k + 1 - 1) with k by lia. done.
Qed.

End Paging.

(** C3.  With a page size of at least one, the pages of [get_features] cut
    the identifier list into consecutive runs: page [k] is the run of
    positions [k * limit_per_query] up to [(k + 1) * limit_per_query], the
    pages laid end to end give back the list, so every position of the list
    is in exactly one page and no two pages overlap.  A call, given fuel
    for one pass per identifier and one more, does not run out of it and
    sends exactly these pages, in order, one query each: all of them when
    it returns, and all of them also when it raises, unless what it raises
    is the exception of the pass for the page it sent last. *)
Theorem paging_covers_each_identifier_once
    (env : Env) (a : fetch_args) (fuel : nat) (w : world) :
  1 <= limit_per_query a ->
  (length (source_ids a) < fuel)%nat ->
  concat (page a <$> py_range 0 (n_pages a)) = source_ids a /\
  (forall k, 0 <= k ->
     page a k = take (Z.to_nat (limit_per_query a))
                     (drop (Z.to_nat (k * limit_per_query a)) (source_ids a))) /\
  (get_features env fuel a w).1 <> OutOfFuel /\
  exists m, 1 <= m <= n_pages a /\
    queried (trace (get_features env fuel a w).2)
      = queried (trace w) ++ (page a <$> py_range 0 m) /\
    (forall v, (get_features env fuel a w).1 = Ok v -> m = n_pages a) /\
    (m < n_pages a ->
     exists e s1 w1,
       (get_features env fuel a w).1 = Raise e /\
       fetch_page env a (m - 1) s1 w1
         = (Raise e, (get_features env fuel a w).2)).
Proof.
  intros Hlimit Hfuel.
  pose proof (n_pages_bounds a Hlimit) as Hb.
  split; [by apply pages_concat|].
  split; [intros k Hk; by apply page_take_drop|].
  unfold get_features. rewrite bind_unfold.
  destruct (fetch_loop env fuel a 0 fetch_init w) as [r1 w1] eqn:Hloop.
  apply (fetch_loop_queries env a Hlimit) in Hloop; [| lia].
  destruct Hloop as (m & Hm & Hq & Hlt & Hok & Hnf & Hstop).
  assert (Hr1 : r1 <> OutOfFuel).
  { apply Hnf. unfold len in Hb. nia. }
  assert (Hm1 : 1 <= m) by (assert (0 < m) by (apply Hlt; lia); lia).
  destruct r1 as [s1 | e |]; [| | done].
  - match goal with
    | |- context [bind ?x ?k w1] =>
        assert (Hrest : pres same_queries (bind x k)) by pres_tac;
        assert (Hfin : finishes (bind x k)) by finishes_tac;
        specialize (Hfin w1); destruct (bind x k w1) as [r2 w2] eqn:Hk
    end.
    apply Hrest in Hk. unfold same_queries in Hk. simpl in *.
    split; [done|]. exists m. rewrite Hk.
    repeat split; [lia | lia | done | |].
    + intros _ _. by eapply Hok.
    + intros Hlt'. specialize (Hok s1 eq_refl). lia.
  - simpl. split; [done|]. exists m.
    repeat split; [lia | lia | done | done |].
    intros Hlt'. destruct (Hstop Hlt') as [[=] | (e' & s1 & w0 & [= <-] & Hp)].
    by exists e, s1, w0.
Qed.

(* ===================================================================== *)
(** ** get_features: the table and the dmdt array *)
(* ===================================================================== *)

Section FetchResult.

Context (env : Env) (a : fetch_args).

(** What a pass that does not raise leaves in the locals.  When the
    extraction fails, [dmdt_temp] keeps the value it had. *)
Lemma fetch_page_Ok k s w s' w' :
  fetch_page env a k s w = (Ok s', w') ->
  exists data df_temp,
    (exists w0 w1,
       scan_responses
         (kowalski_query env
            (Query (features_catalog a) (page a k) (projection a)))
         (source_data s) w0 = (Ok (Some data), w1)) /\
    source_data s' = Some data /\
    (if wants_dmdt (projection a) then astype env data = Returns df_temp
     else df_temp = data) /\
    df_collection s' = df_collection s ++ [df_temp] /\
    dmdt_temp s' = match extract_dmdt df_temp with
                   | Returns arr => Arr arr
                   | Raises _ => dmdt_temp s
                   end /\
    dmdt_collection s' = dmdt_collection s ++ [dmdt_temp s'].
Proof.
  unfold fetch_page. intros H.
  apply bind_Ok in H as ([] & w1 & _ & H).
  apply bind_Ok in H as (sd & w2 & Hscan & H).
  apply bind_Ok in H as (data & w3 & Hdata & H).
  destruct sd as [d|]; [| done]. injection Hdata as -> ->.
  apply bind_Ok in H as (df_temp & w4 & Hcast & H).
  apply bind_Ok in H as (dt & w5 & Hdt & H).
  injection H as <- <-. simpl.
  exists data, df_temp. split; [eauto|]. split; [done|].
  split.
  { destruct (wants_dmdt (projection a)).
    - unfold lift in Hcast. destruct (astype env data); by inversion Hcast.
    - by injection Hcast as ->. }
  split; [done|]. split; [| done].
  destruct (extract_dmdt df_temp) as [arr | e].
  - by injection Hdt as <-.
  - apply bind_Ok in Hdt as ([] & w6 & _ & Hdt). by injection Hdt as <-.
Qed.

Lemma fetch_loop_passes fuel k s w s' w' :
  fetch_loop env fuel a k s w = (Ok s', w') -> passes env a k s s'.
Proof.
  revert k s w. induction fuel as [|fuel IH]; intros k s w; simpl; [done|].
  intros H. apply bind_Ok in H as (s1 & w1 & Hpage & H).
  destruct (Z.geb_spec ((k + 1) * limit_per_query a) (len (source_ids a)))
    as [Hbreak | Hmore].
  - apply bind_Ok in H as ([] & w2 & _ & H). injection H as <- <-.
    apply passes_break; [by exists w, w1 | lia].
  - apply bind_Ok in H as (r & w2 & _ & H).
    apply bind_Ok in H as ([] & w3 & _ & H).
    eapply passes_next; [by exists w, w1 | lia | by eapply IH].
Qed.

(** The loop appends one table and one dmdt entry per pass; the entry is
    the stacked dmdt column of the table when the extraction succeeds. *)
Lemma passes_collections k s s' :
  passes env a k s s' ->
  exists dfs dts,
    df_collection s' = df_collection s ++ dfs /\
    dmdt_collection s' = dmdt_collection s ++ dts /\
    Forall2 (fun df dt => forall arr, extract_dmdt df = Returns arr -> dt = Arr arr)
            dfs dts.
Proof.
  induction 1 as [k s s' (w & w' & Hp) _ | k s s1 s' (w & w' & Hp) _ _ IH].
  - apply fetch_page_Ok in Hp as (data & df & _ & _ & _ & Hdf & Hdt & Hdc).
    exists [df], [dmdt_temp s']. repeat split; [done | done |].
    constructor; [| constructor]. intros arr E. by rewrite Hdt, E.
  - apply fetch_page_Ok in Hp as (data & df & _ & _ & _ & Hdf & Hdt & Hdc).
    destruct IH as (dfs & dts & Hdfs & Hdts & Hall).
    exists (df :: dfs), (dmdt_temp s1 :: dts).
    rewrite Hdfs, Hdts, Hdf, Hdc, <- !app_assoc. repeat split; [].
    constructor; [| done]. intros arr E. by rewrite Hdt, E.
Qed.

End FetchResult.

(** *** Shapes *)

Lemma extract_dmdt_shape (df : DataFrame) (arr : ndarray) :
  extract_dmdt df = Returns arr ->
  exists s, shape arr = length df :: s ++ [1%nat].
Proof.
  unfold extract_dmdt, Np.array.
  destruct (forallb _ df) eqn:Hall; [done|].
  destruct (mapM id (dmdt <$> df)) as [[|h hs]|] eqn:Hm; [| | done].
  - apply length_mapM in Hm. rewrite length_fmap in Hm.
    destruct df; [done | done].
  - apply length_mapM in Hm. rewrite length_fmap in Hm.
    destruct (hist_shape h) as [s|]; [| done].
    destruct (forallb _ hs); [| done].
    intros [= <-]. exists s. simpl. by rewrite Hm.
Qed.

Lemma atleast_2d_extracted (df : DataFrame) (arr : ndarray) :
  extract_dmdt df = Returns arr ->
  atleast_2d (Arr arr) = arr /\ leading arr = length df.
Proof.
  intros (s & Hs)%extract_dmdt_shape. unfold atleast_2d, leading. rewrite Hs.
  split; [| done]. by destruct s.
Qed.

Lemma vstack_leading (objs : list dmdt_obj) (dm : ndarray) :
  vstack objs = Returns dm ->
  leading dm = sum_list (leading <$> (atleast_2d <$> objs)).
Proof.
  unfold vstack. destruct (atleast_2d <$> objs) as [|x rest]; [done|].
  destruct (forallb _ rest); [| done]. by intros [= <-].
Qed.

Lemma extracted_leading (dfs : list DataFrame) (dts : list dmdt_obj) :
  Forall2 (fun df dt => forall arr, extract_dmdt df = Returns arr -> dt = Arr arr)
          dfs dts ->
  (forall df, df ∈ dfs -> exists arr, extract_dmdt df = Returns arr) ->
  sum_list (leading <$> (atleast_2d <$> dts)) = length (concat dfs).
Proof.
  induction 1 as [|df dt dfs dts Hdt _ IH]; intros Hall; [done|].
  destruct (Hall df) as (arr & E); [by left|].
  pose proof (atleast_2d_extracted _ _ E) as [H2d Hlead].
  rewrite (Hdt _ E), !fmap_cons, H2d. simpl.
  rewrite length_app, Hlead. f_equal. apply IH.
  intros d Hd. apply Hall. by right.
Qed.

(** C8, as amended.  When the dmdt extraction succeeds on the table of
    every page, and imputation, where it is asked for, keeps the rows, the
    table a successful call returns has as many rows as the leading
    dimension of the dmdt array it returns. *)
Theorem rows_match_dmdt_when_extracted
    (env : Env) (fuel : nat) (a : fetch_args) (w w' : world)
    (df : DataFrame) (dm : ndarray) :
  (impute_missing_features a = true -> impute_keeps_rows env) ->
  dmdt_extracted_on_every_page env fuel a w ->
  get_features env fuel a w = (Ok (df, dm), w') ->
  length df = leading dm.
Proof.
  intros Himpute (s & w1 & Hloop & Hall). unfold get_features. intros H.
  apply bind_Ok in H as (s0 & w2 & Hloop' & H).
  rewrite Hloop in Hloop'. injection Hloop' as <- <-.
  apply bind_Ok in H as (dm0 & w3 & Hstack & H).
  apply bind_Ok in H as ([] & w4 & _ & H). injection H as Hdf -> _. subst df.
  assert (Hdm : vstack (dmdt_collection s) = Returns dm).
  { unfold lift in Hstack. destruct (vstack _); by inversion Hstack. }
  apply fetch_loop_passes, passes_collections in Hloop
    as (dfs & dts & Hdfs & Hdts & Hrel).
  simpl in Hdfs, Hdts.
  rewrite (vstack_leading _ _ Hdm), Hdts, (extracted_leading _ _ Hrel).
  - rewrite Hdfs. destruct (impute_missing_features a); [by apply Himpute | done].
  - intros d Hd. apply Hall. by rewrite Hdfs.
Qed.

(* ===================================================================== *)
(** ** Paths *)
(* ===================================================================== *)

Lemma app_String (c : ascii) (s t : string) :
  String c s +:+ t = String c (s +:+ t).
Proof. reflexivity. Qed.

Lemma app_empty_l (t : string) : "" +:+ t = t.
Proof. reflexivity. Qed.

Lemma string_length_app (s t : string) :
  String.length (s +:+ t) = (String.length s + String.length t)%nat.
Proof. induction s as [|c s IH]; [done|]. rewrite app_String. simpl. by rewrite IH. Qed.

Lemma string_app_inv_tail (s1 s2 t : string) : s1 +:+ t = s2 +:+ t -> s1 = s2.
Proof.
  revert s2. induction s1 as [|c s1 IH]; intros [|d s2] H.
  - done.
  - apply (f_equal String.length) in H.
    rewrite app_empty_l, string_length_app in H. simpl in H. lia.
  - apply (f_equal String.length) in H.
    rewrite app_empty_l, string_length_app in H. simpl in H. lia.
  - rewrite !app_String in H. injection H as -> H. f_equal. by apply IH.
Qed.

Lemma str_inj (i j : Z) : str i = str j -> i = j.
Proof.
  unfold str. intros H.
  apply (f_equal NilEmpty.int_of_string) in H. rewrite !NilEmpty.isi in H.
  injection H as H. apply (f_equal Z.of_int) in H.
  by rewrite !DecimalZ.of_to in H.
Qed.

Lemma has_slash_app (s t : string) :
  has_slash (s +:+ t) = has_slash s || has_slash t.
Proof.
  induction s as [|c s IH]; [done|].
  rewrite app_String. simpl. by rewrite IH, orb_assoc.
Qed.

Lemma has_slash_uint (d : Decimal.uint) :
  has_slash (NilEmpty.string_of_uint d) = false.
Proof. induction d; simpl; done. Qed.

Lemma has_slash_str (i : Z) : has_slash (str i) = false.
Proof.
  unfold str. destruct (Z.to_int i); simpl; apply has_slash_uint.
Qed.

Lemma head_of_no_slash (t : string) : has_slash t = false -> head_of t = "".
Proof.
  induction t as [|c t IH]; [done|]. simpl.
  intros [Hc Ht]%orb_false_elim. by rewrite Ht, Hc.
Qed.

Lemma head_of_app (s t : string) :
  has_slash t = false -> head_of (s +:+ t) = head_of s.
Proof.
  intros Ht. induction s as [|c s IH].
  - rewrite app_empty_l. by apply head_of_no_slash.
  - rewrite app_String. simpl. by rewrite has_slash_app, Ht, orb_false_r, IH.
Qed.

Lemma dirname_app (s t : string) :
  has_slash t = false -> dirname (s +:+ t) = dirname s.
Proof. intros Ht. unfold dirname. by rewrite head_of_app. Qed.

Section Paths.

Context (env : Env) (a : loop_args).

(** The segments of a run lie in the directory of its path prefix. *)
Lemma dirname_segment_path (i : Z) :
  dirname (segment_path env a i) = dirname (outfile env a).
Proof.
  unfold segment_path. apply dirname_app.
  by rewrite !has_slash_app, has_slash_str.
Qed.

(** Two iterations write to different paths. *)
Lemma segment_path_inj (i j : Z) :
  segment_path env a i = segment_path env a j -> i = j.
Proof.
  unfold segment_path. intros H.
  apply (inj (String.app _)) in H. apply (inj (String.app _)) in H.
  apply string_app_inv_tail in H. by apply str_inj.
Qed.

End Paths.

Lemma outfile_with_restart (env : Env) (a : loop_args) (b : bool) :
  outfile env (with_restart a b) = outfile env a.
Proof. reflexivity. Qed.

Lemma segment_path_with_restart (env : Env) (a : loop_args) (b : bool) (i : Z) :
  segment_path env (with_restart a b) i = segment_path env a i.
Proof. reflexivity. Qed.


(* ===================================================================== *)
(** ** The dataset of a directory *)
(* ===================================================================== *)

Lemma elem_of_concat {A} (x : A) (ls : list (list A)) :
  x ∈ concat ls <-> exists l, l ∈ ls /\ x ∈ l.
Proof.
  rewrite list_elem_of_In, in_concat. split.
  - intros (l & Hl & Hx). exists l. by rewrite !list_elem_of_In.
  - intros (l & Hl & Hx). exists l. by rewrite <- !list_elem_of_In.
Qed.

Lemma insert_path_Permutation (p : string) (l : list string) :
  insert_path p l ≡ₚ p :: l.
Proof.
  induction l as [|q l IH]; [done|]. simpl.
  destruct (String.leb p q); [done|]. rewrite IH. apply Permutation_swap.
Qed.

Lemma sorted_paths_Permutation (l : list string) : sorted_paths l ≡ₚ l.
Proof.
  induction l as [|p l IH]; [done|]. unfold sorted_paths in *. simpl.
  by rewrite insert_path_Permutation, IH.
Qed.

Lemma elem_of_paths_on_disk (w : world) (p : string) :
  p ∈ paths_on_disk w <-> is_Some (parquet w !! p) \/ is_Some (csv w !! p).
Proof.
  unfold paths_on_disk. rewrite elem_of_app, list_elem_of_filter.
  rewrite !list_elem_of_fmap. split.
  - intros [([q df] & -> & Hin) | [_ ([q df] & -> & Hin)]];
      apply elem_of_map_to_list in Hin; simpl; eauto.
  - intros [[df Hdf] | [df Hdf]].
    + left. exists (p, df). split; [done|]. by apply elem_of_map_to_list.
    + destruct (parquet w !! p) as [df'|] eqn:E.
      * left. exists (p, df'). split; [done|]. by apply elem_of_map_to_list.
      * right. split; [done|]. exists (p, df). split; [done|].
        by apply elem_of_map_to_list.
Qed.

Lemma elem_of_discovered (dir : string) (w : world) (p : string) :
  p ∈ discovered dir w <->
  discoverable dir p = true /\
  (is_Some (parquet w !! p) \/ is_Some (csv w !! p)).
Proof.
  unfold discovered. rewrite sorted_paths_Permutation, list_elem_of_filter.
  by rewrite elem_of_paths_on_disk.
Qed.

Lemma dataset_Returns (dir : string) (w : world) (files : list string) :
  dataset dir w = Returns files -> files = discovered dir w.
Proof.
  unfold dataset. destruct (discovered dir w) as [|p rest]; [by intros [= <-]|].
  destruct (read_table w p); [by intros [= <-] | done].
Qed.

Lemma dataset_exn (dir : string) (w : world) (e : exn) :
  dataset dir w = Raises e -> e = ArrowInvalid /\ discovered dir w <> [].
Proof.
  unfold dataset, read_table. destruct (discovered dir w) as [|p rest]; [done|].
  destruct (parquet w !! p); [done|]. by intros [= <-].
Qed.

Lemma to_batches_Returns (w : world) (files : list string) (ids : list Z) :
  to_batches w files = Returns ids ->
  ids = existing_ids_of w files /\
  forall p, p ∈ files -> is_Some (parquet w !! p).
Proof.
  revert ids. induction files as [|p files IH]; intros ids; simpl.
  - intros [= <-]. split; [done|]. intros p Hp. by apply elem_of_nil in Hp.
  - unfold read_table. destruct (parquet w !! p) as [df|] eqn:E; [| done].
    destruct (to_batches w files) as [ids'|]; [| done].
    intros [= <-]. destruct (IH ids' eq_refl) as [-> Hall]. split.
    + unfold existing_ids_of. simpl. by rewrite E.
    + intros q [-> | Hq]%elem_of_cons; [by rewrite E | by apply Hall].
Qed.

Lemma to_batches_exn (w : world) (files : list string) (e : exn) :
  to_batches w files = Raises e -> e = ArrowInvalid.
Proof.
  revert e. induction files as [|p files IH]; intros e; simpl; [done|].
  unfold read_table. destruct (parquet w !! p); [| by intros [= <-]].
  destruct (to_batches w files) as [ids|e']; [done|].
  intros [= <-]. by apply IH.
Qed.

Lemma to_batches_parquet (w : world) (files : list string) :
  (forall p, p ∈ files -> is_Some (parquet w !! p)) ->
  to_batches w files = Returns (existing_ids_of w files).
Proof.
  induction files as [|p files IH]; intros Hall; [done|]. simpl.
  destruct (Hall p) as [df Hdf]; [by left|].
  unfold read_table. rewrite Hdf, IH by (intros; apply Hall; by right).
  unfold existing_ids_of. simpl. by rewrite Hdf.
Qed.

Lemma to_batches_only_parquet (dir : string) (w : world) (ids : list Z) :
  to_batches w (discovered dir w) = Returns ids -> only_parquet dir w.
Proof. intros H p Hp. by apply (to_batches_Returns _ _ _ H). Qed.

Lemma dataset_parquet (dir : string) (w : world) :
  only_parquet dir w -> dataset dir w = Returns (discovered dir w).
Proof.
  unfold only_parquet, dataset, read_table. intros Hall.
  destruct (discovered dir w) as [|p rest]; [done|].
  destruct (Hall p) as [df ->]; [by left | done].
Qed.

Lemma elem_of_existing_ids (w : world) (files : list string) (p : string)
    (df : DataFrame) (x : Z) :
  p ∈ files -> parquet w !! p = Some df -> x ∈ _id <$> df ->
  x ∈ existing_ids_of w files.
Proof.
  intros Hf Hp Hx. unfold existing_ids_of. apply elem_of_concat.
  exists (_id <$> df). split; [| done].
  apply list_elem_of_fmap. exists p. by rewrite Hp.
Qed.

Lemma existing_ids_length (w : world) (files : list string) (p : string)
    (df : DataFrame) :
  p ∈ files -> parquet w !! p = Some df ->
  (length df <= length (existing_ids_of w files))%nat.
Proof.
  intros Hin Hp. apply list_elem_of_split in Hin as (l1 & l2 & ->).
  unfold existing_ids_of. rewrite fmap_app, fmap_cons, concat_app. simpl.
  rewrite Hp. simpl. rewrite !length_app, length_fmap. lia.
Qed.

(** *** Where the segments of a run are *)

Lemma strip_prefix_app (pre s : string) : strip_prefix pre (pre +:+ s) = Some s.
Proof.
  induction pre as [|c pre IH]; [by destruct s|].
  rewrite app_String. simpl. by rewrite Ascii.eqb_refl.
Qed.

Lemma ignored_from_plain (r : string) :
  has_slash r = false -> ignored_from false r = false.
Proof.
  induction r as [|c r IH]; [done|]. simpl.
  intros [Hc Hr]%orb_false_elim. by rewrite Hc, IH.
Qed.

(** A file of [dir] whose name has no slash and starts with neither [.]
    nor [_] is one the discovery finds. *)
Lemma discoverable_child (dir : string) (c : ascii) (name : string) :
  is_ignore_prefix c = false ->
  has_slash (String c name) = false ->
  discoverable dir (dir +:+ String "/" (String c name)) = true.
Proof.
  intros Hc Hs. unfold discoverable, below.
  replace (dir +:+ String "/" (String c name))
    with ((dir +:+ "/") +:+ String c name).
  2:{ clear. induction dir as [|d dir IH]; [done|].
      rewrite !app_String. by rewrite IH. }
  rewrite strip_prefix_app. simpl in *.
  apply orb_false_elim in Hs as [Hc' Hn].
  by rewrite Hc', Hc, ignored_from_plain.
Qed.

(** The list from [a] up to [b] cut in two: the second part starts at [a]
    plus the length of the first. *)
Lemma py_range_split (a b i : Z) (l1 l2 : list Z) :
  py_range a b = l1 ++ i :: l2 -> i = a + len l1 /\ a + len l1 < b.
Proof.
  intros H.
  assert (Hi : py_range a b !! length l1 = Some i).
  { rewrite H. by apply list_lookup_middle. }
  unfold py_range in Hi. rewrite list_lookup_fmap in Hi.
  destruct (seq 0 _ !! length l1) as [k|] eqn:E; [| done].
  apply lookup_seq in E as [-> Hlt]. injection Hi as <-.
  unfold len. lia.
Qed.


(* ===================================================================== *)
(** ** The output directory of a region *)
(* ===================================================================== *)

Lemma string_app_assoc (s t u : string) : (s +:+ t) +:+ u = s +:+ (t +:+ u).
Proof.
  induction s as [|c s IH]; [done|]. rewrite !app_String. by rewrite IH.
Qed.

Lemma all_slash_app (s t : string) :
  all_slash (s +:+ t) = all_slash s && all_slash t.
Proof.
  induction s as [|c s IH]; [done|].
  rewrite app_String. simpl. by rewrite IH, andb_assoc.
Qed.

Lemma all_slash_plain (t : string) :
  t <> "" -> has_slash t = false -> all_slash t = false.
Proof.
  destruct t as [|c t]; [done|]. simpl.
  intros _ [Hc _]%orb_false_elim. by rewrite Hc.
Qed.

Lemma str_nonempty (z : Z) : str z <> "".
Proof.
  unfold str. intros H.
  assert (z = 0) as ->.
  { apply (f_equal NilEmpty.int_of_string) in H. rewrite NilEmpty.isi in H.
    simpl in H. injection H as H.
    apply (f_equal Z.of_int) in H. by rewrite DecimalZ.of_to in H. }
  vm_compute in H. discriminate.
Qed.

Lemma head_of_slash_tail (d base : string) :
  has_slash base = false ->
  head_of (d +:+ String "/" base) = d +:+ "/".
Proof.
  intros Hb. induction d as [|c d IH].
  - rewrite !app_empty_l. simpl. by rewrite Hb.
  - rewrite !app_String. simpl.
    rewrite has_slash_app. simpl. by rewrite orb_true_r, IH.
Qed.

Lemma rstrip_slash_app (s u : string) :
  all_slash u = false -> rstrip_slash (s +:+ u) = s +:+ rstrip_slash u.
Proof.
  intros Hu. induction s as [|c s IH]; [done|].
  rewrite !app_String. simpl.
  by rewrite all_slash_app, Hu, andb_false_r, andb_false_r, IH.
Qed.

Lemma rstrip_slash_plain (t : string) :
  has_slash t = false -> rstrip_slash (t +:+ "/") = t.
Proof.
  induction t as [|c t IH]; [done|].
  rewrite app_String. simpl.
  intros [Hc Ht]%orb_false_elim. by rewrite Hc, IH.
Qed.

(** The directory of [x ++ t ++ "/" ++ base] is [x ++ t] when neither the
    non-empty [t] nor [base] has a slash. *)
Lemma dirname_split (x t base : string) :
  t <> "" -> has_slash t = false -> has_slash base = false ->
  dirname ((x +:+ t) +:+ String "/" base) = x +:+ t.
Proof.
  intros Ht0 Ht Hb. unfold dirname. rewrite head_of_slash_tail by done.
  assert (Hall : all_slash (t +:+ "/") = false).
  { by rewrite all_slash_app, (all_slash_plain t). }
  rewrite string_app_assoc, all_slash_app, Hall, andb_false_r.
  rewrite rstrip_slash_app by done. by rewrite rstrip_slash_plain.
Qed.

Lemma has_slash_zfill2 (z : Z) : has_slash (zfill2 (str z)) = false.
Proof.
  unfold zfill2. destruct (_ <? _)%nat; [| apply has_slash_str].
  rewrite has_slash_app. simpl. apply has_slash_str.
Qed.

Lemma outfile_split (env : Env) (a : loop_args) :
  plain_suffix a ->
  exists c name, is_ignore_prefix c = false /\
    has_slash (String c name) = false /\
    outfile env a
      = (script_dir env +:+ "/../features/field_" +:+ str (field a))
          +:+ String "/" (String c name).
Proof.
  unfold plain_suffix, outfile. intros Hs.
  destruct (whole_field a); simpl; destruct (suffix a) as [sfx|].
  - exists "f"%char, ("ield_" +:+ str (field a) +:+ "_" +:+ sfx).
    split; [done|]. split.
    + change (String "f" ?x) with ("f" +:+ x).
      rewrite !has_slash_app, has_slash_str, Hs. done.
    + rewrite !string_app_assoc. done.
  - exists "f"%char, ("ield_" +:+ str (field a)). split; [done|]. split.
    + change (String "f" ?x) with ("f" +:+ x).
      rewrite !has_slash_app, has_slash_str. done.
    + rewrite !string_app_assoc. done.
  - exists "c"%char, ("cd_" +:+ zfill2 (str (ccd a)) +:+ "_quad_" +:+ str (quad a)
              +:+ "_" +:+ sfx). split; [done|]. split.
    + change (String "c" ?x) with ("c" +:+ x).
      rewrite !has_slash_app, has_slash_zfill2, has_slash_str, Hs. done.
    + rewrite !string_app_assoc. done.
  - exists "c"%char, ("cd_" +:+ zfill2 (str (ccd a)) +:+ "_quad_" +:+ str (quad a)).
    split; [done|]. split.
    + change (String "c" ?x) with ("c" +:+ x).
      rewrite !has_slash_app, has_slash_zfill2, has_slash_str. done.
    + rewrite !string_app_assoc. done.
Qed.

Lemma dirname_outfile (env : Env) (a : loop_args) :
  plain_suffix a -> dirname (outfile env a) = field_dir env a.
Proof.
  intros Hs. destruct (outfile_split env a Hs) as (c & name & _ & Hb & ->).
  unfold field_dir. rewrite <- (string_app_assoc (script_dir env)).
  apply dirname_split; [apply str_nonempty | apply has_slash_str | done].
Qed.

(** With a suffix without a slash, the segments of a run are among the
    files the discovery finds below its output directory. *)
Lemma discoverable_segment (env : Env) (a : loop_args) (i : Z) :
  plain_suffix a ->
  discoverable (dirname (outfile env a)) (segment_path env a i) = true.
Proof.
  intros Hs. rewrite dirname_outfile by done. unfold segment_path.
  destruct (outfile_split env a Hs) as (c & name & Hc & Hb & ->).
  unfold field_dir.
  set (D := script_dir env +:+ "/../features/field_" +:+ str (field a)).
  set (tail := "_iter_" +:+ str i +:+ ".parquet").
  assert (E : (D +:+ String "/" (String c name)) +:+ tail
              = D +:+ String "/" (String c (name +:+ tail)))
    by (by rewrite string_app_assoc).
  rewrite E. apply discoverable_child; [done|].
  simpl in *. apply orb_false_elim in Hb as [Hc' Hn]. rewrite Hc'. simpl.
  unfold tail. rewrite !has_slash_app, Hn, has_slash_str. done.
Qed.

(* ===================================================================== *)
(** ** get_features_loop: the shape of a run *)
(* ===================================================================== *)

Lemma todo_empty (ids existing : list Z) :
  (len (todo_source_ids ids existing) =? 0) = true <->
  forall x, x ∈ ids -> x ∈ existing.
Proof.
  unfold todo_source_ids, len. rewrite Z.eqb_eq.
  rewrite <- Nat2Z.inj_0, Nat2Z.inj_iff, length_zero_iff_nil.
  rewrite elements_empty_iff. split.
  - intros H x Hx. destruct (decide (x ∈ existing)) as [|Hn]; [done|].
    exfalso. apply (not_elem_of_empty (C := gset Z) x). rewrite <- H.
    apply elem_of_difference. by rewrite !elem_of_list_to_set.
  - intros H. apply elem_of_equiv_empty. intros x [Hx Hn]%elem_of_difference.
    rewrite elem_of_list_to_set in Hx, Hn. by apply Hn, H.
Qed.

#[global] Instance frame_preorder (paths : string -> Prop) : PreOrder (frame paths).
Proof.
  split.
  - by intros w p _.
  - intros w1 w2 w3 H1 H2 p Hp. by rewrite H2, H1.
Qed.

Lemma same_files_frame (paths : string -> Prop) (w w' : world) :
  same_files w w' -> frame paths w w'.
Proof. intros [H _] p _. by rewrite H. Qed.

Lemma pres_weaken {A} (P Q : world -> world -> Prop) (m : M A) :
  (forall w w', P w w' -> Q w w') -> pres P m -> pres Q m.
Proof. intros HPQ Hm w r w' H. eapply HPQ, Hm, H. Qed.

Lemma bind_ret_r {A} (m : M A) (w : world) : bind m ret w = m w.
Proof. rewrite bind_unfold. by destruct (m w) as [[x | e |] w']. Qed.

Section LoopFacts.

Context (env : Env) (func : fetch_args -> M (DataFrame * ndarray))
        (a : loop_args).

Lemma resume_iff w :
  resume env a w = true <->
  restart a = false /\ discovered (dirname (outfile env a)) w <> [].
Proof.
  unfold resume, len. rewrite andb_true_iff, negb_true_iff, Z.ltb_lt.
  destruct (discovered _ w) as [|f fs]; simpl.
  - split; [lia | by intros [_ []]].
  - split; [by intros [? _] | intros [? _]; split; [done | lia]].
Qed.

(** What the "Set source_ids" block reads back, when it goes through. *)
Lemma read_back_Returns w ids :
  read_back env a w = Returns ids ->
  ids = existing_ids env a w /\
  (resume env a w = true -> only_parquet (dirname (outfile env a)) w).
Proof.
  unfold read_back, existing_ids, resume.
  destruct (dataset _ w) as [files|] eqn:Hd; [| done].
  apply dataset_Returns in Hd as ->.
  destruct (negb (restart a) && _); [| by intros [= <-]].
  intros [-> Hall]%to_batches_Returns. split; [done|]. by intros _.
Qed.

Lemma read_back_exn w e : read_back env a w = Raises e -> e = ArrowInvalid.
Proof.
  unfold read_back. destruct (dataset _ w) as [files|e'] eqn:Hd.
  - destruct (_ && _); [apply to_batches_exn | done].
  - intros [= <-]. by apply dataset_exn in Hd as [-> _].
Qed.

(** The block goes through when every file of the directory is a parquet
    file. *)
Lemma only_parquet_reads_back w :
  only_parquet (dirname (outfile env a)) w ->
  read_back env a w = Returns (existing_ids env a w).
Proof.
  intros Hall. unfold read_back, existing_ids, resume.
  rewrite dataset_parquet by done.
  destruct (negb (restart a) && _); [| done].
  by apply to_batches_parquet.
Qed.

(** It also goes through with restart on, when the first file of the
    directory is a parquet file; and on an empty directory. *)
Lemma restart_reads_back w files :
  restart a = true ->
  dataset (dirname (outfile env a)) w = Returns files ->
  read_back env a w = Returns [].
Proof. intros Hr Hd. unfold read_back. by rewrite Hd, Hr. Qed.

Lemma empty_reads_back w :
  discovered (dirname (outfile env a)) w = [] ->
  read_back env a w = Returns [].
Proof.
  intros Hd. unfold read_back, dataset. rewrite Hd. simpl.
  by rewrite andb_false_r.
Qed.

Lemma already_complete_iff w :
  already_complete env a w <->
  reads_back env a w /\
  resume env a w &&
    (len (todo_source_ids (source_ids (fetch a)) (existing_ids env a w)) =? 0)
    = true.
Proof.
  unfold already_complete, reads_back. rewrite andb_true_iff, todo_empty.
  split.
  - intros (Hr & Hd & Hp & Hall).
    assert (resume env a w = true) as Hres by (apply resume_iff; tauto).
    split; [eexists; by apply only_parquet_reads_back|].
    unfold existing_ids. by rewrite Hres.
  - intros ([ids Hids] & Hres & Hall).
    apply read_back_Returns in Hids as [_ Hp]. specialize (Hp Hres).
    unfold existing_ids in Hall. rewrite Hres in Hall.
    apply resume_iff in Hres as [Hr Hd]. auto.
Qed.

Lemma fresh_not_resumed w : fresh_start env a w -> resume env a w = false.
Proof.
  intros Hf. destruct (resume env a w) eqn:E; [| done].
  apply resume_iff in E as [Hr Hd]. destruct Hf; congruence.
Qed.

(** The run: the files read back, or the exception of the read; then the
    early return, or the number of iterations and the [for] loop from the
    starting iteration. *)
Lemma get_features_loop_run w :
  get_features_loop env func a w =
  match read_back env a w with
  | Raises e => (Raise e, w)
  | Returns _ =>
      if resume env a w &&
         (len (todo_source_ids (source_ids (fetch a)) (existing_ids env a w)) =? 0)
      then (Ok None, printed w MsgComplete)
      else
        match n_iterations (len (source_ids (fetch a))) (max_sources a) with
        | Raises e => (Raise e, w)
        | Returns n =>
            (let! df := for_each
                          (py_range (len (existing_ids env a w) / max_sources a) n)
                          (iteration env func a n) None in
             match df with
             | None => raise UnboundLocalError
             | Some df => ret (Some (df, outfile env a))
             end) w
        end
  end.
Proof.
  destruct (read_back env a w) as [ids|e] eqn:Hread.
  - apply read_back_Returns in Hread as Hids. destruct Hids as [-> _].
    revert Hread. unfold get_features_loop, read_back, existing_ids, resume.
    rewrite bind_unfold. simpl.
    destruct (dataset _ w) as [files|] eqn:Hd; [| done].
    apply dataset_Returns in Hd as ->.
    rewrite bind_unfold. simpl.
    destruct (negb (restart a) && _) eqn:Hres; simpl.
    + intros ->. rewrite bind_unfold. simpl.
      destruct (_ =? 0); [reflexivity|].
      unfold n_iterations, py_mod, py_floordiv.
      destruct (max_sources a =? 0); [reflexivity|].
      destruct (negb (_ =? 0)); reflexivity.
    + intros _. rewrite bind_unfold. simpl.
      unfold n_iterations, py_mod, py_floordiv.
      destruct (max_sources a =? 0); [reflexivity|].
      destruct (negb (_ =? 0)); reflexivity.
  - revert Hread. unfold get_features_loop, read_back.
    rewrite bind_unfold. simpl.
    destruct (dataset _ w) as [files|e'] eqn:Hd; [| by intros [= <-]].
    rewrite bind_unfold. simpl.
    destruct (negb (restart a) && _); [| done].
    intros ->. by rewrite bind_unfold.
Qed.

Lemma early_return w :
  already_complete env a w ->
  get_features_loop env func a w = (Ok None, printed w MsgComplete).
Proof.
  intros H. apply already_complete_iff in H as [[ids Hids] H].
  by rewrite get_features_loop_run, Hids, H.
Qed.

(** A run that does not raise at the start has read the directory back. *)
Lemma run_reads_back w r w' :
  get_features_loop env func a w = (r, w') ->
  reads_back env a w \/ (r = Raise ArrowInvalid /\ w' = w).
Proof.
  rewrite get_features_loop_run.
  destruct (read_back env a w) as [ids|e] eqn:Hread.
  - intros _. left. by exists ids.
  - apply read_back_exn in Hread as ->. intros [= <- <-]. by right.
Qed.

Lemma n_iterations_ceil (n c : Z) :
  1 <= c -> 0 <= n -> n_iterations n c = Returns (ceil_div n c).
Proof.
  intros Hc Hn. unfold n_iterations, py_mod, py_floordiv, ceil_div.
  destruct (Z.eqb_spec c 0); [lia|].
  pose proof (Z.div_mod n c ltac:(lia)) as Hdm.
  pose proof (Z.mod_pos_bound n c ltac:(lia)) as Hm.
  revert Hdm Hm. generalize (n / c) (n mod c). intros q r Hdm Hm.
  destruct (Z.eqb_spec r 0) as [E | E]; simpl; f_equal.
  - apply Z.div_unique with (r := c - 1); lia.
  - apply Z.div_unique with (r := r - 1); lia.
Qed.

Lemma n_iterations_zero (n : Z) : n_iterations n 0 = Raises ZeroDivisionError.
Proof. reflexivity. Qed.

(** *** One iteration *)

Lemma iteration_Ok n i st w st' w' :
  iteration env func a n i st w = (Ok st', w') ->
  exists df dm w2,
    func (with_source_ids (fetch a) (select_source_ids a i))
         (printed w (MsgIteration (i + 1) n)) = (Ok (df, dm), w2) /\
    st' = Some df /\
    parquet w' = (if save a then <[segment_path env a i := df]> (parquet w2)
                  else parquet w2) /\
    written (trace w') =
      written (trace w2) ++ (if save a then [segment_path env a i] else []).
Proof.
  unfold iteration. intros H.
  apply bind_Ok in H as ([] & w1 & Hprint & H). injection Hprint as <-.
  apply bind_Ok in H as ([df dm] & w2 & Hfunc & H).
  apply bind_Ok in H as ([] & w3 & Hsave & H). injection H as <- <-.
  exists df, dm, w2. split; [done|]. split; [done|].
  destruct (save a); simpl in Hsave.
  - apply bind_Ok in Hsave as ([] & w4 & Hwrite & Hcsv).
    injection Hwrite as <-.
    destruct (write_csv a); simpl in Hcsv; injection Hcsv as <-; simpl;
      rewrite ?written_app; simpl; by rewrite ?app_nil_r.
  - injection Hsave as <-. by rewrite app_nil_r.
Qed.

Hypothesis func_files : forall args, pres same_files (func args).

Lemma iteration_frame (paths : string -> Prop) n i st :
  paths (segment_path env a i) ->
  pres (frame paths) (iteration env func a n i st).
Proof.
  intros Hi. unfold iteration.
  assert (Hw : forall df, pres (frame paths) (write_parquet df (segment_path env a i))).
  { intros df w r w' [= <- <-] p Hp. simpl.
    apply lookup_insert_ne. by intros <-. }
  assert (Hc : forall df p, pres (frame paths) (to_csv df p)).
  { by intros df p w r w' [= <- <-] q Hq. }
  assert (Hp : forall m, pres (frame paths) (print m)).
  { by intros m w r w' [= <- <-] q Hq. }
  assert (Hf : forall args, pres (frame paths) (func args)).
  { intros args. eapply pres_weaken; [apply same_files_frame | apply func_files]. }
  apply pres_bind; [apply _ | apply Hp |]. intros _.
  apply pres_bind; [apply _ | apply Hf |]. intros [df dm].
  apply pres_bind; [apply _ | | intros; apply pres_ret; apply _].
  apply pres_when; [apply _|].
  apply pres_bind; [apply _ | apply Hw |]. intros _.
  apply pres_when; [apply _ | apply Hc].
Qed.

(** The [for] loop touches no parquet file but the segments of its
    indices. *)
Lemma for_each_frame (paths : string -> Prop) n l st :
  (forall i, i ∈ l -> paths (segment_path env a i)) ->
  pres (frame paths) (for_each l (iteration env func a n) st).
Proof.
  revert st. induction l as [|i l IH]; intros st Hl; simpl.
  - apply pres_ret; apply _.
  - apply pres_bind; [apply _ | |].
    + apply iteration_frame, Hl. by left.
    + intros st'. apply IH. intros j Hj. apply Hl. by right.
Qed.

(** After a [for] loop that went through, the segment of each index holds
    the table [func] returned for the chunk of that index. *)
Lemma for_each_segments n l st w st' w' :
  save a = true -> NoDup l ->
  for_each l (iteration env func a n) st w = (Ok st', w') ->
  forall i, i ∈ l ->
    exists df dm w1 w2,
      func (with_source_ids (fetch a) (select_source_ids a i)) w1
        = (Ok (df, dm), w2) /\
      parquet w' !! segment_path env a i = Some df.
Proof.
  intros Hsave. revert st w. induction l as [|j l IH]; intros st w Hnd H i Hi.
  - by apply elem_of_nil in Hi.
  - apply NoDup_cons in Hnd as [Hj Hnd]. simpl in H.
    apply bind_Ok in H as (st1 & w1 & Hiter & Hrest).
    apply elem_of_cons in Hi as [-> | Hi]; [| by eapply IH].
    apply iteration_Ok in Hiter as (df & dm & w2 & Hfunc & _ & Hpq & _).
    rewrite Hsave in Hpq.
    exists df, dm, (printed w (MsgIteration (j + 1) n)), w2. split; [done|].
    apply (for_each_frame (fun p => exists k, k ∈ l /\ p = segment_path env a k))
      in Hrest; [| by eauto].
    rewrite Hrest, Hpq; [apply lookup_insert_eq |].
    intros (k & Hk & E). apply segment_path_inj in E. by subst.
Qed.

(** The variable [df] after the loop is the table of the last index. *)
Lemma for_each_last n l st w st' w' :
  for_each l (iteration env func a n) st w = (Ok st', w') ->
  (l = [] /\ st' = st) \/
  exists l0 i df dm w1 w2,
    l = l0 ++ [i] /\
    func (with_source_ids (fetch a) (select_source_ids a i)) w1
      = (Ok (df, dm), w2) /\
    st' = Some df.
Proof.
  revert st w. induction l as [|j l IH]; intros st w H; simpl in H.
  - injection H as <- <-. by left.
  - right. apply bind_Ok in H as (st1 & w1 & Hiter & Hrest).
    apply iteration_Ok in Hiter as (df & dm & w2 & Hfunc & -> & _).
    apply IH in Hrest as [[-> ->] | (l0 & i & df' & dm' & w3 & w4 & -> & Hf & ->)].
    + exists [], j, df, dm. eauto.
    + exists (j :: l0), i, df', dm'. eauto.
Qed.

Hypothesis func_written : forall args, pres same_written (func args).

(** The segments a [for] loop that went through wrote, in order. *)
Lemma for_each_written n l st w st' w' :
  save a = true ->
  for_each l (iteration env func a n) st w = (Ok st', w') ->
  written (trace w') = written (trace w) ++ (segment_path env a <$> l).
Proof.
  intros Hsave. revert st w. induction l as [|j l IH]; intros st w H; simpl in H.
  - injection H as <- <-. simpl. by rewrite app_nil_r.
  - apply bind_Ok in H as (st1 & w1 & Hiter & Hrest).
    apply iteration_Ok in Hiter as (df & dm & w2 & Hfunc & _ & _ & Hwr).
    apply func_written in Hfunc. unfold same_written in Hfunc.
    rewrite Hsave, Hfunc in Hwr. simpl in Hwr.
    rewrite written_app, app_nil_r in Hwr.
    apply IH in Hrest. rewrite Hrest, Hwr, fmap_cons, <- app_assoc. done.
Qed.

End LoopFacts.

(* ===================================================================== *)
(** ** get_features_loop: the early return and the result *)
(* ===================================================================== *)

(** C7, as amended.  When resume is on (restart is False), the output
    directory holds files, all of them parquet files, and every input
    identifier is already in them (an empty input list included),
    [get_features_loop] returns at once: it prints "Dataset is already
    complete.", returns [None], calls [func] not once and writes
    nothing. *)
Theorem complete_dataset_returns_at_once
    (env : Env) (func : fetch_args -> M (DataFrame * ndarray))
    (a : loop_args) (w : world) :
  already_complete env a w ->
  get_features_loop env func a w = (Ok None, printed w MsgComplete).
Proof. apply early_return. Qed.

(** C10, as amended.  A run that takes the early return (resume on, files
    in the output directory, all of them parquet files, every input
    identifier in them) returns [None]; every other run that comes to its
    end returns the pair of the table [func] gave for the last chunk, the
    one of index [n_iterations - 1], and the output path prefix. *)
Theorem loop_returns_none_or_last_table
    (env : Env) (func : fetch_args -> M (DataFrame * ndarray))
    (a : loop_args) (w : world) :
  (already_complete env a w ->
     (get_features_loop env func a w).1 = Ok None) /\
  (forall r w',
     ~ already_complete env a w ->
     get_features_loop env func a w = (Ok r, w') ->
     exists n df dm w1 w2,
       n_iterations (len (source_ids (fetch a))) (max_sources a) = Returns n /\
       func (with_source_ids (fetch a) (select_source_ids a (n - 1))) w1
         = (Ok (df, dm), w2) /\
       r = Some (df, outfile env a)).
Proof.
  split.
  - intros H. by rewrite (early_return _ _ _ _ H).
  - intros r w' Hnot. rewrite get_features_loop_run.
    destruct (read_back env a w) as [ids|] eqn:Hread; [| done].
    destruct (_ && _) eqn:Hearly.
    { exfalso. apply Hnot, already_complete_iff. split; [by exists ids | done]. }
    destruct (n_iterations _ _) as [n | e]; [| done].
    intros H. apply bind_Ok in H as (st & w1 & Hfor & H).
    destruct st as [df|]; [| done]. injection H as <- <-.
    pose proof Hfor as Hrange.
    apply for_each_last in Hfor
      as [[_ [=]] | (l0 & i & df' & dm & w2 & w3 & Hl & Hfunc & [= <-])].
    assert (i = n - 1) as ->.
    { assert (Hi : i ∈ py_range (len (existing_ids env a w) / max_sources a) n).
      { rewrite Hl. apply elem_of_app. right. by left. }
      apply elem_of_py_range in Hi.
      destruct (Z.le_gt_cases (len (existing_ids env a w) / max_sources a) (n - 1))
        as [Hle | Hgt]; [| lia].
      replace n with ((n - 1) + 1) in Hl by lia.
      rewrite py_range_snoc in Hl by done.
      by apply app_inj_tail in Hl as [_ <-]. }
    by exists n, df, dm, w2, w3.
Qed.

(** C5, as amended.  Take a run in which the files of the output directory
    are read back without an exception and which is not the early return.
    For a non-empty identifier list and a chunk size larger than the number
    of identifiers, it is one iteration whose chunk is the whole list,
    provided fewer identifiers than the chunk size were read back (none
    are, with restart on or an empty directory).  With a chunk size of zero
    the run raises ZeroDivisionError before anything else happens. *)
Theorem oversized_chunk_is_one_iteration
    (env : Env) (func : fetch_args -> M (DataFrame * ndarray))
    (a : loop_args) (w : world) :
  reads_back env a w ->
  ~ already_complete env a w ->
  (0 < len (source_ids (fetch a)) < max_sources a ->
   len (existing_ids env a w) < max_sources a ->
     select_source_ids a 0 = source_ids (fetch a) /\
     get_features_loop env func a w =
       (let! df := iteration env func a 1 0 None in
        match df with
        | None => raise UnboundLocalError
        | Some df => ret (Some (df, outfile env a))
        end) w) /\
  (max_sources a = 0 ->
     get_features_loop env func a w = (Raise ZeroDivisionError, w)).
Proof.
  intros [ids Hread] Hnot.
  rewrite get_features_loop_run, Hread.
  destruct (_ && _) eqn:Hearly.
  { exfalso. apply Hnot, already_complete_iff. split; [by exists ids | done]. }
  split.
  - intros [Hpos Hlt] Hex. split.
    + unfold select_source_ids.
      rewrite py_slice_chunk by (try lia; by right).
      simpl. rewrite drop_0. apply take_ge. unfold len in *. lia.
    + rewrite n_iterations_ceil by lia.
      assert (ceil_div (len (source_ids (fetch a))) (max_sources a) = 1) as ->.
      { unfold ceil_div. symmetry.
        apply Z.div_unique with (r := len (source_ids (fetch a)) - 1); lia. }
      rewrite Z.div_small by (unfold len in *; lia).
      rewrite py_range_cons, py_range_nil by lia. simpl.
      rewrite !bind_unfold.
      destruct (iteration env func a 1 0 None w) as [[st | e |] w1]; done.
  - intros ->. by rewrite n_iterations_zero.
Qed.


(* ===================================================================== *)
(** ** The chunks of get_features_loop *)
(* ===================================================================== *)

Lemma NoDup_py_range (a b : Z) : NoDup (py_range a b).
Proof.
  unfold py_range. apply NoDup_fmap_2; [| apply NoDup_seq].
  intros x y. lia.
Qed.

Section Chunks.

Context (a : loop_args).
Hypothesis Hmax : 1 <= max_sources a.

Lemma select_take_drop (i : Z) :
  0 <= i ->
  select_source_ids a i
    = take (Z.to_nat (max_sources a))
           (drop (Z.to_nat (i * max_sources a)) (source_ids (fetch a))).
Proof.
  intros Hi. unfold select_source_ids.
  apply py_slice_chunk; [done | done | by right].
Qed.

Lemma chunks_cover :
  concat (select_source_ids a <$>
            py_range 0 (ceil_div (len (source_ids (fetch a))) (max_sources a)))
    = source_ids (fetch a).
Proof.
  pose proof (ceil_div_bounds (len (source_ids (fetch a))) (max_sources a) Hmax
                ltac:(unfold len; lia)) as (H1 & _ & H3).
  rewrite py_range_0, <- list_fmap_compose.
  etransitivity;
    [| apply (chunks_concat (Z.to_nat (max_sources a))
                (Z.to_nat (ceil_div (len (source_ids (fetch a))) (max_sources a))))].
  - f_equal. apply list_fmap_ext. intros _ k _. simpl.
    rewrite select_take_drop by lia. do 2 f_equal. lia.
  - lia.
  - unfold len in *. nia.
Qed.

Lemma chunk_sizes :
  let n := ceil_div (len (source_ids (fetch a))) (max_sources a) in
  (forall i, 0 <= i < n - 1 -> len (select_source_ids a i) = max_sources a) /\
  (0 < n -> 1 <= len (select_source_ids a (n - 1)) <= max_sources a).
Proof.
  intros n.
  pose proof (ceil_div_bounds (len (source_ids (fetch a))) (max_sources a) Hmax
                ltac:(unfold len; lia)) as (H1 & H2 & H3).
  fold n in H1, H2, H3.
  split.
  - intros i Hi. rewrite select_take_drop, chunk_length by lia.
    destruct (Z.eqb_spec (len (source_ids (fetch a))) 0); nia.
  - intros Hn. rewrite select_take_drop, chunk_length by lia.
    destruct (Z.eqb_spec (len (source_ids (fetch a))) 0) as [E | E].
    + subst n. rewrite E in Hn. unfold ceil_div in Hn.
      rewrite Z.div_small in Hn by lia. lia.
    + nia.
Qed.

End Chunks.


(* ===================================================================== *)
(** ** Resume after a complete fetch *)
(* ===================================================================== *)

Section Coverage.

Context (env : Env).
Hypothesis Hanswers : answers_every_id env.
Hypothesis Hastype : astype_keeps_ids env.

(** The scan of an answer binds the data of an instance that reports
    success, or leaves [source_data] as it was when none does. *)
Lemma scan_bound rs sd w0 data w1 :
  scan_responses rs sd w0 = (Ok (Some data), w1) ->
  (exists name status, (name, Resp status (Some data)) ∈ rs /\
                       is_success status = true) \/
  (sd = Some data /\
   forall name status d, (name, Resp status d) ∈ rs -> is_success status = false).
Proof.
  revert sd w0. induction rs as [|[n [|st d]] rs IH]; intros sd w0; simpl.
  - intros [= -> _]. right. split; [done|]. intros ??? Hin.
    by apply elem_of_nil in Hin.
  - intros H. apply IH in H as [(name & status & Hin & Hs) | [-> Hno]].
    + left. exists name, status. split; [by right | done].
    + right. split; [done|]. intros name status d' Hin.
      apply elem_of_cons in Hin as [[=] | Hin]. by eapply Hno.
  - destruct (is_success st) eqn:Hst.
    + destruct d as [d|]; [| by rewrite bind_unfold].
      intros H. apply IH in H as [(name & status & Hin & Hs) | [[= ->] Hno]].
      * left. exists name, status. split; [by right | done].
      * left. exists n, st. split; [by left | done].
    + intros H. apply IH in H as [(name & status & Hin & Hs) | [-> Hno]].
      * left. exists name, status. split; [by right | done].
      * right. split; [done|]. intros name status d' Hin.
        apply elem_of_cons in Hin as [[= -> -> ->] | Hin]; [done|].
        by eapply Hno.
Qed.

Lemma scan_answers q sd w0 data w1 :
  scan_responses (kowalski_query env q) sd w0 = (Ok (Some data), w1) ->
  forall x, x ∈ filter_in q -> x ∈ _id <$> data.
Proof.
  destruct (Hanswers q) as [(name & status & d & Hin & Hs) Hcover].
  intros H. apply scan_bound in H as [(n & st & Hin' & Hs') | [_ Hno]].
  - by eapply Hcover.
  - by rewrite (Hno _ _ _ Hin) in Hs.
Qed.

(** A pass that does not raise appends a table with a record for every
    identifier of its page. *)
Lemma page_pass_covers a k s s' :
  page_pass env a k s s' ->
  exists df, df_collection s' = df_collection s ++ [df] /\
             forall x, x ∈ page a k -> x ∈ _id <$> df.
Proof.
  intros (w & w' & Hp).
  apply fetch_page_Ok in Hp
    as (data & df & (w0 & w1 & Hscan) & _ & Hcast & Hdf & _ & _).
  exists df. split; [done|]. intros x Hx.
  apply (scan_answers _ _ _ _ _ Hscan) in Hx.
  destruct (wants_dmdt (projection a)); [| by subst].
  by rewrite (Hastype _ _ Hcast).
Qed.

Lemma passes_cover a k s s' :
  1 <= limit_per_query a -> 0 <= k ->
  passes env a k s s' ->
  forall x, x ∈ drop (Z.to_nat (k * limit_per_query a)) (source_ids a) ->
            x ∈ _id <$> concat (df_collection s').
Proof.
  intros Hlimit Hk Hpasses. revert Hk.
  induction Hpasses as [k s s' Hp Hbreak | k s s1 s' Hp Hmore Hrest IH];
    intros Hk x Hx.
  - apply page_pass_covers in Hp as (df & -> & Hdf).
    rewrite concat_app, fmap_app. apply elem_of_app. right. simpl.
    rewrite app_nil_r. apply Hdf. rewrite page_take_drop by done.
    rewrite take_ge; [done|]. rewrite length_drop. unfold len in Hbreak. lia.
  - pose proof (passes_collections _ _ _ _ _ Hrest) as (dfs & dts & Hdfs & _).
    rewrite <- (take_drop (Z.to_nat (limit_per_query a))) in Hx.
    apply elem_of_app in Hx as [Hx | Hx].
    + apply page_pass_covers in Hp as (df & Hs1 & Hdf).
      rewrite Hdfs, Hs1, !concat_app, !fmap_app.
      apply elem_of_app. left. apply elem_of_app. right. simpl.
      rewrite app_nil_r. apply Hdf. by rewrite page_take_drop.
    + apply IH; [lia|]. rewrite drop_drop in Hx.
      by replace (Z.to_nat ((k + 1) * limit_per_query a))
        with (Z.to_nat (k * limit_per_query a) + Z.to_nat (limit_per_query a))%nat
        by lia.
Qed.

(** The table of a call that returns has a record for every identifier
    asked for. *)
Lemma get_features_covers fuel a w df dm w' :
  (impute_missing_features a = true -> impute_keeps_ids env) ->
  1 <= limit_per_query a ->
  get_features env fuel a w = (Ok (df, dm), w') ->
  forall x, x ∈ source_ids a -> x ∈ _id <$> df.
Proof.
  intros Himpute Hlimit H x Hx. unfold get_features in H.
  apply bind_Ok in H as (s & w1 & Hloop & H).
  apply bind_Ok in H as (dm0 & w2 & _ & H).
  apply bind_Ok in H as ([] & w3 & _ & H). injection H as <- _ _.
  apply fetch_loop_passes in Hloop.
  apply (passes_cover _ _ _ _ Hlimit ltac:(done) Hloop) in Hx.
  destruct (impute_missing_features a); [| done].
  by rewrite Himpute.
Qed.

End Coverage.


(* ===================================================================== *)
(** ** The claims on the scenarios *)
(* ===================================================================== *)

Import Scenario.

Lemma env_full_answers : answers_every_id env_full.
Proof.
  intros q. split.
  - exists "kowalski", (Some "success"), (Some (rows_of (filter_in q))).
    split; [by left | done].
  - intros name status rows Hin _ x Hx.
    apply list_elem_of_singleton in Hin. injection Hin as _ _ ->.
    unfold rows_of. rewrite <- list_fmap_compose.
    apply list_elem_of_fmap. by exists x.
Qed.

Lemma env_full_astype : astype_keeps_ids env_full.
Proof. by intros df df' [= <-]. Qed.

(** C1.  The service answers the page [1] with success and the page [2]
    with status "error".  The call does not raise: it returns a table, in
    which the records of the first page stand a second time in place of
    the second page, and the enclosing loop writes the segment of the
    chunk. *)
Theorem error_status_on_later_page_is_not_raised :
  (get_features env_error_on_2 10 two_ids_pages_of_one empty_world).1
    = Ok ([Row 1 (Some [[1; 1]; [1; 1]]); Row 1 (Some [[1; 1]; [1; 1]])],
          Nd [2; 2; 2; 1]%nat [1; 1; 1; 1; 1; 1; 1; 1]) /\
  written (trace (first_run env_error_on_2 two_ids_one_chunk).2) = [seg 0].
Proof. split; vm_compute; reflexivity. Qed.

(** C2.  The record of the second page has no dmdt field, so the
    extraction raises for that page: the call returns all rows, but at the
    positions of the second page the dmdt array holds the data of the first
    page once more, not an empty placeholder.  The same happens when only
    one record of the second page lacks the field.  When it is the first
    page whose extraction raises, the empty list left in its place makes
    [np.vstack] raise, and the call returns nothing. *)
Theorem failed_extraction_reuses_previous_dmdt :
  (get_features env_no_dmdt_for_2 10 two_ids_pages_of_one empty_world).1
    = Ok ([Row 1 (Some [[1; 1]; [1; 1]]); Row 2 None],
          Nd [2; 2; 2; 1]%nat [1; 1; 1; 1; 1; 1; 1; 1]) /\
  (get_features env_no_dmdt_for_4 10 four_ids_pages_of_two empty_world).1
    = Ok ([Row 1 (Some [[1; 1]; [1; 1]]); Row 2 (Some [[2; 2]; [2; 2]]);
           Row 3 (Some [[3; 3]; [3; 3]]); Row 4 None],
          Nd [4; 2; 2; 1]%nat
             [1; 1; 1; 1; 2; 2; 2; 2; 1; 1; 1; 1; 2; 2; 2; 2]) /\
  (get_features env_no_dmdt_for_1 10 two_ids_pages_of_one empty_world).1
    = Raise ValueError.
Proof. repeat split; vm_compute; reflexivity. Qed.

(** C3, on five identifiers in pages of two: the call returns, and the
    queries it sent are the three pages. *)
Lemma paging_covers_each_identifier_once_witness :
  1 <= limit_per_query five_ids_pages_of_two /\
  (length (source_ids five_ids_pages_of_two) < 6)%nat /\
  concat (page five_ids_pages_of_two <$> py_range 0 (n_pages five_ids_pages_of_two))
    = source_ids five_ids_pages_of_two /\
  (get_features env_full 6 five_ids_pages_of_two empty_world).1
    = Ok (rows_of [1; 2; 3; 4; 5],
          Nd [5; 2; 2; 1]%nat
             [1; 1; 1; 1; 2; 2; 2; 2; 3; 3; 3; 3; 4; 4; 4; 4; 5; 5; 5; 5]) /\
  queried (trace (get_features env_full 6 five_ids_pages_of_two empty_world).2)
    = queried (trace empty_world)
      ++ (page five_ids_pages_of_two
            <$> py_range 0 (n_pages five_ids_pages_of_two)).
Proof.
  assert (H1 : 1 <= limit_per_query five_ids_pages_of_two) by (simpl; lia).
  assert (H2 : (length (source_ids five_ids_pages_of_two) < 6)%nat) by (simpl; lia).
  assert (H3 : (get_features env_full 6 five_ids_pages_of_two empty_world).1
    = Ok (rows_of [1; 2; 3; 4; 5],
          Nd [5; 2; 2; 1]%nat
             [1; 1; 1; 1; 2; 2; 2; 2; 3; 3; 3; 3; 4; 4; 4; 4; 5; 5; 5; 5]))
    by (vm_compute; reflexivity).
  destruct (paging_covers_each_identifier_once env_full five_ids_pages_of_two 6
              empty_world H1 H2) as (Hc & _ & _ & m & _ & Hq & Hok & _).
  rewrite (Hok _ H3) in Hq.
  exact (conj H1 (conj H2 (conj Hc (conj H3 Hq)))).
Defined.


(** The scenario of C4 in full: exactly three segments, with two, two and
    one identifiers. *)
Example five_ids_in_chunks_of_two :
  written (trace (first_run env_full five_ids_chunks_of_two).2)
    = [seg 0; seg 1; seg 2] /\
  (fun p => (fun df : DataFrame => length df)
              <$> parquet (first_run env_full five_ids_chunks_of_two).2 !! p)
    <$> [seg 0; seg 1; seg 2]
    = [Some 2%nat; Some 2%nat; Some 1%nat] /\
  size (parquet (first_run env_full five_ids_chunks_of_two).2) = 3%nat.
Proof. repeat split; vm_compute; reflexivity. Qed.


(** C5 fails at a chunk size of zero: the run raises ZeroDivisionError and
    fetches nothing.  With an oversized chunk it fails with restart on
    over a directory whose first file is a csv file, where listing the
    directory raises, and with resume on beside segments that hold as many
    identifiers as the chunk size, where the run has no iteration to make
    and raises UnboundLocalError; in neither case is anything fetched.
    Beside a segment that holds every input identifier the run with resume
    on is the early return, and makes no iteration either. *)
Lemma chunk_of_zero_or_stale_directory_raises :
  first_run env_full three_ids_chunks_of_zero
    = (Raise ZeroDivisionError, empty_world) /\
  0 < len (source_ids (fetch three_ids_chunks_of_ten))
    < max_sources three_ids_chunks_of_ten /\
  get_features_loop env_full (get_features env_full 10) three_ids_chunks_of_ten
    (after env_full four_ids_with_csv)
    = (Raise ArrowInvalid, after env_full four_ids_with_csv) /\
  0 < len (source_ids (fetch other_ids_chunks_of_four))
    < max_sources other_ids_chunks_of_four /\
  get_features_loop env_full (get_features env_full 10) other_ids_chunks_of_four
    (after env_full four_ids_chunks_of_two)
    = (Raise UnboundLocalError, after env_full four_ids_chunks_of_two) /\
  0 < len (source_ids (fetch two_ids_chunks_of_ten))
    < max_sources two_ids_chunks_of_ten /\
  get_features_loop env_full (get_features env_full 10) two_ids_chunks_of_ten
    (after env_full two_ids_one_chunk)
    = (Ok None, printed (after env_full two_ids_one_chunk) MsgComplete).
Proof. repeat split; vm_compute; reflexivity. Qed.

(** C5 as amended, on a resumed run: three identifiers and a chunk size of
    ten, beside a segment of two other identifiers. *)
Lemma oversized_chunk_is_one_iteration_witness :
  reads_back env_full other_ids_chunks_of_ten (after env_full two_ids_one_chunk) /\
  0 < len (source_ids (fetch other_ids_chunks_of_ten))
    < max_sources other_ids_chunks_of_ten /\
  len (existing_ids env_full other_ids_chunks_of_ten
         (after env_full two_ids_one_chunk)) = 2 /\
  select_source_ids other_ids_chunks_of_ten 0
    = source_ids (fetch other_ids_chunks_of_ten) /\
  get_features_loop env_full (get_features env_full 10) other_ids_chunks_of_ten
    (after env_full two_ids_one_chunk) =
    (let! df := iteration env_full (get_features env_full 10)
                          other_ids_chunks_of_ten 1 0 None in
     match df with
     | None => raise UnboundLocalError
     | Some df => ret (Some (df, outfile env_full other_ids_chunks_of_ten))
     end) (after env_full two_ids_one_chunk).
Proof.
  assert (H1 : reads_back env_full other_ids_chunks_of_ten
                 (after env_full two_ids_one_chunk))
    by (eexists; vm_compute; reflexivity).
  assert (H2 : 0 < len (source_ids (fetch other_ids_chunks_of_ten))
               < max_sources other_ids_chunks_of_ten) by (by vm_compute).
  assert (H3 : len (existing_ids env_full other_ids_chunks_of_ten
                      (after env_full two_ids_one_chunk)) = 2)
    by (vm_compute; reflexivity).
  assert (H4 : ~ already_complete env_full other_ids_chunks_of_ten
                   (after env_full two_ids_one_chunk)).
  { intros Hc. apply already_complete_iff in Hc as [_ Hc].
    vm_compute in Hc. discriminate Hc. }
  refine (conj H1 (conj H2 (conj H3
    (proj1 (oversized_chunk_is_one_iteration env_full (get_features env_full 10)
              other_ids_chunks_of_ten (after env_full two_ids_one_chunk) H1 H4)
           H2 _)))).
  rewrite H3. simpl. lia.
Defined.



(** C7 fails with restart on: every identifier is in the segment already
    on disk, and the run still queries the service and writes the segment
    again.  It fails on an empty identifier list too: from an empty
    directory the run raises UnboundLocalError and prints nothing; and
    with resume on beside a csv file the run raises when it lists the
    directory. *)
Lemma nothing_remaining_is_not_always_a_return :
  parquet (after env_full two_ids_one_chunk) !! seg 0 = Some (rows_of [1; 2]) /\
  (restarted_run env_full two_ids_one_chunk).1
    = Ok (Some (rows_of [1; 2], outfile env_full two_ids_one_chunk)) /\
  queried (trace (restarted_run env_full two_ids_one_chunk).2) = [[1]; [2]] /\
  written (trace (restarted_run env_full two_ids_one_chunk).2) = [seg 0] /\
  first_run env_full no_ids = (Raise UnboundLocalError, empty_world) /\
  get_features_loop env_full (get_features env_full 10) (with_restart no_ids false)
    (after env_full four_ids_with_csv)
    = (Raise ArrowInvalid, after env_full four_ids_with_csv).
Proof. repeat split; vm_compute; reflexivity. Qed.

(** C7 as amended, on the disk a complete first run left. *)
Lemma complete_dataset_returns_at_once_witness :
  already_complete env_full (with_restart four_ids_chunks_of_two false)
                   (after env_full four_ids_chunks_of_two) /\
  resumed_run env_full four_ids_chunks_of_two
    = (Ok None, printed (after env_full four_ids_chunks_of_two) MsgComplete).
Proof.
  assert (H : already_complete env_full (with_restart four_ids_chunks_of_two false)
                (after env_full four_ids_chunks_of_two)).
  { apply already_complete_iff.
    split; [eexists|]; vm_compute; reflexivity. }
  exact (conj H (complete_dataset_returns_at_once env_full
                   (get_features env_full 10) _ _ H)).
Defined.

(** C8 fails when the records carry no dmdt field, as with a column list
    that leaves dmdt out: the table has two rows and the dmdt array, stacked
    from the empty list, has a leading dimension of one. *)
Lemma rows_differ_from_dmdt_without_dmdt_column :
  (get_features env_bare 10 two_ids_without_dmdt empty_world).1
    = Ok (bare_rows [1; 2], Nd [1; 0]%nat []) /\
  length (bare_rows [1; 2]) <> leading (Nd [1; 0]%nat []).
Proof. split; [vm_compute; reflexivity | by vm_compute]. Qed.

(** C8 as amended, on five identifiers whose records all carry a dmdt. *)
Lemma rows_match_dmdt_when_extracted_witness :
  dmdt_extracted_on_every_page env_full 6 five_ids_pages_of_two empty_world /\
  length (rows_of [1; 2; 3; 4; 5])
    = leading (Nd [5; 2; 2; 1]%nat
                  [1; 1; 1; 1; 2; 2; 2; 2; 3; 3; 3; 3; 4; 4; 4; 4; 5; 5; 5; 5]).
Proof.
  assert (H : dmdt_extracted_on_every_page env_full 6 five_ids_pages_of_two
                empty_world).
  { eexists _, _. split; [vm_compute; reflexivity|].
    intros df Hd.
    repeat (apply elem_of_cons in Hd as [-> | Hd];
            [eexists; vm_compute; reflexivity|]).
    by apply elem_of_nil in Hd. }
  split; [exact H|].
  apply (rows_match_dmdt_when_extracted env_full 6 five_ids_pages_of_two
           empty_world
           (get_features env_full 6 five_ids_pages_of_two empty_world).2);
    [by intros _ df b | exact H | vm_compute; reflexivity].
Defined.



(** C10 fails beside a csv file: resume is on, the segment with every
    input identifier is on disk, and the run raises when it lists the
    directory instead of returning [None]. *)
Lemma complete_dataset_beside_csv_raises :
  restart (with_restart two_ids_with_csv false) = false /\
  parquet (after env_full two_ids_with_csv)
    !! segment_path env_full two_ids_with_csv 0 = Some (rows_of [1; 2]) /\
  source_ids (fetch two_ids_with_csv) = [1; 2] /\
  resumed_run env_full two_ids_with_csv
    = (Raise ArrowInvalid, after env_full two_ids_with_csv).
Proof. repeat split; vm_compute; reflexivity. Qed.

(** C10 as amended, on both kinds of run: the resumed run over a complete
    disk, and the first run from the empty disk. *)
Lemma loop_returns_none_or_last_table_witness :
  (resumed_run env_full four_ids_chunks_of_two).1 = Ok None /\
  exists n df dm w1 w2,
    n_iterations (len (source_ids (fetch four_ids_chunks_of_two)))
                 (max_sources four_ids_chunks_of_two) = Returns n /\
    get_features env_full 10
      (with_source_ids (fetch four_ids_chunks_of_two)
                       (select_source_ids four_ids_chunks_of_two (n - 1))) w1
      = (Ok (df, dm), w2) /\
    Some (rows_of [3; 4], outfile env_full four_ids_chunks_of_two)
      = Some (df, outfile env_full four_ids_chunks_of_two).
Proof.
  split.
  - apply (proj1 (loop_returns_none_or_last_table env_full
                    (get_features env_full 10)
                    (with_restart four_ids_chunks_of_two false)
                    (after env_full four_ids_chunks_of_two))).
    apply already_complete_iff. split; [eexists|]; vm_compute; reflexivity.
  - apply (proj2 (loop_returns_none_or_last_table env_full
                    (get_features env_full 10) four_ids_chunks_of_two
                    empty_world) _ (first_run env_full four_ids_chunks_of_two).2).
    + intros Hc. apply already_complete_iff in Hc as [_ Hc].
      vm_compute in Hc. discriminate.
    + vm_compute. reflexivity.
Defined.


(* ===================================================================== *)
(** ** More on get_features: answers that are not a success with data *)
(* ===================================================================== *)

Lemma scan_no_success rs sd w :
  no_success rs -> scan_responses rs sd w = (Ok sd, w).
Proof.
  induction rs as [|[name [|status data]] rs IH]; intros H; simpl.
  - done.
  - apply IH. intros n st d Hin. eapply H. by right.
  - rewrite (H name status data) by (by left).
    apply IH. intros n st d Hin. eapply H. by right.
Qed.

Lemma scan_success_without_data rs sd w :
  success_without_data rs ->
  exists r, scan_responses rs sd w = (Raise ValueError, printed w (MsgResponse r)).
Proof.
  intros (name & status & Hin & Hs). revert sd.
  induction rs as [|[n [|st d]] rs IH]; intros sd; simpl.
  - by apply elem_of_nil in Hin.
  - apply IH. by apply elem_of_cons in Hin as [[=] | Hin].
  - apply elem_of_cons in Hin as [[= <- <- <-] | Hin].
    + rewrite Hs. by eexists.
    + destruct (is_success st); [| by apply IH].
      destruct d; [by apply IH | by eexists].
Qed.

Lemma scan_last_success before name status d after sd w :
  ~ success_without_data before ->
  is_success status = true ->
  no_success after ->
  scan_responses (before ++ (name, Resp status (Some d)) :: after) sd w
    = (Ok (Some d), w).
Proof.
  intros Hb Hs Ha. revert sd.
  induction before as [|[n [|st dd]] rs IH]; intros sd; simpl.
  - rewrite Hs. by apply scan_no_success.
  - apply IH. intros (n' & st' & Hin & Hs'). apply Hb. exists n', st'.
    split; [by right | done].
  - assert (Hrs : ~ success_without_data rs).
    { intros (n' & st' & Hin & Hs'). apply Hb. exists n', st'.
      split; [by right | done]. }
    destruct (is_success st) eqn:Hst; [| by apply IH].
    destruct dd; [by apply IH|].
    exfalso. apply Hb. exists n, st. split; [by left | done].
Qed.

Section Answers.

Context (env : Env) (a : fetch_args).

Lemma fetch_page_success_without_data k s w :
  success_without_data (answer env a k) ->
  (fetch_page env a k s w).1 = Raise ValueError /\
  queried (trace (fetch_page env a k s w).2) = queried (trace w) ++ [page a k] /\
  same_files w (fetch_page env a k s w).2.
Proof.
  intros H. split; [| split].
  - unfold fetch_page. rewrite bind_unfold. simpl. rewrite bind_unfold.
    unfold answer in H.
    by destruct (scan_success_without_data _ (source_data s)
                   (World (parquet w) (csv w)
                      (trace w ++ [EvQuery (Query (features_catalog a) (page a k)
                                                  (projection a))])) H)
      as [r ->].
  - eapply fetch_page_queries. apply surjective_pairing.
  - eapply (fetch_page_pres env same_files);
      [apply same_files_print | apply same_files_emit | apply surjective_pairing].
Qed.

Lemma fetch_page_no_success_unbound k s w :
  no_success (answer env a k) -> source_data s = None ->
  (fetch_page env a k s w).1 = Raise UnboundLocalError.
Proof.
  intros H Hs. unfold fetch_page. rewrite bind_unfold. simpl.
  rewrite bind_unfold.
  unfold answer in H. rewrite (scan_no_success _ _ _ H), Hs. done.
Qed.

Lemma fetch_page_no_success_Ok k s w d df :
  no_success (answer env a k) -> source_data s = Some d ->
  (if wants_dmdt (projection a) then astype env d = Returns df else df = d) ->
  exists s' w',
    fetch_page env a k s w = (Ok s', w') /\
    source_data s' = Some d /\
    df_collection s' = df_collection s ++ [df].
Proof.
  intros H Hs Hcast. unfold fetch_page. rewrite bind_unfold. simpl.
  rewrite bind_unfold.
  unfold answer in H. rewrite (scan_no_success _ _ _ H), Hs.
  rewrite bind_unfold. simpl. rewrite bind_unfold.
  destruct (wants_dmdt (projection a)); simpl.
  - rewrite Hcast. simpl. rewrite bind_unfold.
    destruct (extract_dmdt df); simpl; eauto.
  - subst df. rewrite bind_unfold.
    destruct (extract_dmdt d); simpl; eauto.
Qed.

End Answers.

(** X1.  An answer in which an instance reports success and carries no
    data makes the call raise ValueError at that page, whatever the locals
    of the loop are when it gets there: the query of the page is the last
    one sent, and the files stay as they are.  For the first page this is
    the whole call. *)
Theorem success_without_data_raises_value_error
    (env : Env) (fuel : nat) (a : fetch_args) (k : Z) (s : fetch_state)
    (w : world) :
  fuel <> 0%nat ->
  success_without_data (answer env a k) ->
  (fetch_loop env fuel a k s w).1 = Raise ValueError /\
  queried (trace (fetch_loop env fuel a k s w).2)
    = queried (trace w) ++ [page a k] /\
  same_files w (fetch_loop env fuel a k s w).2 /\
  (k = 0 -> (get_features env fuel a w).1 = Raise ValueError).
Proof.
  intros Hfuel H. destruct fuel as [|fuel]; [done|].
  pose proof (fetch_page_success_without_data env a k s w H) as (Hr & Hq & Hf).
  assert (Hloop : fetch_loop env (S fuel) a k s w = fetch_page env a k s w).
  { simpl. rewrite bind_unfold.
    destruct (fetch_page env a k s w) as [[s' | e |] w1]; simpl in Hr; by try done. }
  rewrite Hloop. repeat split; try done; [apply Hf | apply Hf |].
  intros ->. unfold get_features. rewrite bind_unfold.
  pose proof (fetch_page_success_without_data env a 0 fetch_init w H) as (Hr0 & _).
  assert (Hloop0 : fetch_loop env (S fuel) a 0 fetch_init w
                   = fetch_page env a 0 fetch_init w).
  { simpl. rewrite bind_unfold.
    destruct (fetch_page env a 0 fetch_init w) as [[s' | e |] w1];
      simpl in Hr0; by try done. }
  rewrite Hloop0.
  destruct (fetch_page env a 0 fetch_init w) as [[s' | e |] w1];
    simpl in *; congruence.
Qed.

(** X2.  When no instance reports success for the first page, the name
    [source_data] is still unbound where the table is built, and the call
    raises UnboundLocalError after that one query. *)
Theorem no_success_on_first_page_raises_unbound
    (env : Env) (fuel : nat) (a : fetch_args) (w : world) :
  fuel <> 0%nat ->
  no_success (answer env a 0) ->
  (get_features env fuel a w).1 = Raise UnboundLocalError /\
  queried (trace (get_features env fuel a w).2) = queried (trace w) ++ [page a 0].
Proof.
  intros Hfuel H. destruct fuel as [|fuel]; [done|].
  pose proof (fetch_page_no_success_unbound env a 0 fetch_init w H eq_refl) as Hr.
  pose proof (fetch_page_queries env a 0 fetch_init w _ _
                (surjective_pairing _)) as Hq.
  unfold get_features. rewrite bind_unfold. simpl fetch_loop. rewrite bind_unfold.
  destruct (fetch_page env a 0 fetch_init w) as [[s' | e |] w1];
    simpl in *; [congruence | | congruence].
  split; [congruence | done].
Qed.

(** X3.  On a later page, an answer in which no instance reports success
    leaves [source_data] bound to the records of the page before.  When
    the dtype cast, where it is applied, takes these records, the pass
    goes through with them: it returns, and the table it appends is built
    from them a second time. *)
Theorem no_success_on_later_page_reuses_records
    (env : Env) (a : fetch_args) (k : Z) (s : fetch_state) (w : world)
    (d : list row) :
  no_success (answer env a k) ->
  source_data s = Some d ->
  (wants_dmdt (projection a) = true -> exists df, astype env d = Returns df) ->
  exists s' w' df,
    fetch_page env a k s w = (Ok s', w') /\
    source_data s' = Some d /\
    df_collection s' = df_collection s ++ [df] /\
    (if wants_dmdt (projection a) then astype env d = Returns df
     else df = d).
Proof.
  intros H Hs Hcast.
  assert (Hdf : exists df,
            if wants_dmdt (projection a) then astype env d = Returns df
            else df = d).
  { destruct (wants_dmdt (projection a)); [by apply Hcast | by exists d]. }
  destruct Hdf as [df Hdf].
  destruct (fetch_page_no_success_Ok env a k s w d df H Hs Hdf)
    as (s' & w' & Hp & Hsd & Hcol).
  by exists s', w', df.
Qed.

(** X4.  Among several instances the last one that reports success is the
    one whose records are used: with no successful instance after it, and
    none without data before it, the scan of the answers binds
    [source_data] to its data, whatever was bound before. *)
Theorem last_successful_instance_wins
    (before after : list (string * response)) (name : string)
    (status : option string) (d : list row) (sd : option (list row))
    (w : world) :
  ~ success_without_data before ->
  is_success status = true ->
  no_success after ->
  scan_responses (before ++ (name, Resp status (Some d)) :: after) sd w
    = (Ok (Some d), w).
Proof. apply scan_last_success. Qed.


(* ===================================================================== *)
(** ** More on get_features: the disk, the page size, the result *)
(* ===================================================================== *)

(** X5.  A call of [get_features] leaves every parquet and csv file as it
    was and writes no segment, whether it returns, raises or runs on. *)
Theorem get_features_never_writes
    (env : Env) (fuel : nat) (a : fetch_args) (w : world) :
  parquet (get_features env fuel a w).2 = parquet w /\
  csv (get_features env fuel a w).2 = csv w /\
  written (trace (get_features env fuel a w).2) = written (trace w).
Proof.
  pose proof (get_features_files env fuel a w _ _ (surjective_pairing _)) as [H1 H2].
  pose proof (get_features_written env fuel a w _ _ (surjective_pairing _)) as H3.
  done.
Qed.

Lemma page_zero_limit (a : fetch_args) (k : Z) :
  limit_per_query a = 0 -> page a k = [].
Proof.
  intros H. unfold page. rewrite H, !Z.mul_0_r.
  by rewrite py_slice_nonneg by lia.
Qed.

Lemma fetch_loop_zero_limit (env : Env) (a : fetch_args) fuel k s w :
  limit_per_query a = 0 ->
  source_ids a <> [] ->
  fetch_loop env (S fuel) a k s w =
    (match (fetch_page env a k s w).1 with
     | Ok _ => Raise ZeroDivisionError
     | Raise e => Raise e
     | OutOfFuel => OutOfFuel
     end, (fetch_page env a k s w).2).
Proof.
  intros Hl Hids. simpl. rewrite bind_unfold.
  destruct (fetch_page env a k s w) as [[s1 | e |] w1]; [| done | done].
  assert (Hlen : 0 < len (source_ids a)).
  { unfold len. destruct (source_ids a); [done | simpl; lia]. }
  rewrite Hl, !Z.mul_0_r.
  destruct (Z.geb_spec 0 (len (source_ids a))); [lia|].
  by rewrite bind_unfold.
Qed.

(** X6.  With a page size of zero and a non-empty identifier list the call
    never returns a table: it sends one query, for an empty page, and then
    raises; when the pass for that page goes through, what it raises is
    ZeroDivisionError, from the remainder in the progress message. *)
Theorem zero_page_size_raises
    (env : Env) (fuel : nat) (a : fetch_args) (w : world) :
  limit_per_query a = 0 ->
  source_ids a <> [] ->
  fuel <> 0%nat ->
  (exists e, (get_features env fuel a w).1 = Raise e) /\
  ((exists s, (fetch_page env a 0 fetch_init w).1 = Ok s) ->
     (get_features env fuel a w).1 = Raise ZeroDivisionError) /\
  queried (trace (get_features env fuel a w).2) = queried (trace w) ++ [[]].
Proof.
  intros Hl Hids Hfuel. destruct fuel as [|fuel]; [done|].
  pose proof (fetch_page_queries env a 0 fetch_init w _ _
                (surjective_pairing _)) as Hq.
  pose proof (fetch_page_finishes env a 0 fetch_init w) as Hfin.
  rewrite (page_zero_limit a 0 Hl) in Hq.
  unfold get_features. rewrite bind_unfold.
  rewrite (fetch_loop_zero_limit env a fuel 0 fetch_init w Hl Hids).
  destruct (fetch_page env a 0 fetch_init w) as [[s1 | e |] w1]; simpl in *.
  - split; [by eexists|]. by split.
  - split; [by eexists|]. split; [by intros [s' [=]] | done].
  - done.
Qed.

Lemma fetch_loop_negative_limit (env : Env) (a : fetch_args) fuel k s w v :
  limit_per_query a < 0 -> 0 <= k ->
  (fetch_loop env fuel a k s w).1 <> Ok v.
Proof.
  intros Hl. revert k s w. induction fuel as [|fuel IH]; intros k s w Hk; simpl.
  - done.
  - rewrite bind_unfold.
    destruct (fetch_page env a k s w) as [[s1 | e |] w1]; [| done | done].
    destruct (Z.geb_spec ((k + 1) * limit_per_query a) (len (source_ids a)))
      as [Hge | _]; [unfold len in Hge; nia|].
    rewrite bind_unfold.
    destruct (lift _ w1) as [[r | e |] w2]; [| done | done].
    rewrite bind_unfold.
    destruct (when _ _ w2) as [[[] | e |] w3]; [| done | done].
    apply IH. lia.
Qed.

(** X7.  With a negative page size the loop of [get_features] never
    reaches its [break]: with no amount of fuel does the call return a
    table. *)
Theorem negative_page_size_never_returns
    (env : Env) (fuel : nat) (a : fetch_args) (w : world)
    (v : DataFrame * ndarray) :
  limit_per_query a < 0 ->
  (get_features env fuel a w).1 <> Ok v.
Proof.
  intros Hl. unfold get_features. rewrite bind_unfold.
  pose proof (fetch_loop_negative_limit env a fuel 0 fetch_init w) as Hloop.
  destruct (fetch_loop env fuel a 0 fetch_init w) as [[s | e |] w1];
    [| done | done].
  by exfalso; eapply (Hloop s).
Qed.

Lemma passes_carried (env : Env) (a : fetch_args) k s s' :
  passes env a k s s' ->
  exists dfs,
    df_collection s' = df_collection s ++ dfs /\
    dmdt_collection s' = dmdt_collection s ++ carried (dmdt_temp s) dfs.
Proof.
  induction 1 as [k s s' (w & w' & Hp) _ | k s s1 s' (w & w' & Hp) _ _ IH].
  - apply fetch_page_Ok in Hp as (data & df & _ & _ & _ & Hdf & Hdt & Hdc).
    exists [df]. split; [done|]. simpl. by rewrite Hdc, Hdt.
  - apply fetch_page_Ok in Hp as (data & df & _ & _ & _ & Hdf & Hdt & Hdc).
    destruct IH as (dfs & Hdfs & Hdts).
    exists (df :: dfs). rewrite Hdfs, Hdts, Hdf, Hdc, <- !app_assoc.
    split; [done|]. simpl. by rewrite Hdt.
Qed.

Lemma length_carried prev dfs : length (carried prev dfs) = length dfs.
Proof. revert prev. induction dfs as [|df dfs IH]; intros prev; simpl; by f_equal. Qed.

(** X8.  When the loop of [get_features] is through, [dmdt_collection] has
    one entry per page table, and the entry of a table is its stacked dmdt
    column or, when the extraction raised, the entry of the table before
    (the empty list, for the first table). *)
Theorem dmdt_entries_are_carried
    (env : Env) (fuel : nat) (a : fetch_args) (w w' : world) (s : fetch_state) :
  fetch_loop env fuel a 0 fetch_init w = (Ok s, w') ->
  dmdt_collection s = carried EmptyList (df_collection s) /\
  length (dmdt_collection s) = length (df_collection s).
Proof.
  intros H. apply fetch_loop_passes, passes_carried in H as (dfs & Hdf & Hdt).
  simpl in Hdf, Hdt. subst dfs.
  split; [done | rewrite Hdt; apply length_carried].
Qed.

Section Tables.

Context (env : Env) (rows : query -> list row) (a : fetch_args).
Hypothesis Hanswers : answers_with env rows.
Hypothesis Hcast : wants_dmdt (projection a) = true -> astype_keeps_table env.
Hypothesis Hlimit : 1 <= limit_per_query a.

Lemma page_pass_table k s s' :
  page_pass env a k s s' ->
  df_collection s' = df_collection s
    ++ [rows (Query (features_catalog a) (page a k) (projection a))].
Proof.
  intros (w & w' & Hp).
  apply fetch_page_Ok in Hp
    as (data & df & (w0 & w1 & Hscan) & _ & Hc & -> & _ & _).
  destruct (Hanswers (Query (features_catalog a) (page a k) (projection a)))
    as (name & Hq).
  rewrite Hq in Hscan. simpl in Hscan. injection Hscan as <- _.
  destruct (wants_dmdt (projection a)); [| by subst].
  by rewrite (Hcast eq_refl _ _ Hc).
Qed.

Lemma passes_tables k s s' :
  0 <= k < n_pages a ->
  passes env a k s s' ->
  df_collection s' = df_collection s
    ++ ((fun j => rows (Query (features_catalog a) (page a j) (projection a)))
          <$> py_range k (n_pages a)).
Proof.
  intros Hk Hpasses. revert Hk.
  induction Hpasses as [k s s' Hp Hbreak | k s s1 s' Hp Hmore Hrest IH];
    intros Hk.
  - assert (k + 1 = n_pages a) as <-.
    { apply (break_at_last_page a Hlimit k Hk). apply Z.geb_le. lia. }
    rewrite py_range_cons, py_range_nil by lia. by apply page_pass_table.
  - assert (Hnext : 0 <= k + 1 < n_pages a).
    { split; [lia|]. destruct (Z.eq_dec (k + 1) (n_pages a)) as [E|E]; [|lia].
      apply (break_at_last_page a Hlimit k Hk) in E.
      apply Z.geb_le in E. lia. }
    rewrite (IH Hnext), (page_pass_table _ _ _ Hp), (py_range_cons k) by lia.
    by rewrite fmap_cons, <- app_assoc.
Qed.

End Tables.

(** X9.  Let the service answer every query through one instance, with
    success and the records [rows q], and let the dtype cast, where it is
    applied, keep the records.  With a page size of at least one, the table
    a call returns is the records of its pages laid end to end in page
    order, handed to the imputation when that is asked for.  When the
    service returns one record per identifier, in the order asked, and no
    imputation is asked for, the identifier column of the table is the
    identifier list of the call. *)
Theorem table_is_pages_in_order
    (env : Env) (rows : query -> list row) (fuel : nat) (a : fetch_args)
    (w w' : world) (df : DataFrame) (dm : ndarray) :
  answers_with env rows ->
  (wants_dmdt (projection a) = true -> astype_keeps_table env) ->
  1 <= limit_per_query a ->
  get_features env fuel a w = (Ok (df, dm), w') ->
  let pages := (fun j => rows (Query (features_catalog a) (page a j) (projection a)))
                 <$> py_range 0 (n_pages a) in
  df = (if impute_missing_features a
        then impute_features env (concat pages) (self_impute a)
        else concat pages) /\
  (impute_missing_features a = false ->
   (forall q, _id <$> rows q = filter_in q) ->
   _id <$> df = source_ids a).
Proof.
  intros Hanswers Hcast Hlimit H pages. unfold get_features in H.
  apply bind_Ok in H as (s & w1 & Hloop & H).
  apply bind_Ok in H as (dm0 & w2 & _ & H).
  apply bind_Ok in H as ([] & w3 & _ & H). injection H as Hdf _ _.
  apply fetch_loop_passes in Hloop.
  apply (passes_tables env rows a Hanswers Hcast Hlimit) in Hloop;
    [| pose proof (n_pages_bounds a Hlimit); lia].
  simpl in Hloop. fold pages in Hloop. rewrite Hloop in Hdf.
  split; [done|].
  intros Hno Hrows. rewrite Hno in Hdf. subst df.
  transitivity (concat (page a <$> py_range 0 (n_pages a)));
    [| by apply pages_concat].
  subst pages. clear Hloop.
  induction (py_range 0 (n_pages a)) as [|j l IH]; [done|].
  rewrite !fmap_cons. simpl. rewrite fmap_app, IH. by rewrite Hrows.
Qed.


(* ===================================================================== *)
(** ** More on get_features_loop: what a run writes *)
(* ===================================================================== *)

#[global] Instance csv_frame_preorder (paths : string -> Prop) :
  PreOrder (csv_frame paths).
Proof.
  split.
  - by intros w p _.
  - intros w1 w2 w3 H1 H2 p Hp. by rewrite H2, H1.
Qed.

Lemma same_files_csv_frame (paths : string -> Prop) (w w' : world) :
  same_files w w' -> csv_frame paths w w'.
Proof. intros [_ H] p _. by rewrite H. Qed.

Lemma same_files_write_nothing (w w' : world) :
  same_files w w' -> parquet w' = parquet w /\ csv w' = csv w.
Proof. done. Qed.

Section LoopWrites.

Context (env : Env) (func : fetch_args -> M (DataFrame * ndarray))
        (a : loop_args).

Lemma csv_path_inj (i j : Z) : csv_path env a i = csv_path env a j -> i = j.
Proof.
  unfold csv_path. intros H.
  apply (inj (String.app _)) in H. apply (inj (String.app _)) in H.
  apply string_app_inv_tail in H. by apply str_inj.
Qed.

(** Whatever relation [func] and the prints keep, a run that does not save
    keeps. *)
Lemma unsaved_run_pres (P : world -> world -> Prop) `{!PreOrder P} :
  save a = false ->
  (forall args, pres P (func args)) ->
  (forall m, pres P (print m)) ->
  pres P (get_features_loop env func a).
Proof.
  intros Hsave Hfunc Hprint w r w'. rewrite get_features_loop_run.
  destruct (read_back env a w) as [ids0|e0]; [| by intros [= <- <-]].
  destruct (_ && _).
  - intros [= <- <-]. by apply (Hprint MsgComplete w (Ok tt)).
  - destruct (n_iterations _ _) as [n | e]; [| by intros [= <- <-]].
    generalize (py_range (len (existing_ids env a w) / max_sources a) n).
    intros l. revert w r w'.
    apply pres_bind; [apply _ | | intros [df|]; pres_tac].
    apply pres_for_each; [apply _|]. intros i st.
    unfold iteration. rewrite Hsave. pres_tac.
Qed.

Hypothesis func_files : forall args, pres same_files (func args).

Lemma iteration_csv_frame (paths : string -> Prop) n i st :
  paths (csv_path env a i) ->
  pres (csv_frame paths) (iteration env func a n i st).
Proof.
  intros Hi. unfold iteration.
  assert (Hw : forall df p, pres (csv_frame paths) (write_parquet df p)).
  { by intros df p w r w' [= <- <-] q Hq. }
  assert (Hc : forall df, pres (csv_frame paths) (to_csv df (csv_path env a i))).
  { intros df w r w' [= <- <-] p Hp. simpl.
    apply lookup_insert_ne. by intros <-. }
  assert (Hp : forall m, pres (csv_frame paths) (print m)).
  { by intros m w r w' [= <- <-] q Hq. }
  assert (Hf : forall args, pres (csv_frame paths) (func args)).
  { intros args. eapply pres_weaken; [apply same_files_csv_frame | apply func_files]. }
  apply pres_bind; [apply _ | apply Hp |]. intros _.
  apply pres_bind; [apply _ | apply Hf |]. intros [df dm].
  apply pres_bind; [apply _ | | intros; apply pres_ret; apply _].
  apply pres_when; [apply _|].
  apply pres_bind; [apply _ | apply Hw |]. intros _.
  apply pres_when; [apply _ | apply Hc].
Qed.

Lemma for_each_csv_frame (paths : string -> Prop) n l st :
  (forall i, i ∈ l -> paths (csv_path env a i)) ->
  pres (csv_frame paths) (for_each l (iteration env func a n) st).
Proof.
  revert st. induction l as [|i l IH]; intros st Hl; simpl.
  - apply pres_ret; apply _.
  - apply pres_bind; [apply _ | |].
    + apply iteration_csv_frame, Hl. by left.
    + intros st'. apply IH. intros j Hj. apply Hl. by right.
Qed.

Lemma iteration_csv n i st w st' w' :
  save a = true -> write_csv a = true ->
  iteration env func a n i st w = (Ok st', w') ->
  exists df, parquet w' !! segment_path env a i = Some df /\
             csv w' !! csv_path env a i = Some df.
Proof.
  intros Hsave Hcsv. unfold iteration. rewrite Hsave, Hcsv. simpl. intros H.
  apply bind_Ok in H as ([] & w1 & _ & H).
  apply bind_Ok in H as ([df dm] & w2 & _ & H).
  apply bind_Ok in H as ([] & w3 & Hwrite & H). injection H as _ <-.
  apply bind_Ok in Hwrite as ([] & w4 & Hpq & Hc).
  injection Hpq as <-. injection Hc as <-. simpl.
  exists df. by rewrite !lookup_insert_eq.
Qed.

(** After a [for] loop that went through with [save] and [write_csv] on,
    each index has its segment and a csv file with the same table. *)
Lemma for_each_csv n l st w st' w' :
  save a = true -> write_csv a = true -> NoDup l ->
  for_each l (iteration env func a n) st w = (Ok st', w') ->
  forall i, i ∈ l ->
    exists df, parquet w' !! segment_path env a i = Some df /\
               csv w' !! csv_path env a i = Some df.
Proof.
  intros Hsave Hcsv. revert st w. induction l as [|j l IH]; intros st w Hnd H i Hi.
  - by apply elem_of_nil in Hi.
  - apply NoDup_cons in Hnd as [Hj Hnd]. simpl in H.
    apply bind_Ok in H as (st1 & w1 & Hiter & Hrest).
    apply elem_of_cons in Hi as [-> | Hi]; [| by eapply IH].
    apply (iteration_csv _ _ _ _ _ _ Hsave Hcsv) in Hiter as (df & Hpq & Hc).
    exists df. split.
    + apply (for_each_frame env func a func_files
               (fun p => exists k, k ∈ l /\ p = segment_path env a k))
        in Hrest; [| by eauto].
      rewrite Hrest; [done|].
      intros (k & Hk & E). apply segment_path_inj in E. by subst.
    + apply (for_each_csv_frame (fun p => exists k, k ∈ l /\ p = csv_path env a k))
        in Hrest; [| by eauto].
      rewrite Hrest; [done|].
      intros (k & Hk & E). apply csv_path_inj in E. by subst.
Qed.

Hypothesis func_written : forall args, pres same_written (func args).

(** One iteration with [save] on writes its segment when [func] returns,
    and nothing when [func] raises. *)
Lemma iteration_written n i st w r w' :
  save a = true ->
  iteration env func a n i st w = (r, w') ->
  (exists st', r = Ok st' /\
     written (trace w') = written (trace w) ++ [segment_path env a i]) \/
  ((forall st', r <> Ok st') /\ written (trace w') = written (trace w)).
Proof.
  intros Hsave. unfold iteration. rewrite Hsave. simpl.
  rewrite bind_unfold. simpl. rewrite bind_unfold.
  destruct (func _ _) as [[[df dm] | e |] w2] eqn:Hfunc.
  - apply func_written in Hfunc. unfold same_written in Hfunc. simpl in Hfunc.
    rewrite written_app, app_nil_r in Hfunc.
    rewrite !bind_unfold. simpl.
    destruct (write_csv a); simpl; intros [= <- <-]; left; eexists;
      (split; [done|]); simpl; rewrite ?written_app; simpl;
      by rewrite ?app_nil_r, Hfunc.
  - apply func_written in Hfunc. unfold same_written in Hfunc. simpl in Hfunc.
    rewrite written_app, app_nil_r in Hfunc.
    intros [= <- <-]. by right.
  - apply func_written in Hfunc. unfold same_written in Hfunc. simpl in Hfunc.
    rewrite written_app, app_nil_r in Hfunc.
    intros [= <- <-]. by right.
Qed.

(** The segments a [for] loop wrote are those of a first part of its
    indices, in order; of all of them when the loop went through. *)
Lemma for_each_written_prefix n l st w r w' :
  save a = true ->
  for_each l (iteration env func a n) st w = (r, w') ->
  exists done, done `prefix_of` l /\
    written (trace w') = written (trace w) ++ (segment_path env a <$> done) /\
    (forall st', r = Ok st' -> done = l).
Proof.
  intros Hsave. revert st w. induction l as [|i l IH]; intros st w; simpl.
  - intros [= <- <-]. exists []. simpl. by rewrite app_nil_r.
  - rewrite bind_unfold.
    destruct (iteration env func a n i st w) as [r1 w1] eqn:Hiter.
    apply (iteration_written _ _ _ _ _ _ Hsave) in Hiter
      as [(st1 & -> & Hw) | [Hnok Hw]].
    + intros H. apply IH in H as (done & Hpre & Hwr & Hall).
      exists (i :: done). split; [by apply prefix_cons|].
      rewrite Hwr, Hw, fmap_cons, <- app_assoc. split; [done|].
      intros st' E. f_equal. by eapply Hall.
    + destruct r1 as [st1 | e |]; [by destruct (Hnok st1) | |];
        intros [= <- <-]; exists []; simpl; rewrite app_nil_r;
        (split; [apply prefix_nil | by split]).
Qed.

Lemma iteration_Raise n i st w e w' :
  iteration env func a n i st w = (Raise e, w') ->
  func (with_source_ids (fetch a) (select_source_ids a i))
       (printed w (MsgIteration (i + 1) n)) = (Raise e, w').
Proof.
  unfold iteration. rewrite bind_unfold. simpl. rewrite bind_unfold.
  fold (printed w (MsgIteration (i + 1) n)).
  destruct (func _ _) as [[[df dm] | e' |] w2]; [| by intros [= <- <-] | done].
  rewrite bind_unfold.
  destruct (save a); simpl; [| done].
  rewrite bind_unfold. simpl. by destruct (write_csv a).
Qed.

(** Where a [for] loop stops: the segments of the indices before are
    written and on disk, and when the loop raises it is [func] that does,
    on the chunk of the next index. *)
Lemma for_each_stops n l st w r w' :
  save a = true -> NoDup l ->
  for_each l (iteration env func a n) st w = (r, w') ->
  exists done, done `prefix_of` l /\
    written (trace w') = written (trace w) ++ (segment_path env a <$> done) /\
    (forall st', r = Ok st' -> done = l) /\
    (forall j, j ∈ done ->
       exists df, parquet w' !! segment_path env a j = Some df) /\
    (forall e, r = Raise e ->
       exists i rest w1, l = done ++ i :: rest /\
         func (with_source_ids (fetch a) (select_source_ids a i)) w1
           = (Raise e, w')).
Proof.
  intros Hsave. revert st w. induction l as [|i l IH]; intros st w Hnd; simpl.
  - intros [= <- <-]. exists []. simpl. rewrite app_nil_r.
    repeat split; try done. intros j Hj. by apply elem_of_nil in Hj.
  - apply NoDup_cons in Hnd as [Hi Hnd]. rewrite bind_unfold.
    destruct (iteration env func a n i st w) as [[st1 | e |] w1] eqn:Hiter.
    + intros Hrest.
      pose proof Hiter as Hok.
      apply (iteration_Ok env func a) in Hok
        as (df & dm & w2 & Hfunc & _ & Hpq & Hwr).
      rewrite Hsave in Hpq, Hwr.
      apply func_written in Hfunc. unfold same_written in Hfunc. simpl in Hfunc.
      rewrite written_app, app_nil_r in Hfunc. rewrite Hfunc in Hwr.
      pose proof Hrest as Hframe.
      apply (for_each_frame env func a func_files
               (fun p => exists k, k ∈ l /\ p = segment_path env a k))
        in Hframe; [| by eauto].
      apply IH in Hrest as (ds & Hpre & Hw & Hall & Hdisk & Hraise); [| done].
      exists (i :: ds). split; [by apply prefix_cons|].
      rewrite Hw, Hwr, fmap_cons, <- app_assoc. split; [done|].
      split; [intros st' E; f_equal; by eapply Hall|]. split.
      * intros j [-> | Hj]%elem_of_cons; [| by apply Hdisk].
        exists df. rewrite Hframe, Hpq; [apply lookup_insert_eq|].
        intros (k & Hk & E). apply segment_path_inj in E. by subst.
      * intros e Hr. destruct (Hraise e Hr) as (i' & rest & w0 & -> & Hf).
        by exists i', rest, w0.
    + intros [= <- <-]. apply iteration_Raise in Hiter.
      exists []. simpl. split; [apply prefix_nil|].
      apply func_written in Hiter as Hw. unfold same_written in Hw.
      simpl in Hw. rewrite written_app, !app_nil_r in Hw.
      rewrite app_nil_r. split; [done|]. split; [done|]. split.
      * intros j Hj. by apply elem_of_nil in Hj.
      * intros e' [= <-]. eauto.
    + intros [= <- <-]. exists []. simpl. split; [apply prefix_nil|].
      assert (Hw : written (trace w1) = written (trace w)).
      { revert Hiter. unfold iteration. rewrite bind_unfold. simpl.
        rewrite bind_unfold.
        destruct (func _ _) as [[[df dm] | e' |] w2] eqn:Hfunc; [| done |].
        - rewrite bind_unfold. destruct (save a); simpl; [| done].
          rewrite bind_unfold. simpl. by destruct (write_csv a).
        - intros [= <-]. apply func_written in Hfunc.
          unfold same_written in Hfunc. simpl in Hfunc.
          by rewrite written_app, app_nil_r in Hfunc. }
      rewrite app_nil_r. split; [done|]. split; [done|]. split; [| done].
      intros j Hj. by apply elem_of_nil in Hj.
Qed.

End LoopWrites.

(** X10.  With [save] off a run writes nothing: whatever its outcome, the
    parquet and csv files are what they were, and no segment write is in
    the trace. *)
Theorem unsaved_run_writes_nothing
    (env : Env) (fuel : nat) (a : loop_args) (w : world) :
  save a = false ->
  parquet (get_features_loop env (get_features env fuel) a w).2 = parquet w /\
  csv (get_features_loop env (get_features env fuel) a w).2 = csv w /\
  written (trace (get_features_loop env (get_features env fuel) a w).2)
    = written (trace w).
Proof.
  intros Hsave.
  pose proof (unsaved_run_pres env (get_features env fuel) a same_files Hsave
                (get_features_files env fuel) same_files_print
                w _ _ (surjective_pairing _)) as [H1 H2].
  pose proof (unsaved_run_pres env (get_features env fuel) a same_written Hsave
                (get_features_written env fuel) same_written_print
                w _ _ (surjective_pairing _)) as H3.
  done.
Qed.

(** X11.  With [save] and [write_csv] on, a run that comes to its end
    leaves, for every iteration it made, a csv file that holds the same
    table as the parquet segment of that iteration. *)
Theorem csv_duplicates_the_segment
    (env : Env) (fuel : nat) (a : loop_args) (w w' : world)
    (r : option (DataFrame * string)) (n : Z) :
  save a = true ->
  write_csv a = true ->
  n_iterations (len (source_ids (fetch a))) (max_sources a) = Returns n ->
  ~ already_complete env a w ->
  get_features_loop env (get_features env fuel) a w = (Ok r, w') ->
  forall i, start_iteration env a w <= i < n ->
    exists df, parquet w' !! segment_path env a i = Some df /\
               csv w' !! csv_path env a i = Some df.
Proof.
  intros Hsave Hcsv Hn Hnot. rewrite get_features_loop_run.
  destruct (read_back env a w) as [ids0|e0] eqn:Hread; [| done].
  rewrite Hn. destruct (_ && _) eqn:Hearly.
  { exfalso. apply Hnot, already_complete_iff. split; [by exists ids0 | done]. }
  intros H i Hi. apply bind_Ok in H as (st & w1 & Hfor & H).
  destruct st as [df|]; [| done]. injection H as _ <-.
  eapply (for_each_csv env (get_features env fuel) a (get_features_files env fuel));
    [done | done | apply NoDup_py_range | exact Hfor |].
  by apply elem_of_py_range.
Qed.

(** X12.  With [write_csv] off, or [save] off, a run leaves the csv files
    as they were, whatever its outcome. *)
Theorem no_csv_unless_asked
    (env : Env) (fuel : nat) (a : loop_args) (w : world) :
  write_csv a = false \/ save a = false ->
  csv (get_features_loop env (get_features env fuel) a w).2 = csv w.
Proof.
  intros Hoff.
  assert (Hpres : pres (fun w w' => csv w' = csv w)
                       (get_features_loop env (get_features env fuel) a)).
  { assert (HP : PreOrder (fun w w' : world => csv w' = csv w)).
    { split; [by intros ? | intros ? ? ? ? ?; congruence]. }
    assert (Hprint : forall m, pres (fun w w' => csv w' = csv w) (print m)).
    { by intros m w0 r0 w0' [= <- <-]. }
    assert (Hfunc : forall args,
              pres (fun w w' => csv w' = csv w) (get_features env fuel args)).
    { intros args w0 r0 w0' H. by apply get_features_files in H as [_ ?]. }
    assert (Hwrite : forall df p,
              pres (fun w w' => csv w' = csv w) (write_parquet df p)).
    { by intros df p w0 r0 w0' [= <- <-]. }
    intros w0 r0 w0'. rewrite get_features_loop_run.
    destruct (read_back env a w0) as [ids0|e0]; [| by intros [= <- <-]].
    destruct (_ && _); [by intros [= <- <-]|].
    destruct (n_iterations _ _) as [n | e]; [| by intros [= <- <-]].
    generalize (py_range (len (existing_ids env a w0) / max_sources a) n).
    intros l. revert w0 r0 w0'.
    apply pres_bind; [done | | intros [df|]; pres_tac].
    apply pres_for_each; [done|]. intros i st. unfold iteration.
    apply pres_bind; [done | apply Hprint |]. intros _.
    apply pres_bind; [done | apply Hfunc |]. intros [df dm].
    apply pres_bind; [done | | intros; by apply pres_ret].
    destruct Hoff as [-> | ->]; [| by apply pres_ret].
    apply pres_when; [done|].
    apply pres_bind; [done | apply Hwrite | intros; by apply pres_ret]. }
  exact (Hpres w _ _ (surjective_pairing _)).
Qed.

(** X13.  With [save] on, what a run writes is the segments of a first
    part of its iterations, from the starting iteration upwards, each once
    and in order, and these segments are on disk when the run ends; a run
    that returns a table has written them all.  A run that raises has
    either failed to read the output directory back, or had no iteration
    to make, or it stops at the first chunk for which [get_features]
    raises, with what that call raises and with the segments of the chunks
    before it written. *)
Theorem segments_are_written_in_order
    (env : Env) (fuel : nat) (a : loop_args) (w w' : world)
    (r : result (option (DataFrame * string))) (n : Z) :
  save a = true ->
  n_iterations (len (source_ids (fetch a))) (max_sources a) = Returns n ->
  get_features_loop env (get_features env fuel) a w = (r, w') ->
  exists done,
    done `prefix_of` py_range (start_iteration env a w) n /\
    written (trace w') = written (trace w) ++ (segment_path env a <$> done) /\
    NoDup (segment_path env a <$> done) /\
    (forall v, r = Ok (Some v) -> done = py_range (start_iteration env a w) n) /\
    (forall j, j ∈ done ->
       exists df, parquet w' !! segment_path env a j = Some df) /\
    (forall e, r = Raise e ->
       (e = ArrowInvalid /\ ~ reads_back env a w /\ w' = w) \/
       (e = UnboundLocalError /\ n <= start_iteration env a w /\ w' = w) \/
       (start_iteration env a w + len done < n /\
        exists w1,
          get_features env fuel
            (with_source_ids (fetch a)
               (select_source_ids a (start_iteration env a w + len done))) w1
            = (Raise e, w'))).
Proof.
  intros Hsave Hn. rewrite get_features_loop_run.
  destruct (read_back env a w) as [ids0|e0] eqn:Hread.
  2:{ intros [= <- <-]. exists []. simpl. rewrite app_nil_r.
      split; [apply prefix_nil|]. split; [done|]. split; [constructor|].
      split; [done|]. split.
      - intros j Hj. by apply elem_of_nil in Hj.
      - intros e [= <-]. left. apply read_back_exn in Hread as Hexn.
        split; [done|]. split; [| done].
        intros [ids Hids]. congruence. }
  rewrite Hn. destruct (_ && _).
  - intros [= <- <-]. exists []. simpl. rewrite written_app, !app_nil_r.
    split; [apply prefix_nil|]. split; [done|]. split; [constructor|].
    split; [done|]. split; [| done].
    intros j Hj. by apply elem_of_nil in Hj.
  - rewrite bind_unfold. fold (start_iteration env a w).
    destruct (for_each _ _ None w) as [rf wf] eqn:Hfor.
    pose proof Hfor as Hstop.
    apply (for_each_stops env (get_features env fuel) a
             (get_features_files env fuel) (get_features_written env fuel)
             _ _ _ _ _ _ Hsave (NoDup_py_range _ _)) in Hstop
      as (ds & Hpre & Hwr & Hall & Hdisk & Hraise).
    assert (Hnd : NoDup (segment_path env a <$> ds)).
    { apply NoDup_fmap_2; [intros i j; apply segment_path_inj|].
      destruct Hpre as [rest Hrest].
      pose proof (NoDup_py_range (start_iteration env a w) n) as Hr.
      rewrite Hrest in Hr. by apply NoDup_app in Hr as [? _]. }
    destruct rf as [[df|] | e |]; intros [= <- <-]; exists ds;
      (split; [done|]); (split; [done|]); (split; [done|]).
    + split; [intros v _; by eapply Hall|]. by split.
    + split; [done|]. split; [done|]. intros e [= <-]. right. left.
      specialize (Hall None eq_refl). subst ds.
      destruct (Z.lt_ge_cases (start_iteration env a w) n) as [Hlt|Hge].
      * rewrite py_range_cons in Hfor by done. simpl in Hfor.
        apply bind_Ok in Hfor as (st1 & w1 & Hiter & Hrest).
        apply (iteration_Ok env (get_features env fuel) a) in Hiter
          as (df & dm & w2 & _ & -> & _).
        apply (for_each_last env (get_features env fuel) a) in Hrest
          as [[_ [=]] | (l0 & i & df' & dm' & w3 & w4 & _ & _ & [=])].
      * rewrite py_range_nil in Hfor by lia. injection Hfor as <-. done.
    + split; [done|]. split; [done|]. intros e' [= <-]. right. right.
      destruct (Hraise e eq_refl) as (i & rest & w1 & Hl & Hf).
      apply py_range_split in Hl as [-> Hlt]. eauto.
    + split; [done|]. by split.
Qed.

(** X14.  A run that reads its output directory back without an
    exception, is not the early return and has no iteration to make, its
    starting iteration being at or past the number of iterations, raises
    UnboundLocalError at the [return], having fetched and written nothing.
    A run that starts from the first chunk on an empty identifier list is
    such a run, and so is one with a negative chunk size. *)
Theorem no_iteration_raises_unbound
    (env : Env) (func : fetch_args -> M (DataFrame * ndarray))
    (a : loop_args) (w : world) :
  reads_back env a w ->
  (forall n,
     ~ already_complete env a w ->
     n_iterations (len (source_ids (fetch a))) (max_sources a) = Returns n ->
     n <= start_iteration env a w ->
     get_features_loop env func a w = (Raise UnboundLocalError, w)) /\
  (fresh_start env a w ->
   (source_ids (fetch a) = [] /\ max_sources a <> 0) \/ max_sources a < 0 ->
   get_features_loop env func a w = (Raise UnboundLocalError, w)).
Proof.
  intros [ids0 Hread].
  assert (Hgen : forall n,
     ~ already_complete env a w ->
     n_iterations (len (source_ids (fetch a))) (max_sources a) = Returns n ->
     n <= start_iteration env a w ->
     get_features_loop env func a w = (Raise UnboundLocalError, w)).
  { intros n Hnot Hn Hle. rewrite get_features_loop_run, Hread, Hn.
    destruct (_ && _) eqn:Hearly.
    { exfalso. apply Hnot, already_complete_iff. split; [by exists ids0 | done]. }
    unfold start_iteration in Hle. by rewrite py_range_nil by done. }
  split; [exact Hgen|].
  intros Hfresh Hcase.
  pose proof (fresh_not_resumed env a w Hfresh) as Hres.
  assert (Hnot : ~ already_complete env a w).
  { intros Hc. apply already_complete_iff in Hc as [_ Hc].
    by rewrite Hres in Hc. }
  assert (Hstart : start_iteration env a w = 0).
  { unfold start_iteration, existing_ids. rewrite Hres. apply Z.div_0_l.
    destruct Hcase as [[_ ?] | ?]; lia. }
  assert (Hmax : max_sources a <> 0) by (destruct Hcase as [[_ ?] | ?]; lia).
  unfold n_iterations, py_mod, py_floordiv in Hgen.
  destruct (Z.eqb_spec (max_sources a) 0) as [? | _]; [done|].
  pose proof (Z.div_mod (len (source_ids (fetch a))) (max_sources a) Hmax) as Hdm.
  assert (Hlen : 0 <= len (source_ids (fetch a))) by (unfold len; lia).
  destruct (Z.eqb_spec (len (source_ids (fetch a)) mod max_sources a) 0)
    as [Hm | Hm]; simpl in Hgen; apply (Hgen _ Hnot eq_refl); rewrite Hstart.
  - destruct Hcase as [[-> _] | Hneg]; [by rewrite Z.div_0_l|].
    revert Hdm Hm Hlen.
    generalize (len (source_ids (fetch a)) / max_sources a)
               (len (source_ids (fetch a)) mod max_sources a)
               (len (source_ids (fetch a))).
    intros q m N Hdm Hm HN. nia.
  - destruct Hcase as [[E _] | Hneg]; [by rewrite E in Hm|].
    pose proof (Z.mod_neg_bound (len (source_ids (fetch a))) (max_sources a) Hneg)
      as Hb.
    revert Hdm Hm Hlen Hb.
    generalize (len (source_ids (fetch a)) / max_sources a)
               (len (source_ids (fetch a)) mod max_sources a)
               (len (source_ids (fetch a))).
    intros q m N Hdm Hm HN Hb. nia.
Qed.


(* ===================================================================== *)
(** ** The output directory of a region *)
(* ===================================================================== *)

(** X15.  When the suffix has no slash, the directory a run lists for
    resuming is the field directory [<script dir>/../features/field_<field>],
    whatever the ccd, the quadrant and the whole-field flag are.  So the
    runs of all regions of a field, the whole field included, read back the
    same segment files: a resumed run counts as existing the identifiers
    of every region that wrote there, and starts from the same iteration
    for the same chunk size. *)
Theorem regions_of_a_field_share_the_directory
    (env : Env) (a a' : loop_args) (w : world) :
  plain_suffix a ->
  dirname (outfile env a) = field_dir env a /\
  (plain_suffix a' -> field a' = field a -> restart a' = restart a ->
   existing_ids env a' w = existing_ids env a w /\
   (max_sources a' = max_sources a ->
    start_iteration env a' w = start_iteration env a w)).
Proof.
  intros Hs. split; [by apply dirname_outfile|].
  intros Hs' Hf Hr.
  assert (Hd : dirname (outfile env a') = dirname (outfile env a)).
  { rewrite !dirname_outfile by done. unfold field_dir. by rewrite Hf. }
  assert (He : existing_ids env a' w = existing_ids env a w).
  { unfold existing_ids, resume. by rewrite Hd, Hr. }
  split; [done|]. intros Hm. unfold start_iteration. by rewrite He, Hm.
Qed.

(** X16.  With resume on, a segment that the run of one region wrote counts
    for the run of any other region of the same field: its identifiers are
    among the existing ones, and the starting iteration of the other
    region is at least the number of its rows divided by the chunk size.
    A region resumed beside a segment of [max_sources] rows or more thus
    leaves out its own first chunk. *)
Theorem segments_of_other_regions_count_as_existing
    (env : Env) (a a' : loop_args) (w : world) (i : Z) (df : DataFrame) :
  plain_suffix a -> plain_suffix a' ->
  field a' = field a ->
  restart a' = false ->
  parquet w !! segment_path env a i = Some df ->
  (forall x, x ∈ _id <$> df -> x ∈ existing_ids env a' w) /\
  len df <= len (existing_ids env a' w) /\
  (1 <= max_sources a' -> len df / max_sources a' <= start_iteration env a' w).
Proof.
  intros Hs Hs' Hf Hr Hseg.
  assert (Hin : segment_path env a i ∈ discovered (dirname (outfile env a')) w).
  { apply elem_of_discovered. split; [| left; by eexists].
    replace (dirname (outfile env a')) with (dirname (outfile env a)).
    - by apply discoverable_segment.
    - rewrite !dirname_outfile by done. unfold field_dir. by rewrite Hf. }
  assert (Hres : resume env a' w = true).
  { apply resume_iff. split; [done|]. intros E. rewrite E in Hin.
    by apply elem_of_nil in Hin. }
  assert (Hlen : len df <= len (existing_ids env a' w)).
  { unfold existing_ids. rewrite Hres. unfold len.
    pose proof (existing_ids_length _ _ _ _ Hin Hseg). lia. }
  split; [| split; [done|]].
  - intros x Hx. unfold existing_ids. rewrite Hres.
    by eapply elem_of_existing_ids.
  - intros Hm. unfold start_iteration. apply Z.div_le_mono; lia.
Qed.


(* ===================================================================== *)
(** ** The queries of a whole run *)
(* ===================================================================== *)

Lemma same_queries_write_parquet df p : pres same_queries (write_parquet df p).
Proof.
  intros w r w' [= <- <-]. unfold same_queries. simpl.
  rewrite queried_app. simpl. apply app_nil_r.
Qed.

Lemma same_queries_to_csv df p : pres same_queries (to_csv df p).
Proof.
  intros w r w' [= <- <-]. unfold same_queries. simpl.
  rewrite queried_app. simpl. apply app_nil_r.
Qed.

#[global] Hint Resolve same_queries_write_parquet same_queries_to_csv : pres.

(** A call that returns has sent every page of its list, in order. *)
Lemma get_features_queried (env : Env) fuel (a : fetch_args) w v w' :
  1 <= limit_per_query a ->
  get_features env fuel a w = (Ok v, w') ->
  queried (trace w') = queried (trace w) ++ (page a <$> py_range 0 (n_pages a)).
Proof.
  intros Hlimit H. unfold get_features in H.
  apply bind_Ok in H as (s & w1 & Hloop & H).
  apply (fetch_loop_queries env a Hlimit) in Hloop
    as (m & _ & Hq & _ & Hm & _ & _);
    [| pose proof (n_pages_bounds a Hlimit); lia].
  rewrite (Hm s eq_refl) in Hq.
  match type of H with
  | ?k w1 = _ => assert (Hrest : pres same_queries k) by pres_tac
  end.
  apply Hrest in H. unfold same_queries in H. by rewrite H.
Qed.

Section RunQueries.

Context (env : Env) (fuel : nat) (a : loop_args).
Hypothesis Hlimit : 1 <= limit_per_query (fetch a).

Lemma iteration_queried n i st w st' w' :
  iteration env (get_features env fuel) a n i st w = (Ok st', w') ->
  exists qs, queried (trace w') = queried (trace w) ++ qs /\
             concat qs = select_source_ids a i /\
             Forall (fun q => len q <= limit_per_query (fetch a)) qs.
Proof.
  unfold iteration. intros H.
  apply bind_Ok in H as ([] & w1 & Hprint & H).
  apply same_queries_print in Hprint.
  apply bind_Ok in H as ([df dm] & w2 & Hget & H).
  apply get_features_queried in Hget; [| done].
  match type of H with
  | ?k w2 = _ =>
      assert (Hrest : pres same_queries k) by pres_tac
  end.
  apply Hrest in H. unfold same_queries in *.
  eexists. split; [by rewrite H, Hget, Hprint|]. split.
  - apply (pages_concat (with_source_ids (fetch a) (select_source_ids a i))). done.
  - apply Forall_fmap, Forall_forall. intros k Hk. apply elem_of_py_range in Hk.
    simpl. rewrite page_take_drop by (done || lia).
    unfold len. rewrite length_take. simpl. lia.
Qed.

Lemma for_each_queried n l st w st' w' :
  for_each l (iteration env (get_features env fuel) a n) st w = (Ok st', w') ->
  exists qs, queried (trace w') = queried (trace w) ++ qs /\
             concat qs = concat (select_source_ids a <$> l) /\
             Forall (fun q => len q <= limit_per_query (fetch a)) qs.
Proof.
  revert st w. induction l as [|i l IH]; intros st w H; simpl in H.
  - injection H as <- <-. exists []. by rewrite app_nil_r.
  - apply bind_Ok in H as (st1 & w1 & Hiter & Hrest).
    apply iteration_queried in Hiter as (qs1 & Hq1 & Hc1 & Hf1).
    apply IH in Hrest as (qs2 & Hq2 & Hc2 & Hf2).
    exists (qs1 ++ qs2). rewrite Hq2, Hq1, <- app_assoc. split; [done|].
    rewrite concat_app, fmap_cons, Hc1, Hc2. split; [done|].
    by apply Forall_app.
Qed.

(** A run that does not resume and comes to its end. *)
Lemma loop_queried w r w' :
  1 <= max_sources a ->
  resume env a w = false ->
  get_features_loop env (get_features env fuel) a w = (Ok r, w') ->
  exists qs, queried (trace w') = queried (trace w) ++ qs /\
             concat qs = source_ids (fetch a) /\
             Forall (fun q => len q <= limit_per_query (fetch a)) qs.
Proof.
  intros Hmax Hres.
  rewrite get_features_loop_run.
  destruct (read_back env a w) as [ids0|e0]; [| done].
  unfold existing_ids. rewrite Hres. simpl.
  rewrite n_iterations_ceil by (done || unfold len; lia).
  rewrite Z.div_0_l by lia.
  intros H. apply bind_Ok in H as (st & w1 & Hfor & H).
  destruct st as [df|]; [| done]. injection H as _ <-.
  apply for_each_queried in Hfor as (qs & Hq & Hc & Hf).
  exists qs. split; [done|]. split; [| done].
  by rewrite Hc, chunks_cover.
Qed.

End RunQueries.

(** X17.  Over a run that starts from the first chunk and comes to its
    end, with a page size and a chunk size of at least one, the pages sent
    to the service, laid end to end in the order sent, are the identifier
    list: every position of the list goes to the service exactly once, in
    order, and no query carries more identifiers than the page size. *)
Theorem a_run_sends_every_identifier_once
    (env : Env) (fuel : nat) (a : loop_args) (w w' : world)
    (r : option (DataFrame * string)) :
  1 <= limit_per_query (fetch a) ->
  1 <= max_sources a ->
  fresh_start env a w ->
  get_features_loop env (get_features env fuel) a w = (Ok r, w') ->
  exists qs,
    queried (trace w') = queried (trace w) ++ qs /\
    concat qs = source_ids (fetch a) /\
    Forall (fun q => len q <= limit_per_query (fetch a)) qs.
Proof.
  intros Hlimit Hmax Hfresh. apply fresh_not_resumed in Hfresh.
  by apply loop_queried.
Qed.


(* ===================================================================== *)
(** ** The feature dictionaries *)
(* ===================================================================== *)

Lemma dict_of_snoc {V} (items : list (string * V)) (k : string) (v : V) :
  dict_of (items ++ [(k, v)]) = <[k := v]> (dict_of items).
Proof. unfold dict_of. by rewrite foldl_app. Qed.

Lemma dict_of_list_to_map {V} (items : list (string * V)) :
  dict_of items = list_to_map (reverse items).
Proof.
  induction items as [|[k v] items IH] using rev_ind; [done|].
  by rewrite dict_of_snoc, reverse_app, IH.
Qed.

Lemma dict_of_lookup {V} (items : list (string * V)) (k : string) (v : V) :
  NoDup items.*1 -> (k, v) ∈ items -> dict_of items !! k = Some v.
Proof.
  intros Hnd Hin. rewrite dict_of_list_to_map.
  apply elem_of_list_to_map.
  - by rewrite fmap_reverse, reverse_Permutation.
  - by apply elem_of_reverse.
Qed.

Lemma dict_of_lookup_None {V} (items : list (string * V)) (k : string) :
  k ∉ items.*1 -> dict_of items !! k = None.
Proof.
  intros Hk. rewrite dict_of_list_to_map. apply not_elem_of_list_to_map.
  by rewrite fmap_reverse, elem_of_reverse.
Qed.

Lemma dtype_items_Returns fs :
  (forall k f, (k, f) ∈ fs -> is_Some (dtype f)) ->
  exists items,
    dtype_items fs = Returns items /\
    Forall2 (fun kf kd => kd.1 = kf.1 /\ dtype kf.2 = Some kd.2) fs items.
Proof.
  induction fs as [|[k f] fs IH]; intros H; simpl.
  - by exists [].
  - destruct (H k f) as [d Hd]; [by left|]. rewrite Hd.
    destruct IH as (items & -> & Hall); [intros; eapply H; by right|].
    exists ((k, d) :: items). split; [done|]. by constructor.
Qed.

Lemma dtype_items_KeyError fs k f :
  (k, f) ∈ fs -> dtype f = None -> dtype_items fs = Raises KeyError.
Proof.
  induction fs as [|[k' f'] fs IH]; intros Hin Hd; simpl.
  - by apply elem_of_nil in Hin.
  - apply elem_of_cons in Hin as [[= <- <-] | Hin]; [by rewrite Hd|].
    destruct (dtype f'); [| done]. by rewrite IH.
Qed.

Lemma dtype_items_exn fs e : dtype_items fs = Raises e -> e = KeyError.
Proof.
  revert e. induction fs as [|[k f] fs IH]; intros e; simpl; [done|].
  destruct (dtype f); [| by intros [= <-]].
  destruct (dtype_items fs) as [items | e']; [done|].
  simpl. intros [= <-]. by apply IH.
Qed.

Lemma periodic_bool_Returns fs :
  (forall k f, (k, f) ∈ fs -> is_Some (periodic f)) ->
  exists flags,
    periodic_bool fs = Returns flags /\
    Forall2 (fun kf p => periodic kf.2 = Some p) fs flags.
Proof.
  induction fs as [|[k f] fs IH]; intros H; simpl.
  - by exists [].
  - destruct (H k f) as [p Hp]; [by left|]. rewrite Hp.
    destruct IH as (flags & -> & Hall); [intros; eapply H; by right|].
    exists (p :: flags). split; [done|]. by constructor.
Qed.

Lemma periodic_bool_KeyError fs k f :
  (k, f) ∈ fs -> periodic f = None -> periodic_bool fs = Raises KeyError.
Proof.
  induction fs as [|[k' f'] fs IH]; intros Hin Hd; simpl.
  - by apply elem_of_nil in Hin.
  - apply elem_of_cons in Hin as [[= <- <-] | Hin]; [by rewrite Hd|].
    destruct (periodic f'); [| done]. by rewrite IH.
Qed.

(** The items of the two dictionaries after the renaming. *)
Lemma renamed_items sfx fs items flags :
  Forall2 (fun kf kd => kd.1 = kf.1 /\ dtype kf.2 = Some kd.2) fs items ->
  Forall2 (fun kf p => periodic kf.2 = Some p) fs flags ->
  Forall2 (fun kf nd => nd.1 = final_name sfx kf /\ dtype kf.2 = Some nd.2) fs
          (zip (rename_periodic sfx fs.*1 flags) items.*2) /\
  zip (rename_periodic sfx fs.*1 flags)
      ((fun kf : string * feature => (kf.1, 1)) <$> fs).*2
    = (fun kf => (final_name sfx kf, 1)) <$> fs.
Proof.
  intros Hi. revert flags. unfold rename_periodic.
  induction Hi as [|[k f] [k' d] fs items [Hk Hd] _ IH]; intros flags Hf.
  - by inversion Hf.
  - inversion Hf as [|? p ? flags' Hp Hf']; subst. simpl in *.
    destruct (IH flags' Hf') as [IH1 IH2]. split.
    + constructor; [| done]. split; [| done]. simpl.
      unfold final_name. simpl. rewrite Hp.
      by destruct p.
    + f_equal; [| done]. unfold final_name. simpl. rewrite Hp.
      by destruct p.
Qed.

Lemma NoDup_pairs {V} (items : list (string * V)) :
  NoDup items.*1 -> NoDup items.
Proof. apply NoDup_fmap_1. Qed.

Lemma same_key_same_value {V} (items : list (string * V)) k v1 v2 :
  NoDup items.*1 -> (k, v1) ∈ items -> (k, v2) ∈ items -> v1 = v2.
Proof.
  intros Hnd H1 H2.
  pose proof (dict_of_lookup _ _ _ Hnd H1) as E1.
  pose proof (dict_of_lookup _ _ _ Hnd H2) as E2. congruence.
Qed.

(** The renamed keys are distinct when the configured ones are and no
    feature that keeps its name already bears the suffixed name of a
    periodic one. *)
Lemma NoDup_final_names sfx fs :
  NoDup fs.*1 ->
  (forall k1 f1 k2 f2,
     (k1, f1) ∈ fs -> (k2, f2) ∈ fs ->
     periodic f1 <> Some true -> periodic f2 = Some true ->
     k1 <> suffixed k2 sfx) ->
  NoDup (final_name sfx <$> fs).
Proof.
  intros Hnd Hmix. apply NoDup_fmap_2_strong; [| by apply NoDup_pairs].
  intros [k1 f1] [k2 f2] H1 H2. unfold final_name. simpl.
  destruct (decide (periodic f1 = Some true)) as [P1 | P1],
           (decide (periodic f2 = Some true)) as [P2 | P2];
    rewrite ?(bool_decide_eq_true_2 _ P1), ?(bool_decide_eq_true_2 _ P2),
            ?(bool_decide_eq_false_2 _ P1), ?(bool_decide_eq_false_2 _ P2);
    intros E.
  - unfold suffixed in E. apply string_app_inv_tail in E. subst k2.
    f_equal. by eapply same_key_same_value.
  - symmetry in E. by destruct (Hmix k2 f2 k1 f1 H2 H1 P2 P1).
  - by destruct (Hmix k1 f1 k2 f2 H1 H2 P1 P2).
  - subst k2. f_equal. by eapply same_key_same_value.
Qed.

Lemma Forall2_lookup_pairs {A B} (R : A -> B -> Prop) l1 l2 x :
  Forall2 R l1 l2 -> x ∈ l1 -> exists y, y ∈ l2 /\ R x y.
Proof.
  induction 1 as [|a b l1 l2 Hab _ IH]; intros Hx.
  - by apply elem_of_nil in Hx.
  - apply elem_of_cons in Hx as [-> | Hx].
    + exists b. split; [by left | done].
    + destruct (IH Hx) as (y & Hy & HR). exists y. split; [by right | done].
Qed.

Lemma Forall2_fst_eq {A B} (f : A -> string) (g : B -> string)
    (R : A -> B -> Prop) l1 l2 :
  Forall2 R l1 l2 -> (forall x y, R x y -> g y = f x) -> g <$> l2 = f <$> l1.
Proof.
  intros H HR. induction H as [|a b l1 l2 Hab _ IH]; [done|].
  rewrite !fmap_cons, IH. f_equal. by apply HR.
Qed.

(** X18.  Without a period suffix (the entry is null, or the string
    "None"), and when every configured feature has a dtype, the import
    leaves two dictionaries with exactly the configured names as keys:
    [dtype_dict] gives each its dtype and [projection_dict] gives each the
    flag 1. *)
Theorem plain_feature_dicts (cfg : config) :
  no_period_suffix (period_suffix cfg) = true ->
  NoDup (ontological cfg).*1 ->
  (forall k f, (k, f) ∈ ontological cfg -> is_Some (dtype f)) ->
  exists dtype_dict projection_dict,
    feature_dicts cfg = Returns (dtype_dict, projection_dict) /\
    (forall k f, (k, f) ∈ ontological cfg ->
       dtype_dict !! k = dtype f /\ projection_dict !! k = Some 1) /\
    (forall k, k ∉ (ontological cfg).*1 ->
       dtype_dict !! k = None /\ projection_dict !! k = None).
Proof.
  intros Hno Hnd Hall. unfold feature_dicts.
  destruct (dtype_items_Returns _ Hall) as (items & -> & Hitems). simpl.
  assert (Hkeys : items.*1 = (ontological cfg).*1).
  { eapply Forall2_fst_eq; [exact Hitems|]. by intros x y [? _]. }
  assert (Hpk : ((fun kf : string * feature => (kf.1, 1)) <$> ontological cfg).*1
                = (ontological cfg).*1).
  { rewrite <- list_fmap_compose. by apply list_fmap_ext. }
  exists (dict_of items),
         (dict_of ((fun kf : string * feature => (kf.1, 1)) <$> ontological cfg)).
  split.
  { destruct (period_suffix cfg) as [sfx|]; [| done]. simpl in *. by rewrite Hno. }
  split.
  - intros k f Hin. split.
    + destruct (Forall2_lookup_pairs _ _ _ _ Hitems Hin) as ([k' d] & Hd & Hk & Hdt).
      simpl in Hk, Hdt. subst k'. rewrite Hdt. apply dict_of_lookup; [by rewrite Hkeys | done].
    + apply dict_of_lookup; [by rewrite Hpk|].
      apply list_elem_of_fmap. by exists (k, f).
  - intros k Hk. split; apply dict_of_lookup_None; by rewrite ?Hkeys, ?Hpk.
Qed.

(** X19.  With a period suffix, and when every configured feature has a
    dtype and a periodic flag, the keys of both dictionaries are the
    configured names with the suffix appended to those of the periodic
    features; each feature keeps its dtype and its flag 1 under its new
    key.  This holds as long as no feature that keeps its name already
    bears the suffixed name of a periodic one. *)
Theorem suffixed_feature_dicts (cfg : config) (sfx : string) :
  period_suffix cfg = Some sfx ->
  sfx <> "None" ->
  NoDup (ontological cfg).*1 ->
  (forall k f, (k, f) ∈ ontological cfg ->
     is_Some (dtype f) /\ is_Some (periodic f)) ->
  (forall k1 f1 k2 f2,
     (k1, f1) ∈ ontological cfg -> (k2, f2) ∈ ontological cfg ->
     periodic f1 <> Some true -> periodic f2 = Some true ->
     k1 <> suffixed k2 sfx) ->
  exists dtype_dict projection_dict,
    feature_dicts cfg = Returns (dtype_dict, projection_dict) /\
    (forall k f, (k, f) ∈ ontological cfg ->
       dtype_dict !! final_name sfx (k, f) = dtype f /\
       projection_dict !! final_name sfx (k, f) = Some 1) /\
    (forall k, k ∉ final_name sfx <$> ontological cfg ->
       dtype_dict !! k = None /\ projection_dict !! k = None).
Proof.
  intros Hsfx Hnone Hnd Hall Hmix. unfold feature_dicts.
  destruct (dtype_items_Returns (ontological cfg)) as (items & -> & Hitems);
    [intros k f Hin; by apply (Hall k f)|].
  simpl. rewrite Hsfx. simpl. rewrite bool_decide_eq_false_2 by done.
  destruct (periodic_bool_Returns (ontological cfg)) as (flags & -> & Hflags);
    [intros k f Hin; by apply (Hall k f)|].
  simpl.
  destruct (renamed_items sfx _ _ _ Hitems Hflags) as [Hd Hp].
  pose proof (NoDup_final_names sfx _ Hnd Hmix) as Hnames.
  set (ditems := zip (rename_periodic sfx (ontological cfg).*1 flags) items.*2) in *.
  assert (Hdk : ditems.*1 = final_name sfx <$> ontological cfg).
  { eapply Forall2_fst_eq; [exact Hd|]. by intros x y [? _]. }
  assert (Hpk : ((fun kf => (final_name sfx kf, 1)) <$> ontological cfg).*1
                = final_name sfx <$> ontological cfg).
  { rewrite <- list_fmap_compose. by apply list_fmap_ext. }
  eexists _, _. split; [done|]. rewrite Hp. split.
  - intros k f Hin. split.
    + destruct (Forall2_lookup_pairs _ _ _ _ Hd Hin) as ([k' d] & Hin' & Hk & Hdt).
      simpl in Hk, Hdt. rewrite Hdt, <- Hk. apply dict_of_lookup; [by rewrite Hdk | done].
    + apply dict_of_lookup; [by rewrite Hpk|].
      apply list_elem_of_fmap. by exists (k, f).
  - intros k Hk. split; apply dict_of_lookup_None; by rewrite ?Hdk, ?Hpk.
Qed.

(** X20.  A configured feature without a dtype makes the import raise
    KeyError; so does, when a period suffix is in force, a feature without
    a periodic flag. *)
Theorem incomplete_feature_raises_key_error (cfg : config) (k : string)
    (f : feature) :
  (k, f) ∈ ontological cfg ->
  (dtype f = None -> feature_dicts cfg = Raises KeyError) /\
  (periodic f = None ->
   no_period_suffix (period_suffix cfg) = false ->
   feature_dicts cfg = Raises KeyError).
Proof.
  intros Hin. split.
  - intros Hd. unfold feature_dicts.
    by rewrite (dtype_items_KeyError _ _ _ Hin Hd).
  - intros Hp Hsfx. unfold feature_dicts.
    destruct (dtype_items (ontological cfg)) as [items | e] eqn:Hitems; simpl.
    + destruct (period_suffix cfg) as [sfx|]; [| done]. simpl in *. rewrite Hsfx.
      by rewrite (periodic_bool_KeyError _ _ _ Hin Hp).
    + by apply dtype_items_exn in Hitems as ->.
Qed.


(* ===================================================================== *)
(** ** The service instances *)
(* ===================================================================== *)

Lemma set_token_names hs name tok hs' :
  set_token hs name tok = Returns hs' -> hs'.*1 = hs.*1.
Proof.
  unfold set_token. destruct tok as [t|]; [| by intros [= <-]].
  destruct (bool_decide _); [| done]. intros [= <-].
  rewrite <- list_fmap_compose. apply list_fmap_ext. intros i [n e] _. simpl.
  by destruct (bool_decide _).
Qed.

Lemma set_token_exn hs name tok e :
  set_token hs name tok = Raises e -> e = KeyError.
Proof.
  unfold set_token. destruct tok; [| done].
  destruct (bool_decide _); [done|]. by intros [= <-].
Qed.

Lemma set_token_Raises hs name t :
  name ∉ hs.*1 -> set_token hs name (Some t) = Raises KeyError.
Proof. intros H. unfold set_token. by rewrite bool_decide_eq_false_2. Qed.

Lemma hosts_with_token_exn hs e :
  hosts_with_token hs = Raises e -> e = KeyError.
Proof.
  revert e. induction hs as [|[n [[t|]|]] hs IH]; intros e; simpl; try done.
  - destruct (hosts_with_token hs) as [l | e']; [done|].
    simpl. intros [= <-]. by apply IH.
  - apply IH.
  - by intros [= <-].
Qed.

Lemma instances_exn cfg ev e : instances cfg ev = Raises e -> e = KeyError.
Proof.
  unfold instances.
  destruct (set_token (hosts cfg) _ _) as [h1|e1] eqn:E1; simpl;
    [| intros [= <-]; by eapply set_token_exn].
  destruct (set_token h1 _ _) as [h2|e2] eqn:E2; simpl;
    [| intros [= <-]; by eapply set_token_exn].
  destruct (set_token h2 _ _) as [h3|e3] eqn:E3; simpl;
    [| intros [= <-]; by eapply set_token_exn].
  destruct (hosts_with_token h3) as [l|e4] eqn:E4; simpl; [done|].
  intros [= <-]. by eapply hosts_with_token_exn.
Qed.

Lemma set_token_Returns hs name tok hs' :
  set_token hs name tok = Returns hs' ->
  hs' = (fun h : string * option (option string) =>
           match tok with
           | Some t => if bool_decide (h.1 = name)
                       then (h.1, Some (Some t)) else h
           | None => h
           end) <$> hs.
Proof.
  unfold set_token. destruct tok as [t|].
  - destruct (bool_decide (name ∈ hs.*1)); [| done]. by intros [= <-].
  - intros [= <-]. by rewrite list_fmap_id.
Qed.

(** The three assignments together, when none of them raises. *)
Lemma set_tokens_overridden cfg ev h1 h2 h3 :
  set_token (hosts cfg) "kowalski" (KOWALSKI_INSTANCE_TOKEN ev) = Returns h1 ->
  set_token h1 "gloria" (GLORIA_INSTANCE_TOKEN ev) = Returns h2 ->
  set_token h2 "melman" (MELMAN_INSTANCE_TOKEN ev) = Returns h3 ->
  h3 = overridden ev <$> hosts cfg.
Proof.
  intros E1 E2 E3.
  apply set_token_Returns in E1 as H1, E2 as H2, E3 as H3.
  rewrite H3, H2, H1, <- !list_fmap_compose.
  apply list_fmap_ext. intros _ [n e] _. unfold overridden, token_env_of. simpl.
  destruct (decide (n = "kowalski")) as [-> | Hk].
  { destruct (KOWALSKI_INSTANCE_TOKEN ev), (GLORIA_INSTANCE_TOKEN ev),
      (MELMAN_INSTANCE_TOKEN ev); done. }
  rewrite (bool_decide_eq_false_2 _ Hk).
  destruct (decide (n = "gloria")) as [-> | Hg].
  { destruct (KOWALSKI_INSTANCE_TOKEN ev), (GLORIA_INSTANCE_TOKEN ev),
      (MELMAN_INSTANCE_TOKEN ev); done. }
  rewrite (bool_decide_eq_false_2 _ Hg).
  destruct (decide (n = "melman")) as [-> | Hm].
  { destruct (KOWALSKI_INSTANCE_TOKEN ev), (GLORIA_INSTANCE_TOKEN ev),
      (MELMAN_INSTANCE_TOKEN ev); done. }
  rewrite (bool_decide_eq_false_2 _ Hm).
  destruct (KOWALSKI_INSTANCE_TOKEN ev), (GLORIA_INSTANCE_TOKEN ev),
    (MELMAN_INSTANCE_TOKEN ev); simpl;
    rewrite ?(bool_decide_eq_false_2 _ Hk), ?(bool_decide_eq_false_2 _ Hg),
            ?(bool_decide_eq_false_2 _ Hm); done.
Qed.

Lemma hosts_with_token_overridden ev hs named :
  hosts_with_token (overridden ev <$> hs) = Returns named ->
  named = omap (fun h => t ← effective_token ev h; Some (h.1, t)) hs.
Proof.
  revert named. induction hs as [|[n e] hs IH]; intros named; simpl.
  - by intros [= <-].
  - unfold overridden at 1, effective_token at 1. simpl.
    destruct (token_env_of ev n) as [t|]; simpl.
    + destruct (hosts_with_token _) as [others|]; [| done].
      simpl. intros [= <-]. by rewrite (IH others eq_refl).
    + destruct e as [[t|]|]; simpl; [| apply IH | done].
      destruct (hosts_with_token _) as [others|]; [| done].
      simpl. intros [= <-]. by rewrite (IH others eq_refl).
Qed.

Lemma hosts_with_token_missing_key hs name :
  (name, None) ∈ hs -> hosts_with_token hs = Raises KeyError.
Proof.
  induction hs as [|[n e] hs IH]; intros Hin.
  - by apply elem_of_nil in Hin.
  - apply elem_of_cons in Hin as [[= <- <-] | Hin]; [done|].
    simpl. rewrite (IH Hin). by destruct e as [[t|]|].
Qed.

(** X21.  When the import gets as far as building [instances], these are,
    in the order of the configuration, the hosts that end up with a token:
    the token of the environment variable where one is set for the host,
    else the configured one when it is not null.  Each instance has the
    configured protocol and port and the host name with [.caltech.edu]
    appended. *)
Theorem instances_are_the_hosts_with_a_token (cfg : config)
    (env_vars : environ) (l : list (string * instance)) :
  instances cfg env_vars = Returns l ->
  l = omap (fun h => t ← effective_token env_vars h;
                     Some (instance_of cfg h.1 t)) (hosts cfg).
Proof.
  unfold instances.
  destruct (set_token (hosts cfg) _ _) as [h1|] eqn:E1; [| done]. simpl.
  destruct (set_token h1 _ _) as [h2|] eqn:E2; [| done]. simpl.
  destruct (set_token h2 _ _) as [h3|] eqn:E3; [| done]. simpl.
  destruct (hosts_with_token h3) as [named|] eqn:E4; [| done]. simpl.
  intros [= <-].
  rewrite (set_tokens_overridden _ _ _ _ _ E1 E2 E3) in E4.
  apply hosts_with_token_overridden in E4 as ->. clear E1 E2 E3.
  induction (hosts cfg) as [|h hs IH]; [done|]. simpl.
  destruct (effective_token env_vars h) as [t|]; simpl; [| apply IH].
  f_equal. apply IH.
Qed.

(** X22.  The import raises KeyError when the environment gives a token
    for a host the configuration does not list, and also when a listed
    host has no [token] key and the environment gives none for it. *)
Theorem unknown_host_raises_key_error (cfg : config) (env_vars : environ)
    (name : string) :
  (is_Some (token_env_of env_vars name) /\ name ∉ (hosts cfg).*1) \/
  (token_env_of env_vars name = None /\ (name, None) ∈ hosts cfg) ->
  instances cfg env_vars = Raises KeyError.
Proof.
  intros H.
  destruct (instances cfg env_vars) as [l | e] eqn:E;
    [| by apply instances_exn in E as ->].
  exfalso. unfold instances in E.
  destruct (set_token (hosts cfg) _ _) as [h1|] eqn:E1; [| done]. simpl in E.
  destruct (set_token h1 _ _) as [h2|] eqn:E2; [| done]. simpl in E.
  destruct (set_token h2 _ _) as [h3|] eqn:E3; [| done]. simpl in E.
  destruct (hosts_with_token h3) as [named|] eqn:E4; [| done].
  pose proof (set_token_names _ _ _ _ E1) as N1.
  pose proof (set_token_names _ _ _ _ E2) as N2.
  pose proof (set_token_names _ _ _ _ E3) as N3.
  destruct H as [[[t Ht] Hout] | [Hnone Hin]].
  - unfold token_env_of in Ht.
    destruct (decide (name = "kowalski")) as [-> | Hk].
    { simpl in Ht. rewrite Ht, set_token_Raises in E1; done. }
    rewrite (bool_decide_eq_false_2 _ Hk) in Ht.
    destruct (decide (name = "gloria")) as [-> | Hg].
    { simpl in Ht. rewrite Ht, set_token_Raises in E2; [done | by rewrite N1]. }
    rewrite (bool_decide_eq_false_2 _ Hg) in Ht.
    destruct (decide (name = "melman")) as [-> | Hm].
    { simpl in Ht. rewrite Ht, set_token_Raises in E3;
        [done | by rewrite N2, N1]. }
    by rewrite (bool_decide_eq_false_2 _ Hm) in Ht.
  - rewrite (set_tokens_overridden _ _ _ _ _ E1 E2 E3) in E4.
    rewrite (hosts_with_token_missing_key _ name) in E4; [done|].
    apply list_elem_of_fmap. exists (name, None). split; [| done].
    unfold overridden. simpl. by rewrite Hnone.
Qed.


(* ===================================================================== *)
(** ** run: the regions *)
(* ===================================================================== *)

Lemma ccds_of_regions (field : Z) (ccds : list Z) (q0 q1 : Z) (qs : list Z) :
  ccds_of field ccds (q0 :: q1 :: qs)
    = Some (regions_of field ccds (py_range q0 (q1 + 1))).
Proof.
  induction ccds as [|c ccds IH]; [done|].
  simpl ccds_of. rewrite IH. unfold regions_of. by rewrite bind_cons.
Qed.

Lemma elem_of_regions_of field ccds quads r f :
  (r, f) ∈ regions_of field ccds quads <->
  exists c q, c ∈ ccds /\ q ∈ quads /\ r = CcdQuad c q /\
              f = region_file field (CcdQuad c q).
Proof.
  unfold regions_of. rewrite list_elem_of_bind. split.
  - intros (c & Hin & Hc). apply list_elem_of_fmap in Hin as (q & [= -> ->] & Hq).
    by exists c, q.
  - intros (c & q & Hc & Hq & -> & ->). exists c. split; [| done].
    apply list_elem_of_fmap. by exists q.
Qed.

Lemma length_regions_of field ccds quads :
  length (regions_of field ccds quads) = (length ccds * length quads)%nat.
Proof.
  unfold regions_of. induction ccds as [|c ccds IH]; [done|].
  rewrite bind_cons, length_app, length_fmap, IH. done.
Qed.

Lemma NoDup_regions_of field ccds quads :
  NoDup ccds -> NoDup quads -> NoDup (regions_of field ccds quads).*1.
Proof.
  intros Hc Hq.
  assert (E : (regions_of field ccds quads).*1
              = (c ← ccds; CcdQuad c <$> quads)).
  { unfold regions_of. induction ccds as [|c ccds IH]; [done|].
    rewrite !bind_cons, fmap_app, <- list_fmap_compose.
    apply NoDup_cons in Hc as [_ Hc]. by rewrite (IH Hc). }
  rewrite E. apply NoDup_bind; [| | done].
  - intros c1 c2 r _ _ H1 H2.
    apply list_elem_of_fmap in H1 as (q1 & -> & _).
    apply list_elem_of_fmap in H2 as (q2 & [= -> _] & _). done.
  - intros c _. apply NoDup_fmap_2; [| done]. by intros q1 q2 [= ->].
Qed.

Lemma length_py_range (a b : Z) : len (py_range a b) = Z.max 0 (b - a).
Proof. unfold len, py_range. rewrite length_fmap, length_seq. lia. Qed.

(** X23.  For a ccd range and a quadrant range of two bounds each (an int
    standing for both of its bounds), [run] goes through the regions
    (ccd, quad) with both bounds included, every pair once, ccd by ccd and
    within a ccd by quadrant; each comes with the default file of its ccd
    and quadrant.  A range whose upper bound is below the lower one gives
    no region. *)
Theorem regions_cover_the_ranges (field : Z) (ccd_range quad_range : range_arg)
    (c0 c1 q0 q1 : Z) (cs qs : list Z) :
  as_bounds ccd_range = c0 :: c1 :: cs ->
  as_bounds quad_range = q0 :: q1 :: qs ->
  exists items,
    iter_dct field ccd_range quad_range false = Some items /\
    (forall r f, (r, f) ∈ items <->
       exists c q, c0 <= c <= c1 /\ q0 <= q <= q1 /\ r = CcdQuad c q /\
                   f = region_file field (CcdQuad c q)) /\
    NoDup items.*1 /\
    len items = Z.max 0 (c1 + 1 - c0) * Z.max 0 (q1 + 1 - q0) /\
    (forall i j c q c' q' f f',
       items !! i = Some (CcdQuad c q, f) ->
       items !! j = Some (CcdQuad c' q', f') ->
       (i < j)%nat -> c < c' \/ (c = c' /\ q < q')).
Proof.
  intros Hc Hq. unfold iter_dct. simpl. rewrite Hc, Hq. simpl.
  rewrite ccds_of_regions. eexists. split; [done|]. split; [| split; [| split]].
  - intros r f. rewrite elem_of_regions_of. split.
    + intros (c & q & H1 & H2 & -> & ->).
      apply elem_of_py_range in H1, H2. exists c, q.
      repeat split; (done || lia).
    + intros (c & q & H1 & H2 & -> & ->). exists c, q.
      rewrite !elem_of_py_range. repeat split; (done || lia).
  - apply NoDup_regions_of; apply NoDup_py_range.
  - unfold len at 1. rewrite length_regions_of, Nat2Z.inj_mul.
    fold (len (py_range c0 (c1 + 1))). fold (len (py_range q0 (q1 + 1))).
    rewrite !length_py_range. done.
  - generalize (c1 + 1). intros hi. clear Hc Hq.
    assert (Hlow : forall lo i c q f,
      regions_of field (py_range lo hi) (py_range q0 (q1 + 1)) !! i
        = Some (CcdQuad c q, f) -> lo <= c).
    { intros lo i c q f Hi. apply list_elem_of_lookup_2 in Hi.
      apply elem_of_regions_of in Hi as (c' & q' & H1 & _ & [= -> ->] & _).
      apply elem_of_py_range in H1. lia. }
    assert (Hquads : forall c i j q q' f f',
      ((fun quad => (CcdQuad c quad, region_file field (CcdQuad c quad)))
         <$> py_range q0 (q1 + 1)) !! i = Some (CcdQuad c q, f) ->
      ((fun quad => (CcdQuad c quad, region_file field (CcdQuad c quad)))
         <$> py_range q0 (q1 + 1)) !! j = Some (CcdQuad c q', f') ->
      (i < j)%nat -> q < q').
    { intros c i j q q' f f'. unfold py_range.
      rewrite <- !list_fmap_compose, !list_lookup_fmap.
      intros Hi Hj Hij.
      destruct (seq 0 _ !! i) as [x|] eqn:Ex; [| done].
      destruct (seq 0 _ !! j) as [y|] eqn:Ey; [| done].
      apply lookup_seq in Ex as [-> _]. apply lookup_seq in Ey as [-> _].
      simpl in Hi, Hj. injection Hi as <- _. injection Hj as <- _. lia. }
    intros i j c q c' q' f f'.
    remember (Z.to_nat (hi - c0)) as n eqn:Hn.
    revert c0 Hn i j. induction n as [|n IH]; intros lo Hn i j Hi Hj Hij.
    { rewrite py_range_nil in Hi by lia. done. }
    rewrite py_range_cons in Hi, Hj by lia.
    unfold regions_of in Hi, Hj. rewrite bind_cons in Hi, Hj.
    fold (regions_of field (py_range (lo + 1) hi) (py_range q0 (q1 + 1))) in Hi, Hj.
    set (here := (fun quad => (CcdQuad lo quad, region_file field (CcdQuad lo quad)))
                   <$> py_range q0 (q1 + 1)) in *.
    destruct (decide (i < length here)%nat) as [Hil | Hil].
    + rewrite lookup_app_l in Hi by done.
      assert (c = lo) as ->.
      { apply list_elem_of_lookup_2, list_elem_of_fmap in Hi
          as (x & [= -> _] & _). done. }
      destruct (decide (j < length here)%nat) as [Hjl | Hjl].
      * rewrite lookup_app_l in Hj by done.
        assert (c' = lo) as ->.
        { apply list_elem_of_lookup_2, list_elem_of_fmap in Hj
            as (x & [= -> _] & _). done. }
        right. split; [done|]. by eapply (Hquads lo i j).
      * rewrite lookup_app_r in Hj by lia. apply Hlow in Hj. lia.
    + rewrite lookup_app_r in Hi, Hj by lia.
      apply (IH (lo + 1) ltac:(lia) _ _ Hi Hj). lia.
Qed.

(** X24.  A ccd range given as a list of fewer than two bounds makes
    [run] raise IndexError before anything is printed or read, and so does
    such a quadrant range when the ccd range holds at least one ccd; when
    the ccd range is empty the quadrant range is never looked at and [run]
    returns having done nothing.  None of this applies with
    [whole_field]. *)
Theorem short_range_raises_index_error (renv : RunEnv) (fuel : nat)
    (kw : kwargs) (rw : run_world) :
  run_whole_field kw = false ->
  ((length (as_bounds (run_ccd_range kw)) < 2)%nat ->
     run renv fuel kw rw = (Failed IndexError, rw)) /\
  (forall c0 c1 cs,
     as_bounds (run_ccd_range kw) = c0 :: c1 :: cs ->
     (length (as_bounds (run_quad_range kw)) < 2)%nat ->
     run renv fuel kw rw
       = if decide (c0 <= c1) then (Failed IndexError, rw)
         else (Finished tt, rw)).
Proof.
  intros Hw. unfold run, iter_dct. rewrite Hw. simpl. split.
  - intros Hlen. destruct (as_bounds _) as [|c0 [|c1 cs]]; simpl in *;
      (done || lia).
  - intros c0 c1 cs -> Hlen. simpl.
    destruct (decide (c0 <= c1)) as [Hle | Hgt].
    + rewrite py_range_cons by lia. simpl. unfold quads_of.
      destruct (as_bounds (run_quad_range kw)) as [|q0 [|q1 qs]]; simpl in *;
        (done || lia).
    + by rewrite py_range_nil by lia.
Qed.

(* ===================================================================== *)
(** ** run: what it does to the world of the loop *)
(* ===================================================================== *)

Lemma rbind_Finished {A B} (m : R A) (k : A -> R B) rw b rw' :
  rbind m k rw = (Finished b, rw') ->
  exists a rw1, m rw = (Finished a, rw1) /\ k a rw1 = (Finished b, rw').
Proof.
  unfold rbind. destruct (m rw) as [[a | e |] rw1]; [| done | done].
  intros H. by exists a, rw1.
Qed.

Section RPres.

Context (P : world -> world -> Prop) `{!PreOrder P}.

Lemma rpres_ret {A} (a : A) : rpres P (rret a).
Proof. by intros rw r rw' [= <- <-]. Qed.

Lemma rpres_fail {A} e : rpres P (@rfail A e).
Proof. by intros rw r rw' [= <- <-]. Qed.

Lemma rpres_print m : rpres P (rprint m).
Proof. by intros rw r rw' [= <- <-]. Qed.

Lemma rpres_bind {A B} (m : R A) (k : A -> R B) :
  rpres P m -> (forall a, rpres P (k a)) -> rpres P (rbind m k).
Proof.
  intros Hm Hk rw r rw'. unfold rbind.
  destruct (m rw) as [[a | e |] rw1] eqn:E.
  - intros H. etransitivity; [by eapply Hm | by eapply Hk].
  - intros [= <- <-]. by eapply Hm.
  - intros [= <- <-]. by eapply Hm.
Qed.

Lemma rpres_when b m : rpres P m -> rpres P (rwhen b m).
Proof. destruct b; [done | intros _; apply rpres_ret]. Qed.

Lemma rpres_inner {A} (m : M A) : pres P m -> rpres P (inner m).
Proof.
  intros Hm rw r rw'. unfold inner.
  destruct (m (loop_world rw)) as [[a | e |] w1] eqn:E;
    intros [= <- <-]; by eapply Hm.
Qed.

Lemma rpres_rfor {A} (items : list A) (body : A -> R unit) :
  (forall x, rpres P (body x)) -> rpres P (rfor items body).
Proof.
  intros Hb. induction items as [|x items IH]; simpl.
  - apply rpres_ret.
  - apply rpres_bind; [apply Hb | done].
Qed.

(** [run] without [write_results] keeps what [get_features] keeps. *)
Lemma run_unsaved_rpres (renv : RunEnv) (fuel : nat) (kw : kwargs) :
  kw_write_results kw = Some false ->
  (forall a, pres P (get_features (env_of renv) fuel a)) ->
  rpres P (run renv fuel kw).
Proof.
  intros Hw Hget. unfold run. destruct (iter_dct _ _ _ _); [| apply rpres_fail].
  apply rpres_rfor. intros item. unfold run_region. rewrite Hw. simpl.
  apply rpres_bind; [apply rpres_print|]. intros _.
  apply rpres_bind; [destruct (read_h5 _ _); [apply rpres_ret | apply rpres_fail]|].
  intros ids.
  apply rpres_bind; [apply rpres_when, rpres_print|]. intros _.
  apply rpres_bind; [apply rpres_when, rpres_print|]. intros _.
  apply rpres_bind; [by apply rpres_inner | intros _; apply rpres_ret].
Qed.

End RPres.

(** X25.  With [write_results] false, [run] leaves every parquet and csv
    file as it was and writes no segment, whatever the regions, the files
    read and the outcome. *)
Theorem run_without_write_results_writes_nothing (renv : RunEnv) (fuel : nat)
    (kw : kwargs) (rw : run_world) :
  kw_write_results kw = Some false ->
  parquet (loop_world (run renv fuel kw rw).2) = parquet (loop_world rw) /\
  csv (loop_world (run renv fuel kw rw).2) = csv (loop_world rw) /\
  written (trace (loop_world (run renv fuel kw rw).2))
    = written (trace (loop_world rw)).
Proof.
  intros Hw.
  pose proof (run_unsaved_rpres same_files renv fuel kw Hw
                (get_features_files (env_of renv) fuel)
                rw _ _ (surjective_pairing _)) as [H1 H2].
  pose proof (run_unsaved_rpres same_written renv fuel kw Hw
                (get_features_written (env_of renv) fuel)
                rw _ _ (surjective_pairing _)) as H3.
  done.
Qed.

Lemma rprint_world m rw r rw' :
  rprint m rw = (r, rw') -> r = Finished tt /\ loop_world rw' = loop_world rw.
Proof. by intros [= <- <-]. Qed.

Lemma rwhen_print_world b m rw r rw' :
  rwhen b (rprint m) rw = (r, rw') ->
  r = Finished tt /\ loop_world rw' = loop_world rw.
Proof. destruct b; [apply rprint_world | by intros [= <- <-]]. Qed.

Lemma inner_Finished {A} (m : M A) rw a rw' :
  inner m rw = (Finished a, rw') -> m (loop_world rw) = (Ok a, loop_world rw').
Proof.
  unfold inner. destruct (m (loop_world rw)) as [[a' | e |] w1]; [| done | done].
  by intros [= <- <-].
Qed.

Section RunSends.

Context (renv : RunEnv) (fuel : nat) (kw : kwargs).
Hypothesis Hlimit : 1 <= default 1000 (kw_limit_per_query kw).
Hypothesis Hmax : 1 <= default 100000 (kw_max_sources kw).
Hypothesis Hfresh : kw_restart kw = Some true \/ kw_write_results kw = Some false.

Lemma run_region_queried item rw rw' :
  run_region renv fuel kw item rw = (Finished tt, rw') ->
  exists qs,
    queried (trace (loop_world rw'))
      = queried (trace (loop_world rw)) ++ qs /\
    concat qs = region_source_ids renv kw item /\
    Forall (fun q => len q <= default 1000 (kw_limit_per_query kw)) qs.
Proof.
  unfold run_region. intros H.
  apply rbind_Finished in H as ([] & rw1 & H1 & H).
  apply rprint_world in H1 as [_ H1].
  apply rbind_Finished in H as (ids & rw2 & H2 & H).
  unfold region_source_ids, region_ids.
  destruct (read_h5 renv _) as [ids'|]; [| done].
  injection H2 as -> ->. simpl default.
  apply rbind_Finished in H as ([] & rw3 & H3 & H).
  apply rwhen_print_world in H3 as [_ H3].
  apply rbind_Finished in H as ([] & rw4 & H4 & H).
  apply rwhen_print_world in H4 as [_ H4].
  rewrite <- H1, <- H3, <- H4.
  destruct (default true (kw_write_results kw)) eqn:Hw.
  - destruct Hfresh as [Hr | Hr]; [| by rewrite Hr in Hw].
    apply rbind_Finished in H as (r & rw5 & H5 & H). injection H as <-.
    apply inner_Finished in H5.
    apply loop_queried in H5; try done.
    destruct (resume _ _ _) eqn:E; [| done].
    apply resume_iff in E as [E _]. simpl in E. by rewrite Hr in E.
  - apply rbind_Finished in H as (r & rw5 & H5 & H). injection H as <-.
    apply inner_Finished in H5.
    apply get_features_queried in H5; [| done].
    eexists. split; [exact H5|]. split.
    + apply (pages_concat (run_fetch_args renv kw ids)). done.
    + apply Forall_fmap, Forall_forall. intros k Hk. apply elem_of_py_range in Hk.
      simpl. rewrite page_take_drop by (done || lia).
      unfold len. rewrite length_take. simpl in *. lia.
Qed.

Lemma rfor_queried items rw rw' :
  rfor items (run_region renv fuel kw) rw = (Finished tt, rw') ->
  exists qs,
    queried (trace (loop_world rw'))
      = queried (trace (loop_world rw)) ++ qs /\
    concat qs = concat (region_source_ids renv kw <$> items) /\
    Forall (fun q => len q <= default 1000 (kw_limit_per_query kw)) qs.
Proof.
  revert rw. induction items as [|item items IH]; intros rw H; simpl in H.
  - injection H as <-. exists []. by rewrite app_nil_r.
  - apply rbind_Finished in H as ([] & rw1 & H1 & H).
    apply run_region_queried in H1 as (qs1 & Hq1 & Hc1 & Hf1).
    apply IH in H as (qs2 & Hq2 & Hc2 & Hf2).
    exists (qs1 ++ qs2). rewrite Hq2, Hq1, <- app_assoc. split; [done|].
    rewrite concat_app, fmap_cons, Hc1, Hc2. split; [done|].
    by apply Forall_app.
Qed.

End RunSends.

(** X26.  When [run] comes to its end with a page size and a chunk size of
    at least one, and either [restart] is set or [write_results] is off,
    the pages sent to the service, laid end to end in the order sent, are
    the identifiers [source_ids[start:end]] of the regions, region after
    region: every position of every region's list goes to the service
    once, and no query carries more identifiers than the page size. *)
Theorem run_sends_every_region_once (renv : RunEnv) (fuel : nat) (kw : kwargs)
    (items : list (region * string)) (rw rw' : run_world) :
  1 <= default 1000 (kw_limit_per_query kw) ->
  1 <= default 100000 (kw_max_sources kw) ->
  kw_restart kw = Some true \/ kw_write_results kw = Some false ->
  iter_dct (run_field kw) (run_ccd_range kw) (run_quad_range kw)
           (run_whole_field kw) = Some items ->
  run renv fuel kw rw = (Finished tt, rw') ->
  exists qs,
    queried (trace (loop_world rw'))
      = queried (trace (loop_world rw)) ++ qs /\
    concat qs = concat (region_source_ids renv kw <$> items) /\
    Forall (fun q => len q <= default 1000 (kw_limit_per_query kw)) qs.
Proof.
  intros Hlimit Hmax Hfresh Hitems. unfold run. rewrite Hitems.
  by apply rfor_queried.
Qed.


(* ===================================================================== *)
(** ** The further properties on the further scenarios *)
(* ===================================================================== *)

Import Cases.

(** X1, on a service that reports success without data. *)
Lemma success_without_data_raises_value_error_witness :
  success_without_data (answer env_no_data two_ids_pages_of_one 0) /\
  (get_features env_no_data 3 two_ids_pages_of_one empty_world).1
    = Raise ValueError.
Proof.
  assert (H : success_without_data (answer env_no_data two_ids_pages_of_one 0)).
  { exists "kowalski", (Some "success"). split; [by left | reflexivity]. }
  destruct (success_without_data_raises_value_error env_no_data 3
              two_ids_pages_of_one 0 fetch_init empty_world ltac:(lia) H)
    as (_ & _ & _ & H4).
  exact (conj H (H4 eq_refl)).
Defined.

(** X2, on a service that reports an error for every page. *)
Lemma no_success_on_first_page_raises_unbound_witness :
  no_success (answer env_all_error two_ids_pages_of_one 0) /\
  (get_features env_all_error 3 two_ids_pages_of_one empty_world).1
    = Raise UnboundLocalError.
Proof.
  assert (H : no_success (answer env_all_error two_ids_pages_of_one 0)).
  { intros name status data Hin.
    apply list_elem_of_singleton in Hin. injection Hin as _ E _. by subst. }
  exact (conj H (proj1 (no_success_on_first_page_raises_unbound env_all_error 3
                          two_ids_pages_of_one empty_world ltac:(lia) H))).
Defined.

(** X3, on identifiers 1 and 2 in pages of one, the second page answered
    with an error. *)
Lemma no_success_on_later_page_reuses_records_witness :
  no_success (answer env_error_on_2 two_ids_pages_of_one 1) /\
  source_data (value_of fetch_init first_page.1) = Some (rows_of [1]) /\
  exists s' w' df,
    fetch_page env_error_on_2 two_ids_pages_of_one 1
               (value_of fetch_init first_page.1) first_page.2 = (Ok s', w') /\
    source_data s' = Some (rows_of [1]) /\
    df_collection s'
      = df_collection (value_of fetch_init first_page.1) ++ [df] /\
    (if wants_dmdt (projection two_ids_pages_of_one)
     then astype env_error_on_2 (rows_of [1]) = Returns df
     else df = rows_of [1]).
Proof.
  assert (H : no_success (answer env_error_on_2 two_ids_pages_of_one 1)).
  { intros name status data Hin.
    apply list_elem_of_singleton in Hin. injection Hin as _ E _. by subst. }
  assert (H2 : source_data (value_of fetch_init first_page.1)
               = Some (rows_of [1])) by reflexivity.
  refine (conj H (conj H2
    (no_success_on_later_page_reuses_records env_error_on_2
       two_ids_pages_of_one 1 (value_of fetch_init first_page.1) first_page.2
       (rows_of [1]) H H2 _))).
  intros _. by eexists.
Defined.

(** X4, on an error, a success and an empty answer. *)
Lemma last_successful_instance_wins_witness :
  scan_responses
    (gloria_error ++ ("kowalski", Resp (Some "success") (Some (rows_of [1])))
                  :: melman_empty)
    None empty_world
  = (Ok (Some (rows_of [1])), empty_world).
Proof.
  apply last_successful_instance_wins.
  - intros (name & status & Hin & Hs).
    apply list_elem_of_singleton in Hin. injection Hin as _ E. by subst.
  - reflexivity.
  - intros name status data Hin.
    apply list_elem_of_singleton in Hin. done.
Defined.

(** X6, on two identifiers and a page size of zero. *)
Lemma zero_page_size_raises_witness :
  limit_per_query two_ids_pages_of_zero = 0 /\
  (get_features env_full 3 two_ids_pages_of_zero empty_world).1
    = Raise ZeroDivisionError.
Proof.
  split; [reflexivity|].
  refine (proj1 (proj2 (zero_page_size_raises env_full 3 two_ids_pages_of_zero
                          empty_world eq_refl _ _)) _).
  - done.
  - done.
  - eexists. vm_compute. reflexivity.
Defined.

(** X7, on two identifiers and a page size of -1. *)
Lemma negative_page_size_never_returns_witness :
  limit_per_query two_ids_negative_pages < 0 /\
  (get_features env_full 10 two_ids_negative_pages empty_world).1
    <> Ok (rows_of [1; 2], Nd [] []).
Proof.
  assert (H : limit_per_query two_ids_negative_pages < 0) by (simpl; lia).
  exact (conj H (negative_page_size_never_returns env_full 10
                   two_ids_negative_pages empty_world _ H)).
Defined.

(** X8, on two pages of which the second has no dmdt. *)
Lemma dmdt_entries_are_carried_witness :
  loop_end = (Ok (value_of fetch_init loop_end.1), loop_end.2) /\
  length (dmdt_collection (value_of fetch_init loop_end.1)) = 2%nat.
Proof.
  assert (H : loop_end = (Ok (value_of fetch_init loop_end.1), loop_end.2))
    by (vm_compute; reflexivity).
  split; [exact H|].
  etransitivity;
    [exact (proj2 (dmdt_entries_are_carried env_no_dmdt_for_2 5
                     two_ids_pages_of_one empty_world _ _ H))|].
  vm_compute. reflexivity.
Defined.

(** X9, on five identifiers in pages of two. *)
Lemma table_is_pages_in_order_witness :
  answers_with env_full full_rows /\
  _id <$> (value_of ([], Nd [] []) five_ids_fetch.1).1 = [1; 2; 3; 4; 5].
Proof.
  assert (H : answers_with env_full full_rows)
    by (intros q; by exists "kowalski").
  split; [exact H|].
  refine (proj2 (table_is_pages_in_order env_full full_rows 6
                   five_ids_pages_of_two empty_world five_ids_fetch.2
                   (value_of ([], Nd [] []) five_ids_fetch.1).1
                   (value_of ([], Nd [] []) five_ids_fetch.1).2
                   H _ _ _) _ _).
  - intros _ df df' [= <-]. reflexivity.
  - simpl. lia.
  - vm_compute. reflexivity.
  - reflexivity.
  - intros q. unfold full_rows, rows_of. rewrite <- list_fmap_compose.
    apply list_fmap_id.
Defined.

(** X10, on three identifiers with [save] off. *)
Lemma unsaved_run_writes_nothing_witness :
  save three_ids_unsaved = false /\
  parquet (get_features_loop env_full (get_features env_full 10)
             three_ids_unsaved empty_world).2 = ∅.
Proof.
  split; [reflexivity|].
  exact (proj1 (unsaved_run_writes_nothing env_full 10 three_ids_unsaved
                  empty_world eq_refl)).
Defined.

(** X11, on three identifiers in chunks of two with [write_csv]. *)
Lemma csv_duplicates_the_segment_witness :
  n_iterations (len (source_ids (fetch three_ids_with_csv)))
               (max_sources three_ids_with_csv) = Returns 2 /\
  exists df,
    parquet (first_run env_full three_ids_with_csv).2
      !! segment_path env_full three_ids_with_csv 1 = Some df /\
    csv (first_run env_full three_ids_with_csv).2
      !! csv_path env_full three_ids_with_csv 1 = Some df.
Proof.
  split; [reflexivity|].
  refine (csv_duplicates_the_segment env_full 10 three_ids_with_csv empty_world
            (first_run env_full three_ids_with_csv).2
            (Some (rows_of [3], outfile env_full three_ids_with_csv)) 2
            eq_refl eq_refl eq_refl _ _ 1 _).
  - intros (Hr & _). discriminate Hr.
  - vm_compute. reflexivity.
  - split; [vm_compute; discriminate | lia].
Defined.

(** X12, on three identifiers with [save] off. *)
Lemma no_csv_unless_asked_witness :
  save three_ids_unsaved = false /\
  csv (get_features_loop env_full (get_features env_full 10)
         three_ids_unsaved empty_world).2 = ∅.
Proof.
  split; [reflexivity|].
  exact (no_csv_unless_asked env_full 10 three_ids_unsaved empty_world
           (or_intror eq_refl)).
Defined.

(** X13, on four identifiers in chunks of two, when the service sends no
    data for the second chunk: the run raises ValueError, which is what
    [get_features] raises for the chunk after those written, and the
    segments written are on disk. *)
Lemma segments_are_written_in_order_witness :
  save four_ids_chunks_of_two = true /\
  first_run env_no_data_for_3 four_ids_chunks_of_two
    = (Raise ValueError, (first_run env_no_data_for_3 four_ids_chunks_of_two).2) /\
  exists done,
    written (trace (first_run env_no_data_for_3 four_ids_chunks_of_two).2)
      = written (trace empty_world)
        ++ (segment_path env_no_data_for_3 four_ids_chunks_of_two <$> done) /\
    (forall j, j ∈ done ->
       exists df,
         parquet (first_run env_no_data_for_3 four_ids_chunks_of_two).2
           !! segment_path env_no_data_for_3 four_ids_chunks_of_two j = Some df) /\
    exists w1,
      get_features env_no_data_for_3 10
        (with_source_ids (fetch four_ids_chunks_of_two)
           (select_source_ids four_ids_chunks_of_two
              (start_iteration env_no_data_for_3 four_ids_chunks_of_two
                 empty_world + len done))) w1
        = (Raise ValueError,
           (first_run env_no_data_for_3 four_ids_chunks_of_two).2).
Proof.
  assert (H : first_run env_no_data_for_3 four_ids_chunks_of_two
    = (Raise ValueError, (first_run env_no_data_for_3 four_ids_chunks_of_two).2))
    by (vm_compute; reflexivity).
  split; [reflexivity|]. split; [exact H|].
  destruct (segments_are_written_in_order env_no_data_for_3 10
              four_ids_chunks_of_two empty_world
              (first_run env_no_data_for_3 four_ids_chunks_of_two).2
              (Raise ValueError) 2 eq_refl eq_refl H)
    as (ds & _ & H2 & _ & _ & H5 & H6).
  exists ds. split; [exact H2|]. split; [exact H5|].
  destruct (H6 ValueError eq_refl) as [(He & _) | [(He & _) | [_ Hc]]].
  - discriminate He.
  - discriminate He.
  - exact Hc.
Defined.

(** X14, on an empty identifier list. *)
Lemma no_iteration_raises_unbound_witness :
  reads_back env_full no_ids empty_world /\
  fresh_start env_full no_ids empty_world /\
  get_features_loop env_full (get_features env_full 10) no_ids empty_world
    = (Raise UnboundLocalError, empty_world).
Proof.
  assert (H0 : reads_back env_full no_ids empty_world)
    by (eexists; vm_compute; reflexivity).
  assert (H : fresh_start env_full no_ids empty_world) by (by left).
  split; [exact H0|]. split; [exact H|].
  refine (proj2 (no_iteration_raises_unbound env_full (get_features env_full 10)
                   no_ids empty_world H0) H (or_introl (conj eq_refl _))).
  simpl. lia.
Defined.

(** X15, on a region of field 291. *)
Lemma regions_of_a_field_share_the_directory_witness :
  plain_suffix five_ids_chunks_of_two /\
  dirname (outfile env_full five_ids_chunks_of_two)
    = field_dir env_full five_ids_chunks_of_two.
Proof.
  exact (conj I (proj1 (regions_of_a_field_share_the_directory env_full
                          five_ids_chunks_of_two ccd_2_quad_3 empty_world I))).
Defined.

(** X16, on the segments the whole-field run left, seen from ccd 2,
    quadrant 3. *)
Lemma segments_of_other_regions_count_as_existing_witness :
  parquet (after env_full four_ids_chunks_of_two)
    !! segment_path env_full four_ids_chunks_of_two 0 = Some (rows_of [1; 2]) /\
  1 <= start_iteration env_full ccd_2_quad_3 (after env_full four_ids_chunks_of_two).
Proof.
  assert (H : parquet (after env_full four_ids_chunks_of_two)
                !! segment_path env_full four_ids_chunks_of_two 0
              = Some (rows_of [1; 2])) by (vm_compute; reflexivity).
  split; [exact H|].
  exact (proj2 (proj2 (segments_of_other_regions_count_as_existing env_full
                         four_ids_chunks_of_two ccd_2_quad_3
                         (after env_full four_ids_chunks_of_two) 0
                         (rows_of [1; 2]) I I eq_refl eq_refl H))
               ltac:(simpl; lia)).
Defined.

(** X17, on five identifiers in chunks of two and pages of ten. *)
Lemma a_run_sends_every_identifier_once_witness :
  fresh_start env_full five_ids_chunks_of_two empty_world /\
  exists qs,
    queried (trace (first_run env_full five_ids_chunks_of_two).2)
      = queried (trace empty_world) ++ qs /\
    concat qs = [1; 2; 3; 4; 5].
Proof.
  assert (H : fresh_start env_full five_ids_chunks_of_two empty_world)
    by (by left).
  split; [exact H|].
  destruct (a_run_sends_every_identifier_once env_full 10 five_ids_chunks_of_two
              empty_world (first_run env_full five_ids_chunks_of_two).2
              (Some (rows_of [5], outfile env_full five_ids_chunks_of_two))
              ltac:(simpl; lia) ltac:(simpl; lia) H
              ltac:(vm_compute; reflexivity))
    as (qs & H1 & H2 & _).
  exists qs. exact (conj H1 H2).
Defined.

(** X18, on two features and the suffix "None". *)
Lemma plain_feature_dicts_witness :
  no_period_suffix (period_suffix config_plain) = true /\
  exists dtype_dict projection_dict,
    feature_dicts config_plain = Returns (dtype_dict, projection_dict) /\
    dtype_dict !! "period" = Some "float32" /\
    projection_dict !! "n" = Some 1.
Proof.
  split; [reflexivity|].
  destruct (plain_feature_dicts config_plain eq_refl) as (dt & pj & H1 & H2 & _).
  - apply (bool_decide_unpack _). vm_compute. reflexivity.
  - intros k f Hin.
    cbv [ontological config_plain config_suffixed config_of two_features] in Hin.
    repeat (apply elem_of_cons in Hin as [[= -> ->] | Hin]; [by eexists|]).
    by apply elem_of_nil in Hin.
  - exists dt, pj. split; [exact H1|]. split.
    + apply (H2 "period" (Feature (Some "float32") (Some true))). by left.
    + apply (H2 "n" (Feature (Some "uint16") (Some false))). right. by left.
Defined.

(** X19, on two features of which one is periodic. *)
Lemma suffixed_feature_dicts_witness :
  period_suffix config_suffixed = Some "ELS_ECE_EAOV" /\
  exists dtype_dict projection_dict,
    feature_dicts config_suffixed = Returns (dtype_dict, projection_dict) /\
    dtype_dict !! "period_ELS_ECE_EAOV" = Some "float32" /\
    dtype_dict !! "n" = Some "uint16".
Proof.
  split; [reflexivity|].
  destruct (suffixed_feature_dicts config_suffixed "ELS_ECE_EAOV" eq_refl)
    as (dt & pj & H1 & H2 & _).
  - discriminate.
  - apply (bool_decide_unpack _). vm_compute. reflexivity.
  - intros k f Hin.
    cbv [ontological config_plain config_suffixed config_of two_features] in Hin.
    repeat (apply elem_of_cons in Hin as [[= -> ->] | Hin];
            [split; by eexists|]).
    by apply elem_of_nil in Hin.
  - intros k1 f1 k2 f2 Hin1 Hin2 Hp1 Hp2.
    cbv [ontological config_suffixed config_of two_features] in Hin1, Hin2.
    apply elem_of_cons in Hin1 as [[= -> ->] | Hin1]; [done|].
    apply list_elem_of_singleton in Hin1. injection Hin1 as -> ->.
    apply elem_of_cons in Hin2 as [[= -> ->] | Hin2]; [discriminate|].
    apply list_elem_of_singleton in Hin2. injection Hin2 as -> ->.
    discriminate Hp2.
  - exists dt, pj. split; [exact H1|]. split.
    + apply (H2 "period" (Feature (Some "float32") (Some true))). by left.
    + apply (H2 "n" (Feature (Some "uint16") (Some false))). right. by left.
Defined.

(** X20, on a feature without its dtype. *)
Lemma incomplete_feature_raises_key_error_witness :
  ("period", Feature None (Some true)) ∈ ontological config_without_dtype /\
  feature_dicts config_without_dtype = Raises KeyError.
Proof.
  assert (H : ("period", Feature None (Some true))
                ∈ ontological config_without_dtype) by (by left).
  exact (conj H (proj1 (incomplete_feature_raises_key_error config_without_dtype
                          "period" (Feature None (Some true)) H) eq_refl)).
Defined.

(** X21, on three hosts of which one has a configured token and one a
    token from the environment. *)
Lemma instances_are_the_hosts_with_a_token_witness :
  instances config_three_hosts melman_from_env
    = Returns [instance_of config_three_hosts "kowalski" "abc";
               instance_of config_three_hosts "melman" "xyz"] /\
  [instance_of config_three_hosts "kowalski" "abc";
   instance_of config_three_hosts "melman" "xyz"]
    = omap (fun h => t ← effective_token melman_from_env h;
                     Some (instance_of config_three_hosts h.1 t))
           (hosts config_three_hosts).
Proof.
  assert (H : instances config_three_hosts melman_from_env
              = Returns [instance_of config_three_hosts "kowalski" "abc";
                         instance_of config_three_hosts "melman" "xyz"])
    by (vm_compute; reflexivity).
  exact (conj H (instances_are_the_hosts_with_a_token _ _ _ H)).
Defined.

(** X22, on a token for gloria when only kowalski is configured. *)
Lemma unknown_host_raises_key_error_witness :
("gloria" ∉ (hosts config_one_host).*1) /\
  instances config_one_host gloria_from_env = Raises KeyError.
Proof.
  assert (H : "gloria" ∉ (hosts config_one_host).*1).
  { intros Hin. apply list_elem_of_singleton in Hin. discriminate Hin. }
  refine (conj H (unknown_host_raises_key_error config_one_host gloria_from_env
                    "gloria" (or_introl (conj _ H)))).
  by eexists.
Defined.

(** X23, on ccd 3 and the quadrants 1 to 4. *)
Lemma regions_cover_the_ranges_witness :
  as_bounds (IntArg 3) = [3; 3] /\
  exists items,
    iter_dct 291 (IntArg 3) (ListArg [1; 4]) false = Some items /\
    len items = Z.max 0 (3 + 1 - 3) * Z.max 0 (4 + 1 - 1).
Proof.
  split; [reflexivity|].
  destruct (regions_cover_the_ranges 291 (IntArg 3) (ListArg [1; 4])
              3 3 1 4 [] [] eq_refl eq_refl) as (items & H1 & _ & _ & H4 & _).
  exists items. exact (conj H1 H4).
Defined.

(** X24, on a ccd range of one bound. *)
Lemma short_range_raises_index_error_witness :
  run_whole_field one_bound = false /\
  run renv_full 10 one_bound empty_run_world
    = (Failed IndexError, empty_run_world).
Proof.
  split; [reflexivity|].
  refine (proj1 (short_range_raises_index_error renv_full 10 one_bound
                   empty_run_world eq_refl) _).
  simpl. lia.
Defined.

(** X25, on two regions without [write_results]. *)
Lemma run_without_write_results_writes_nothing_witness :
  kw_write_results unwritten = Some false /\
  parquet (loop_world (run renv_full 10 unwritten empty_run_world).2) = ∅.
Proof.
  split; [reflexivity|].
  exact (proj1 (run_without_write_results_writes_nothing renv_full 10 unwritten
                  empty_run_world eq_refl)).
Defined.

(** X26, on two regions of three identifiers each, in pages and chunks of
    two, with [restart]. *)
Lemma run_sends_every_region_once_witness :
  iter_dct (run_field restarted) (run_ccd_range restarted)
           (run_quad_range restarted) (run_whole_field restarted)
    = Some ccd_1_quads_1_2 /\
  exists qs,
    queried (trace (loop_world (run renv_full 10 restarted empty_run_world).2))
      = queried (trace (loop_world empty_run_world)) ++ qs /\
    concat qs = [1; 2; 3; 1; 2; 3].
Proof.
  assert (H : iter_dct (run_field restarted) (run_ccd_range restarted)
                (run_quad_range restarted) (run_whole_field restarted)
              = Some ccd_1_quads_1_2) by (vm_compute; reflexivity).
  split; [exact H|].
  destruct (run_sends_every_region_once renv_full 10 restarted ccd_1_quads_1_2
              empty_run_world (run renv_full 10 restarted empty_run_world).2
              ltac:(simpl; lia) ltac:(simpl; lia) (or_introl eq_refl) H
              ltac:(vm_compute; reflexivity))
    as (qs & H1 & H2 & _).
  exists qs. exact (conj H1 H2).
Defined.
